(** * The APPEND handler of the mailbox store ([onAppend])

    A shallow embedding of [onAppend] (the IMAP APPEND handler shipped in
    [src/config/store-sessions.js], lines 289-805) together with the
    properties its specification states about it.  The backup cleanup job
    of the same file (lines 86-240) is embedded in a part of its own,
    [Job], further down.

    Conventions of the embedding.
    - JavaScript numbers that hold byte counts, UIDs, mod-sequences and
      millisecond timestamps are integers far below 2^53, where IEEE doubles
      are exact; they are modelled as [Z].
    - The storage the handler talks to is an explicit [World]; every
      collaborator the handler imports or reaches through [this] is a field
      of [Collaborators].  A collaborator that can reject returns [Err + _].
    - Promise chains the handler starts without awaiting them (the alias
      bookkeeping of the encryption gate) are run at the point where they are
      started; their failures are only ever logged by the source.
    - A run takes place at one reading of the clock: [new Date()],
      [Date.now()] and [dayjs()] all yield [clock w].
    - The trace records what a run does besides storing ([logger.fatal],
      mails, notifications, calls of [encryptMessage] and [deleteMany]);
      [logger.debug] is not recorded.
    - The callback [fn] is always the last thing a run does; a run returns
      the final world together with the arguments [fn] received. *)

From Stdlib Require Import ZArith List String Bool Lia.
From Stdlib Require Import Strings.Byte.
From Stdlib Require QArith.
Import ListNotations.
Local Open Scope string_scope.
Local Open Scope list_scope.
Local Open Scope Z_scope.

(** ** JavaScript values *)

Definition ObjectId := string.
Definition Date := Z.

(** [raw] is a Buffer, a string (a sequence of UTF-16 code units) or absent. *)
Inductive Raw :=
| RawBuffer (bytes : list byte)
| RawString (units : list N)
| RawUndefined.

Definition isBuffer (raw : Raw) : bool :=
  match raw with RawBuffer _ => true | _ => false end.

(** Truthiness of [raw]: a Buffer object is truthy even when empty, a string
    is truthy unless empty. *)
Definition truthy_raw (raw : Raw) : bool :=
  match raw with
  | RawBuffer _ => true
  | RawString [] => false
  | RawString (_ :: _) => true
  | RawUndefined => false
  end.

(** [Buffer.isBuffer(raw) ? Buffer.byteLength(raw) : raw.length] *)
Definition raw_length (raw : Raw) : Z :=
  match raw with
  | RawBuffer b => Z.of_nat (List.length b)
  | RawString u => Z.of_nat (List.length u)
  | RawUndefined => 0
  end.

(** [bytes('64MB')]: the [bytes] package counts a megabyte as 1024 * 1024. *)
Definition SIXTY_FOUR_MB_IN_BYTES : Z := 64 * 1024 * 1024.

Definition truthy_string (s : option string) : bool :=
  match s with
  | Some EmptyString => false
  | Some _ => true
  | None => false
  end.

(** [Array.prototype.includes] on an array of strings. *)
Definition includes (x : string) (l : list string) : bool :=
  existsb (String.eqb x) l.

(** [String.prototype.slice(0, n)] *)
Definition slice0 (n : nat) (s : string) : string := substring 0 n s.

(** ** Errors *)

Record Err := mkErr {
  err_name : string;
  err_message : string;
  imapResponse : option string
}.

(** [new IMAPError(message, { imapResponse })] *)
Definition IMAPError (message : string) (code : option string) : Err :=
  mkErr "IMAPError" message code.

(** ** Sessions *)

Record User := {
  alias_id : ObjectId;
  domain_id : ObjectId;
  locale : string;
  alias_has_pgp : bool;
  alias_public_key : option string;
  owner_full_email : string;
  username : string
}.

Record Session := {
  session_id : string;
  user : User;
  remoteAddress : string;
  checkForExisting : bool;
  (** [session.selected] and, inside it, [session.selected.mailbox] *)
  selected : option (option ObjectId)
}.

(** ** Stored documents *)

Module Alias.
Record t := mk {
  _id : ObjectId;
  domain : ObjectId;
  pgp_error_sent_at : option Date
}.
End Alias.

Module Mailbox.
Record t := mk {
  _id : ObjectId;
  path : string;
  specialUse : option string;
  (** [None] when the stored field is not a number *)
  retention : option Z;
  uidValidity : Z;
  uidNext : Z;
  modifyIndex : Z
}.
End Mailbox.

Module MimeTree.
Record t := mk {
  body : string;
  (** attachment id of a node -> id of the stored blob, in insertion order;
      absent until [storeNodeBodies] creates it *)
  attachmentMap : option (list (string * string));
  rest : string
}.
End MimeTree.

Module Prepared.
Record t := mk {
  id : ObjectId;
  mimeTree : MimeTree.t;
  size : Z;
  bodystructure : string;
  envelope : string;
  idate : Date;
  hdate : Date;
  msgid : string;
  subject : string;
  headers : string
}.
End Prepared.

Module Maildata.
Record t := mk {
  text : string;
  magic : Z;
  attachments : list string
}.
End Maildata.

Module Thread.
Record t := mk {
  _id : ObjectId;
  key : string
}.
End Thread.

Module Message.
Record t := mk {
  fingerprint : string;
  mailbox : ObjectId;
  _id : ObjectId;
  root : ObjectId;
  exp : bool;
  rdate : Date;
  idate : Date;
  hdate : Date;
  flags : list string;
  size : Z;
  headers : string;
  mimeTree : MimeTree.t;
  envelope : string;
  bodystructure : string;
  msgid : string;
  unseen : bool;
  flagged : bool;
  undeleted : bool;
  draft : bool;
  magic : Z;
  subject : string;
  copied : bool;
  remoteAddress : string;
  transaction : string;
  text : string;
  attachments : option (list string);
  uid : Z;
  modseq : Z;
  searchable : bool;
  junk : bool;
  thread : ObjectId
}.
End Message.

Module Journal.
Record t := mk {
  ignore : bool;
  command : string;
  uid : Z;
  mailbox : ObjectId;
  message : ObjectId
}.
End Journal.

(** The object handed to the callback on success. *)
Module Response.
Record t := mk {
  uidValidity : Z;
  uid : Z;
  id : ObjectId;
  mailbox : ObjectId;
  mailboxPath : string;
  size : Z;
  status : string
}.
End Response.

(** What [fn] is called with: [fn(err)], [fn(null, bool, response)] or, on
    the proxying path, [fn(null, err.imapResponse)]. *)
Inductive FnCall :=
| FnError (err : Err)
| FnOk (success : bool) (response : Response.t)
| FnCode (code : string).

(** The alert message handed to the [email] helper. *)
Record EmailSpec := {
  template : string;
  to : string;
  cc : string;
  email_subject : string;
  cause : Err;
  email_locale : string
}.

(** The request forwarded over the websocket by a front-end instance. *)
Record AppendRequest := {
  action : string;
  req_session : string * User * string;
  req_path : string;
  req_flags : list string;
  req_date : Date;
  req_raw : Raw
}.

(** ** Observable effects, in the order they happen *)

Inductive Event :=
| LogFatal (err : Err)
| EncryptMessage (publicKey : string) (raw : Raw)
| EmailAlert (spec : EmailSpec)
| DeleteMany (attachmentIds : list string) (magic : Z)
| UpdateStorageUsed (alias : ObjectId)
| Broadcast (command : string) (uid : Z)
| NotifierFire (alias : ObjectId)
| SendApn (alias : ObjectId) (path : string).

(** ** The world the handler runs against *)

Record World := mkWorld {
  clock : Date;
  aliases : list Alias.t;
  mailboxes : list Mailbox.t;
  messages : list Message.t;
  threads : list Thread.t;
  (** attachment store: blob id and reference count *)
  blobs : list (string * Z);
  journal : list Journal.t;
  trace : list Event
}.

Definition set_clock (t : Date) (w : World) : World :=
  mkWorld t (aliases w) (mailboxes w) (messages w) (threads w) (blobs w)
          (journal w) (trace w).

Definition set_aliases (a : list Alias.t) (w : World) : World :=
  mkWorld (clock w) a (mailboxes w) (messages w) (threads w) (blobs w)
          (journal w) (trace w).

Definition set_mailboxes (m : list Mailbox.t) (w : World) : World :=
  mkWorld (clock w) (aliases w) m (messages w) (threads w) (blobs w)
          (journal w) (trace w).

Definition set_messages (m : list Message.t) (w : World) : World :=
  mkWorld (clock w) (aliases w) (mailboxes w) m (threads w) (blobs w)
          (journal w) (trace w).

Definition set_threads (t : list Thread.t) (w : World) : World :=
  mkWorld (clock w) (aliases w) (mailboxes w) (messages w) t (blobs w)
          (journal w) (trace w).

Definition set_blobs (b : list (string * Z)) (w : World) : World :=
  mkWorld (clock w) (aliases w) (mailboxes w) (messages w) (threads w) b
          (journal w) (trace w).

Definition set_journal (j : list Journal.t) (w : World) : World :=
  mkWorld (clock w) (aliases w) (mailboxes w) (messages w) (threads w)
          (blobs w) j (trace w).

Definition emit (e : Event) (w : World) : World :=
  mkWorld (clock w) (aliases w) (mailboxes w) (messages w) (threads w)
          (blobs w) (journal w) (trace w ++ [e]).

(** ** Collaborators

    Everything [onAppend] imports or reaches through [this] and whose code is
    outside the handler.  [wsp] is [this.wsp]: present on a front-end
    instance, which forwards the request instead of touching storage. *)

Record Collaborators := {
  wsp : option (World -> AppendRequest -> World * (Err + bool * Response.t));
  i18n_translate : string -> string -> list string -> string;
  config_email_from : string;
  (** [this.refreshSession(session, command)] refreshes [session] in place *)
  refreshSession : World -> Session -> string -> Err + Session;
  (** [Aliases.isOverQuota(alias, size, client)] yields
      [{ storageUsed, isOverQuota }] *)
  Aliases_isOverQuota : World -> User -> Z -> Err + Z * bool;
  encryptMessage : string -> Raw -> Err + Raw;
  isCodeBug : Err -> bool;
  isRetryableError : Err -> bool;
  (** [dayjs(t).subtract(1, 'day')]: the same time of day on the previous
      calendar day in the server's time zone - 24 hours before [t], or 23 or
      25 hours across a change of the clocks *)
  subtract_day : Date -> Date;
  (** [email(...)]: [None] when the alert was sent *)
  email : EmailSpec -> option Err;
  prepareMessage : list string -> Date -> Raw -> Err + Prepared.t;
  getFingerprint : Session -> string -> string -> string;
  Domains_getMaxQuota : ObjectId -> Err + Z;
  getMaildata : MimeTree.t -> Maildata.t;
  (** [this.indexer.storeNodeBodies]: stores attachment bodies, records them
      in [mimeTree.attachmentMap] (in place) and says whether it did; what it
      left behind is returned also when it rejects *)
  storeNodeBodies : list (string * Z) -> Session -> Maildata.t -> MimeTree.t ->
                    (list (string * Z) * MimeTree.t) * (Err + bool);
  splitLines : string -> list string;
  trim : string -> string;
  convert : string -> string;
  (** [Threads.getThreadId]: the thread found or created, and the threads
      afterwards *)
  Threads_getThreadId : list Thread.t -> Session -> string -> MimeTree.t ->
                        Err + Thread.t * list Thread.t;
  (** schema validation run by [Messages.create]: [None] when accepted *)
  Messages_validate : Message.t -> option Err;
  updateStorageUsed : World -> ObjectId -> option Err;
  wss_broadcast : Session -> string -> Z -> option Err;
  notifier_addEntries_failure : World -> Journal.t -> option Err;
  sendApn : ObjectId -> string -> option Err;
  (** [this.attachmentStorage.deleteMany]: the attachment store afterwards,
      and the error when it rejects *)
  attachmentStorage_deleteMany : list (string * Z) -> Session -> list string ->
                                 Z -> list (string * Z) * option Err;
  refineAndLogError : Err -> Session -> Err
}.

(** ** Storage primitives *)

Fixpoint update_first {A : Type} (p : A -> bool) (f : A -> A) (l : list A)
  : list A :=
  match l with
  | [] => []
  | x :: r => if p x then f x :: r else x :: update_first p f r
  end.

(** Modelled from the spec: [Aliases.findOneAndUpdate(filter, update)] of the
    document layer (not under src/), one indivisible conditional update: the
    first document matching [filter] is updated and returned as it was found;
    without a match nothing changes and [null] is returned. *)
Definition Aliases_findOneAndUpdate (filter : Alias.t -> bool)
    (update : Alias.t -> Alias.t) (l : list Alias.t)
  : option Alias.t * list Alias.t :=
  match find filter l with
  | None => (None, l)
  | Some doc => (Some doc, update_first filter update l)
  end.

Definition set_pgp_error_sent_at (v : option Date) (a : Alias.t) : Alias.t :=
  Alias.mk (Alias._id a) (Alias.domain a) v.

(** The [_id] / [domain] part of the alias filters. *)
Definition alias_of (u : User) (a : Alias.t) : bool :=
  String.eqb (Alias._id a) (alias_id u) &&
  String.eqb (Alias.domain a) (domain_id u).

(** Modelled from the spec: [Mailboxes.findOne(this, session, { path })] of
    the store layer (not under src/): the mailbox with that path, if any. *)
Definition Mailboxes_findOne (path : string) (l : list Mailbox.t)
  : option Mailbox.t :=
  find (fun m => String.eqb (Mailbox.path m) path) l.

(** [{ $inc: { uidNext, modifyIndex } }] and [{ returnDocument }] *)
Record Inc := { inc_uidNext : Z; inc_modifyIndex : Z }.

Inductive ReturnDocument := before | after.

Definition has_id (id : ObjectId) (m : Mailbox.t) : bool :=
  String.eqb (Mailbox._id m) id.

Definition apply_inc (i : Inc) (m : Mailbox.t) : Mailbox.t :=
  Mailbox.mk (Mailbox._id m) (Mailbox.path m) (Mailbox.specialUse m)
             (Mailbox.retention m) (Mailbox.uidValidity m)
             (Mailbox.uidNext m + inc_uidNext i)
             (Mailbox.modifyIndex m + inc_modifyIndex i).

(** Modelled from the spec: [Mailboxes.findByIdAndUpdate(this, session, id,
    { $inc }, { returnDocument })] of the store layer (not under src/), one
    indivisible storage operation: the counters of the mailbox with that id
    are incremented and the document is returned as it was before or after
    the increment, as [returnDocument] asks; [null] when there is none. *)
Definition Mailboxes_findByIdAndUpdate (id : ObjectId) (i : Inc)
    (rd : ReturnDocument) (l : list Mailbox.t)
  : option Mailbox.t * list Mailbox.t :=
  match find (has_id id) l with
  | None => (None, l)
  | Some doc =>
      (Some (match rd with before => doc | after => apply_inc i doc end),
       update_first (has_id id) (apply_inc i) l)
  end.

(** Modelled from the spec: [Messages.findOne(this, session, { fingerprint,
    mailbox })] of the store layer (not under src/). *)
Definition Messages_findOne (fingerprint : string) (mailbox : ObjectId)
    (l : list Message.t) : option Message.t :=
  find (fun m => String.eqb (Message.fingerprint m) fingerprint &&
                 String.eqb (Message.mailbox m) mailbox) l.

(** [mailbox.specialUse === tag] *)
Definition specialUse_is (tag : string) (m : Mailbox.t) : bool :=
  match Mailbox.specialUse m with
  | Some s => String.eqb s tag
  | None => false
  end.

(** ** State and errors

    The handler's [let] variables declared before [try] ([thread],
    [hasNodeBodies], [maildata], [mimeTreeData]) survive a [throw] and are
    read by the [catch] block, as is [session], which [refreshSession]
    updates in place.  A computation threads them with the world. *)

Record Frame := mkFrame {
  fr_session : Session;
  fr_thread : option Thread.t;
  hasNodeBodies : option bool;
  maildata : option Maildata.t;
  mimeTreeData : option MimeTree.t
}.

Definition frame0 (session : Session) : Frame :=
  mkFrame session None None None None.

Definition M (A : Type) : Type :=
  Frame * World -> (Frame * World) * (Err + A).

Definition ret {A : Type} (a : A) : M A := fun st => (st, inr a).

Definition throw {A : Type} (e : Err) : M A := fun st => (st, inl e).

Definition bind {A B : Type} (m : M A) (k : A -> M B) : M B :=
  fun st =>
    match m st with
    | (st', inl e) => (st', inl e)
    | (st', inr a) => k a st'
    end.

Notation "x <- m ;; k" := (bind m (fun x => k))
  (at level 61, m at next level, right associativity).
Notation "m ;;; k" := (bind m (fun _ => k))
  (at level 61, right associativity).

(** [await] of a collaborator that reads the world. *)
Definition await {A : Type} (f : World -> Err + A) : M A :=
  fun st => (st, f (snd st)).

Definition read {A : Type} (f : World -> A) : M A :=
  fun st => (st, inr (f (snd st))).

Definition write (f : World -> World) : M unit :=
  fun st => ((fst st, f (snd st)), inr tt).

Definition assign (f : Frame -> Frame) : M unit :=
  fun st => ((f (fst st), snd st), inr tt).

(** A collaborator that may reject: [None] is success. *)
Definition attempt (f : World -> option Err) : M unit :=
  fun st => (st, match f (snd st) with Some e => inl e | None => inr tt end).

Definition set_session (s : Session) (fr : Frame) : Frame :=
  mkFrame s (fr_thread fr) (hasNodeBodies fr) (maildata fr) (mimeTreeData fr).

Definition set_thread (t : option Thread.t) (fr : Frame) : Frame :=
  mkFrame (fr_session fr) t (hasNodeBodies fr) (maildata fr) (mimeTreeData fr).

Definition set_hasNodeBodies (b : option bool) (fr : Frame) : Frame :=
  mkFrame (fr_session fr) (fr_thread fr) b (maildata fr) (mimeTreeData fr).

Definition set_maildata (m : option Maildata.t) (fr : Frame) : Frame :=
  mkFrame (fr_session fr) (fr_thread fr) (hasNodeBodies fr) m (mimeTreeData fr).

Definition set_mimeTreeData (m : option MimeTree.t) (fr : Frame) : Frame :=
  mkFrame (fr_session fr) (fr_thread fr) (hasNodeBodies fr) (maildata fr) m.

(** One hour in milliseconds: [dayjs().subtract(1, 'hour')] is exactly that
    much earlier. *)
Definition ONE_HOUR : Z := 3600000.

Section OnAppend.

Variable C : Collaborators.

Definition translate (key : string) (session : Session) (args : list string)
  : string :=
  i18n_translate C key (locale (user session)) args.

(** *** The encryption gate (lines 387-508) *)

(** Filter of the update run after a successful encryption (lines 398-405):
    [pgp_error_sent_at: { $exists: true, $lte: one hour ago }], a timestamp
    at least one hour old. *)
Definition stale_alert_filter (u : User) (now : Date) (a : Alias.t) : bool :=
  alias_of u a &&
  match Alias.pgp_error_sent_at a with
  | Some t => t <=? now - ONE_HOUR
  | None => false
  end.

(** Filter of the throttling update (lines 422-443): the owner's document,
    [pgp_error_sent_at] absent or [$lte: dayjs().subtract(1, 'day')], at or
    before the same time of day on the previous calendar day. *)
Definition alert_filter (u : User) (now : Date) (a : Alias.t) : bool :=
  alias_of u a &&
  match Alias.pgp_error_sent_at a with
  | None => true
  | Some t => t <=? subtract_day C now
  end.

(** Filter of the update that takes the timestamp back when the alert could
    not be sent (lines 486-492): [pgp_error_sent_at: now]. *)
Definition sent_at_filter (u : User) (now : Date) (a : Alias.t) : bool :=
  alias_of u a &&
  match Alias.pgp_error_sent_at a with
  | Some t => t =? now
  | None => false
  end.

(** The [catch] block of the gate after the error was logged
    (lines 418-506). *)
Definition pgp_alert (session : Session) (err : Err) (w : World) : World :=
  if negb (isCodeBug C err) && negb (isRetryableError C err) then
    let now := clock w in
    let found :=
      Aliases_findOneAndUpdate (alert_filter (user session) now)
        (set_pgp_error_sent_at (Some now)) (aliases w) in
    let w1 := set_aliases (snd found) w in
    match fst found with
    | None => w1
    | Some alias =>
        let spec :=
          {| template := "alert";
             to := owner_full_email (user session);
             cc := config_email_from C;
             email_subject := translate "PGP_ENCRYPTION_ERROR" session [];
             cause := err;
             email_locale := locale (user session) |} in
        let w2 := emit (EmailAlert spec) w1 in
        match email C spec with
        | None =>
            set_aliases
              (snd (Aliases_findOneAndUpdate
                      (fun a => String.eqb (Alias._id a) (Alias._id alias))
                      (set_pgp_error_sent_at (Some (clock w2)))
                      (aliases w2))) w2
        | Some e =>
            let w3 := emit (LogFatal e) w2 in
            set_aliases
              (snd (Aliases_findOneAndUpdate
                      (sent_at_filter (user session) now)
                      (set_pgp_error_sent_at None)
                      (aliases w3))) w3
        end
    end
  else w.

(** Whether the gate runs (lines 388-392). *)
Definition gate_condition (flags : list string) (session : Session) : bool :=
  negb (includes "\Draft" flags) &&
  alias_has_pgp (user session) &&
  truthy_string (alias_public_key (user session)).

Definition public_key (session : Session) : string :=
  match alias_public_key (user session) with Some k => k | None => "" end.

(** Lines 387-508: the world after the gate and the [raw] that goes on. *)
Definition encryption_gate (flags : list string) (session : Session)
    (raw : Raw) (w : World) : World * Raw :=
  if gate_condition flags session then
    let w0 := emit (EncryptMessage (public_key session) raw) w in
    match encryptMessage C (public_key session) raw with
    | inr raw' =>
        (set_aliases
           (snd (Aliases_findOneAndUpdate
                   (stale_alert_filter (user session) (clock w0))
                   (set_pgp_error_sent_at None) (aliases w0))) w0,
         raw')
    | inl err => (pgp_alert session err (emit (LogFatal err) w0), raw)
    end
  else (w, raw).

Definition gate (flags : list string) (session : Session) (raw : Raw)
  : M Raw :=
  fun st =>
    ((fst st, fst (encryption_gate flags session raw (snd st))),
     inr (snd (encryption_gate flags session raw (snd st)))).

(** *** Text kept for indexing (lines 610-635) *)

Definition index_text (md : Maildata.t) : string :=
  match Maildata.text md with
  | EmptyString => ""
  | t =>
      let text :=
        slice0 (N.to_nat 1048576) (trim C (String.concat " " (splitLines C t))) in
      let text := convert C text in
      let text :=
        if (1024 <? String.length text)%nat then slice0 1024 text else text in
      trim C text
  end.

(** *** The document handed to [Messages.create] (lines 640-725)

    [found] is the mailbox resolved by path, [allocated] the document
    returned by the counter update, [flags] the caller's array, to which
    line 713 pushes. *)
Definition message_data (session : Session) (flags : list string)
    (found allocated : Mailbox.t) (p : Prepared.t) (mimeTree : MimeTree.t)
    (md : Maildata.t) (fingerprint : string) (now : Date) (thread : Thread.t)
  : Message.t :=
  let retention :=
    match Mailbox.retention found with Some r => r | None => 0 end in
  {| Message.fingerprint := fingerprint;
     Message.mailbox := Mailbox._id found;
     Message._id := Prepared.id p;
     Message.root := Prepared.id p;
     Message.exp := negb (retention =? 0);
     Message.rdate := now + retention;
     Message.idate := Prepared.idate p;
     Message.hdate := Prepared.hdate p;
     Message.flags :=
       if specialUse_is "\Drafts" allocated then flags ++ ["\Draft"]
       else flags;
     Message.size := Prepared.size p;
     Message.headers := Prepared.headers p;
     Message.mimeTree := mimeTree;
     Message.envelope := Prepared.envelope p;
     Message.bodystructure := Prepared.bodystructure p;
     Message.msgid := Prepared.msgid p;
     Message.unseen := negb (includes "\Seen" flags);
     Message.flagged := includes "\Flagged" flags;
     Message.undeleted := negb (includes "\Deleted" flags);
     Message.draft := includes "\Draft" flags;
     Message.magic := Maildata.magic md;
     Message.subject := Prepared.subject p;
     Message.copied := false;
     Message.remoteAddress := remoteAddress session;
     Message.transaction := "APPEND";
     Message.text := index_text md;
     Message.attachments :=
       match Maildata.attachments md with
       | [] => None
       | l => Some l
       end;
     Message.uid := Mailbox.uidNext allocated;
     Message.modseq := Mailbox.modifyIndex allocated + 1;
     Message.searchable := negb (includes "\Deleted" flags);
     Message.junk := specialUse_is "\Junk" allocated;
     Message.thread := Thread._id thread |}.

(** *** The steps of the [try] block that write *)

(** Lines 595-600: [hasNodeBodies = await this.indexer.storeNodeBodies(...)].
    [mimeTreeData] names the very object [storeNodeBodies] works on
    (line 575), so what it records in the tree is seen through both names,
    also when it rejects. *)
Definition store_node_bodies (session : Session) (md : Maildata.t)
    (mimeTree : MimeTree.t) : M MimeTree.t :=
  fun st =>
    let r := storeNodeBodies C (blobs (snd st)) session md mimeTree in
    let fr := set_mimeTreeData (Some (snd (fst r))) (fst st) in
    let w := set_blobs (fst (fst r)) (snd st) in
    match snd r with
    | inl e => ((fr, w), inl e)
    | inr b => ((set_hasNodeBodies (Some b) fr, w), inr (snd (fst r)))
    end.

(** Lines 680-693: the counter update. *)
Definition allocate (id : ObjectId) : M (option Mailbox.t) :=
  fun st =>
    let r :=
      Mailboxes_findByIdAndUpdate id
        {| inc_uidNext := 1; inc_modifyIndex := 1 |} before
        (mailboxes (snd st)) in
    ((fst st, set_mailboxes (snd r) (snd st)), inr (fst r)).

(** Line 719: [thread = await Threads.getThreadId(...)]. *)
Definition get_thread (session : Session) (subject : string)
    (mimeTree : MimeTree.t) : M Thread.t :=
  fun st =>
    match Threads_getThreadId C (threads (snd st)) session subject mimeTree with
    | inl e => (st, inl e)
    | inr (t, ths) =>
        ((set_thread (Some t) (fst st), set_threads ths (snd st)), inr t)
    end.

(** Modelled from the spec: [Messages.create(data)] of the store layer (not
    under src/): the document is validated, persisted as given and
    returned. *)
Definition Messages_create (data : Message.t) : M Message.t :=
  fun st =>
    match Messages_validate C data with
    | Some e => (st, inl e)
    | None =>
        ((fst st, set_messages (messages (snd st) ++ [data]) (snd st)),
         inr data)
    end.

(** Lines 738-742: storage accounting, whose failure is only logged. *)
Definition update_storage (session : Session) (w : World) : World :=
  let w' := emit (UpdateStorageUsed (alias_id (user session))) w in
  match updateStorageUsed C w (alias_id (user session)) with
  | Some e => emit (LogFatal e) w'
  | None => w'
  end.

(** [session.selected && session.selected.mailbox &&
    session.selected.mailbox.toString() === mailbox.toString()] *)
Definition selected_is (session : Session) (mailbox : ObjectId) : bool :=
  match selected session with
  | Some (Some m) => String.eqb m mailbox
  | _ => false
  end.

(** Modelled from the spec: [this.server.notifier.addEntries] (not under
    src/) appends one entry to the mailbox journal. *)
Definition notifier_addEntries (entry : Journal.t) : M unit :=
  fun st =>
    match notifier_addEntries_failure C (snd st) entry with
    | Some e => (st, inl e)
    | None =>
        ((fst st, set_journal (journal (snd st) ++ [entry]) (snd st)), inr tt)
    end.

(** *** The [try] block of the storing path *)

(** Lines 592-777. *)
Definition append_store (flags : list string) (session : Session)
    (found : Mailbox.t) (p : Prepared.t) (fingerprint : string) : M FnCall :=
  let md := getMaildata C (Prepared.mimeTree p) in
  assign (set_maildata (Some md)) ;;;
  mimeTree <- store_node_bodies session md (Prepared.mimeTree p) ;;
  now <- read clock ;;
  allocated <- allocate (Mailbox._id found) ;;
  match allocated with
  | None =>
      throw (IMAPError (translate "IMAP_MAILBOX_DOES_NOT_EXIST" session [])
                       (Some "TRYCREATE"))
  | Some mailbox =>
      thread <- get_thread session (Prepared.subject p) mimeTree ;;
      message <- Messages_create
                   (message_data session flags found mailbox p mimeTree md
                                 fingerprint now thread) ;;
      write (update_storage session) ;;;
      let response :=
        {| Response.uidValidity := Mailbox.uidValidity mailbox;
           Response.uid := Message.uid message;
           Response.id := Prepared.id p;
           Response.mailbox := Mailbox._id mailbox;
           Response.mailboxPath := Mailbox.path mailbox;
           Response.size := Prepared.size p;
           Response.status := "new" |} in
      (if selected_is session (Response.mailbox response) then
         write (emit (Broadcast "EXISTS" (Response.uid response))) ;;;
         attempt (fun _ =>
                    wss_broadcast C session "EXISTS" (Response.uid response))
       else ret tt) ;;;
      notifier_addEntries
        {| Journal.ignore := selected_is session (Message.mailbox message);
           Journal.command := "EXISTS";
           Journal.uid := Message.uid message;
           Journal.mailbox := Mailbox._id mailbox;
           Journal.message := Message._id message |} ;;;
      write (emit (NotifierFire (alias_id (user session)))) ;;;
      ret (FnOk true response)
  end.

(** Lines 510-590, then [append_store]. *)
Definition append_after_gate (flags : list string) (date : Date)
    (session : Session) (storageUsed : Z) (mailbox : Mailbox.t) (raw : Raw)
  : M FnCall :=
  p <- await (fun _ => prepareMessage C flags date raw) ;;
  let fingerprint :=
    getFingerprint C session (Prepared.headers p)
                   (MimeTree.body (Prepared.mimeTree p)) in
  existingMessage <-
    (if checkForExisting session then
       read (fun w => Messages_findOne fingerprint (Mailbox._id mailbox)
                                       (messages w))
     else ret None) ;;
  match existingMessage with
  | Some existing =>
      ret (FnOk true
             {| Response.uidValidity := Mailbox.uidValidity mailbox;
                Response.uid := Message.uid existing;
                Response.id := Message._id existing;
                Response.mailbox := Mailbox._id mailbox;
                Response.mailboxPath := Mailbox.path mailbox;
                Response.size := Message.size existing;
                Response.status := "new" |})
  | None =>
      assign (set_mimeTreeData (Some (Prepared.mimeTree p))) ;;;
      maxQuotaPerAlias <-
        await (fun _ => Domains_getMaxQuota C (domain_id (user session))) ;;
      if storageUsed + Prepared.size p >? maxQuotaPerAlias then
        throw (IMAPError
                 (translate "IMAP_MAILBOX_MESSAGE_EXCEEDS_QUOTA" session
                            [username (user session)])
                 (Some "OVERQUOTA"))
      else append_store flags session mailbox p fingerprint
  end.

(** Lines 337-386, then the gate and [append_after_gate]. *)
Definition append_try (path : string) (flags : list string) (date : Date)
    (raw : Raw) (session0 : Session) : M FnCall :=
  session <- await (fun w => refreshSession C w session0 "APPEND") ;;
  assign (set_session session) ;;;
  quota <- await (fun w => Aliases_isOverQuota C w (user session) 0) ;;
  if snd quota then
    throw (IMAPError (translate "IMAP_MAILBOX_OVER_QUOTA" session [])
                     (Some "OVERQUOTA"))
  else
    found <- read (fun w => Mailboxes_findOne path (mailboxes w)) ;;
    match found with
    | None =>
        throw (IMAPError (translate "IMAP_MAILBOX_DOES_NOT_EXIST" session [])
                         (Some "TRYCREATE"))
    | Some mailbox =>
        raw' <- gate flags session raw ;;
        append_after_gate flags date session (fst quota) mailbox raw'
    end.

(** *** The [catch] block (lines 778-804) *)

(** [map[key]] on an object whose keys are listed in insertion order. *)
Definition lookup (key : string) (map : list (string * string)) : string :=
  match find (fun kv => String.eqb (fst kv) key) map with
  | Some kv => snd kv
  | None => ""
  end.

(** Lines 780-785. *)
Definition attachmentIds (fr : Frame) : list string :=
  match hasNodeBodies fr, mimeTreeData fr with
  | Some true, Some tree =>
      match MimeTree.attachmentMap tree with
      | Some map => List.map (fun key => lookup key map) (List.map fst map)
      | None => []
      end
  | _, _ => []
  end.

(** Reading [maildata.magic] when [maildata] was never assigned. *)
Definition TypeError_magic : Err :=
  mkErr "TypeError" "Cannot read properties of undefined (reading 'magic')" None.

Definition append_catch (st : Frame * World) (err : Err) : World * FnCall :=
  let fr := fst st in
  let ids := attachmentIds fr in
  let w :=
    match ids with
    | [] => snd st
    | _ :: _ =>
        match maildata fr with
        | None => emit (LogFatal TypeError_magic) (snd st)
        | Some md =>
            let w1 := emit (DeleteMany ids (Maildata.magic md)) (snd st) in
            let r := attachmentStorage_deleteMany C (blobs w1) (fr_session fr)
                                                  ids (Maildata.magic md) in
            let w2 := set_blobs (fst r) w1 in
            match snd r with
            | Some e => emit (LogFatal e) w2
            | None => w2
            end
        end
    end in
  (w, FnError (refineAndLogError C err (fr_session fr))).

(** The [try] ... [catch] statement around a computation: its callback on
    success, the [catch] block on a throw. *)
Definition finish (x : (Frame * World) * (Err + FnCall)) : World * FnCall :=
  match x with
  | (st, inr call) => (snd st, call)
  | (st, inl err) => append_catch st err
  end.

(** *** The proxying path (lines 292-330) *)

Definition wsp_try
    (request : World -> AppendRequest -> World * (Err + bool * Response.t))
    (path : string) (flags : list string) (date : Date) (raw : Raw)
    (session : Session) (w : World) : World * (Err + FnCall) :=
  if truthy_raw raw && (raw_length raw >? SIXTY_FOUR_MB_IN_BYTES) then
    (w, inl (IMAPError (translate "IMAP_MESSAGE_SIZE_EXCEEDED" session [])
                       None))
  else
    let r :=
      request w
        {| action := "append";
           req_session := (session_id session, user session,
                           remoteAddress session);
           req_path := path;
           req_flags := flags;
           req_date := date;
           req_raw := raw |} in
    match snd r with
    | inl e => (fst r, inl e)
    | inr (b, response) =>
        let w1 := emit (NotifierFire (alias_id (user session))) (fst r) in
        let w2 := emit (SendApn (alias_id (user session)) path) w1 in
        let w3 :=
          match sendApn C (alias_id (user session)) path with
          | Some e => emit (LogFatal e) w2
          | None => w2
          end in
        (w3, inr (FnOk b response))
    end.

(** Lines 324-327. *)
Definition wsp_catch (err : Err) : FnCall :=
  match imapResponse err with
  | Some code => if truthy_string (Some code) then FnCode code else FnError err
  | None => FnError err
  end.

(** *** The handler *)

Definition onAppend (path : string) (flags : list string) (date : Date)
    (raw : Raw) (session : Session) (w : World) : World * FnCall :=
  match wsp C with
  | Some request =>
      match wsp_try request path flags date raw session w with
      | (w', inr call) => (w', call)
      | (w', inl err) => (w', wsp_catch err)
      end
  | None => finish (append_try path flags date raw session (frame0 session, w))
  end.

End OnAppend.

(** ** Runs of several appends

    A [Call] is one invocation of the handler at a given time of the clock;
    [run] performs the calls one after the other on the same storage. *)

Record Call := {
  at_time : Date;
  call_path : string;
  call_flags : list string;
  call_date : Date;
  call_raw : Raw;
  call_session : Session
}.

Definition perform (C : Collaborators) (c : Call) (w : World)
  : World * FnCall :=
  onAppend C (call_path c) (call_flags c) (call_date c) (call_raw c)
           (call_session c) (set_clock (at_time c) w).

Fixpoint run (C : Collaborators) (calls : list Call) (w : World)
  : World * list FnCall :=
  match calls with
  | [] => (w, [])
  | c :: rest =>
      let r := perform C c w in
      let r' := run C rest (fst r) in
      (fst r', snd r :: snd r')
  end.

(** ** Vocabulary of the statements *)

(** The mailboxes after the counter update of [allocate] on mailbox [id]. *)
Definition bump (id : ObjectId) (l : list Mailbox.t) : list Mailbox.t :=
  update_first (has_id id) (apply_inc {| inc_uidNext := 1; inc_modifyIndex := 1 |}) l.

(** The mailbox document with a given id. *)
Definition mailbox_by_id (id : ObjectId) (w : World) : option Mailbox.t :=
  find (has_id id) (mailboxes w).

(** Messages listed in the order they were stored: within a mailbox, a later
    one has a larger UID and a larger mod-sequence. *)
Fixpoint increasing (l : list Message.t) : Prop :=
  match l with
  | [] => True
  | m :: rest =>
      Forall (fun m' => Message.mailbox m' = Message.mailbox m ->
                        Message.uid m < Message.uid m' /\
                        Message.modseq m < Message.modseq m') rest /\
      increasing rest
  end.

(** Number of messages of a list that belong to mailbox [id]. *)
Definition stored_in (id : ObjectId) (l : list Message.t) : Z :=
  Z.of_nat (List.length
              (filter (fun m => String.eqb (Message.mailbox m) id) l)).

(** What a run wrote to the mailboxes, the messages and the journal, read
    off the world before ([w]), the world after ([w']) and the callback:
    nothing; a counter update whose identifiers were then not used; or a
    counter update and the message stored with the identifiers it returned. *)
Variant Writes (C : Collaborators) (flags : list string) (w w' : World)
    (call : FnCall) : Prop :=
| NoWrite :
    mailboxes w' = mailboxes w -> messages w' = messages w ->
    journal w' = journal w -> Writes C flags w w' call
| Burned (id : ObjectId) (e : Err) :
    mailboxes w' = bump id (mailboxes w) -> messages w' = messages w ->
    journal w' = journal w -> call = FnError e -> Writes C flags w w' call
| Stored (s : Session) (found allocated : Mailbox.t) (p : Prepared.t)
    (tree : MimeTree.t) (md : Maildata.t) (fp : string) (now : Date)
    (th : Thread.t) :
    mailbox_by_id (Mailbox._id found) w = Some allocated ->
    mailboxes w' = bump (Mailbox._id found) (mailboxes w) ->
    messages w' =
      messages w ++ [message_data C s flags found allocated p tree md fp now th] ->
    (forall b r, call = FnOk b r ->
       b = true /\
       Response.uid r = Mailbox.uidNext allocated /\
       Response.mailbox r = Mailbox._id found /\
       Response.status r = "new" /\
       journal w' =
         journal w ++
         [{| Journal.ignore := selected_is s (Mailbox._id found);
             Journal.command := "EXISTS";
             Journal.uid := Mailbox.uidNext allocated;
             Journal.mailbox := Mailbox._id found;
             Journal.message := Prepared.id p |}]) ->
    Writes C flags w w' call.

(** The storage proper: everything but the clock, the alias bookkeeping and
    the trace. *)
Definition same_store (w w' : World) : Prop :=
  mailboxes w' = mailboxes w /\ messages w' = messages w /\
  journal w' = journal w /\ blobs w' = blobs w /\ threads w' = threads w.

Definition is_alert (e : Event) : bool :=
  match e with EmailAlert _ => true | _ => false end.

Definition is_encrypt (e : Event) : bool :=
  match e with EncryptMessage _ _ => true | _ => false end.

(** Alert emails handed to the mailer, and calls of [encryptMessage]. *)
Definition alerts (t : list Event) : nat := List.length (filter is_alert t).
Definition encryptions (t : list Event) : nat :=
  List.length (filter is_encrypt t).

(** Every document of owner [u] carries the alert timestamp [t]. *)
Definition stamped (u : User) (t : Date) (l : list Alias.t) : Prop :=
  Forall (fun x => alias_of u x = true ->
                   Alias.pgp_error_sent_at x = Some t) l.

(** No two alias documents share an [_id] (the primary key). *)
Fixpoint unique_ids (l : list Alias.t) : bool :=
  match l with
  | [] => true
  | a :: rest =>
      negb (existsb (fun b => String.eqb (Alias._id b) (Alias._id a)) rest) &&
      unique_ids rest
  end.

(** ** A concrete instance

    One owner with an INBOX and a Drafts mailbox, and collaborators simple
    enough to evaluate: used to run the handler on concrete inputs. *)

Module Sample.

Definition owner : User :=
  {| alias_id := "a1"; domain_id := "d1"; locale := "en";
     alias_has_pgp := false; alias_public_key := None;
     owner_full_email := "owner@example.com"; username := "owner" |}.

(** The same owner with a public key on file. *)
Definition owner_with_key (k : string) : User :=
  {| alias_id := "a1"; domain_id := "d1"; locale := "en";
     alias_has_pgp := true; alias_public_key := Some k;
     owner_full_email := "owner@example.com"; username := "owner" |}.

Definition session_of (u : User) (dedup : bool) : Session :=
  {| session_id := "s1"; user := u; remoteAddress := "192.0.2.1";
     checkForExisting := dedup; selected := Some (Some "m1") |}.

Definition session : Session := session_of owner false.

Definition inbox : Mailbox.t :=
  {| Mailbox._id := "m1"; Mailbox.path := "INBOX";
     Mailbox.specialUse := Some "\Inbox"; Mailbox.retention := Some 0;
     Mailbox.uidValidity := 1; Mailbox.uidNext := 7;
     Mailbox.modifyIndex := 20 |}.

Definition drafts : Mailbox.t :=
  {| Mailbox._id := "m2"; Mailbox.path := "Drafts";
     Mailbox.specialUse := Some "\Drafts"; Mailbox.retention := None;
     Mailbox.uidValidity := 1; Mailbox.uidNext := 3;
     Mailbox.modifyIndex := 5 |}.

Definition alias : Alias.t :=
  {| Alias._id := "a1"; Alias.domain := "d1";
     Alias.pgp_error_sent_at := None |}.

Definition world : World :=
  {| clock := 1000; aliases := [alias]; mailboxes := [inbox; drafts];
     messages := []; threads := []; blobs := []; journal := [];
     trace := [] |}.

Definition tree (raw : Raw) : MimeTree.t :=
  {| MimeTree.body := if isBuffer raw then "binary" else "text";
     MimeTree.attachmentMap := None;
     MimeTree.rest := "" |}.

(** The parser reports the length of what it was given as the size. *)
Definition prepare (flags : list string) (date : Date) (raw : Raw)
  : Err + Prepared.t :=
  inr {| Prepared.id := "x1"; Prepared.mimeTree := tree raw;
         Prepared.size := raw_length raw; Prepared.bodystructure := "";
         Prepared.envelope := ""; Prepared.idate := date;
         Prepared.hdate := date; Prepared.msgid := "<1@example.com>";
         Prepared.subject := "hello"; Prepared.headers := "h" |}.

(** A Buffer carries one attachment, stored as blob ["b1"]. *)
Definition store (blobs : list (string * Z)) (s : Session)
    (md : Maildata.t) (t : MimeTree.t)
  : (list (string * Z) * MimeTree.t) * (Err + bool) :=
  if String.eqb (MimeTree.body t) "binary" then
    ((blobs ++ [("b1", 1)],
      {| MimeTree.body := MimeTree.body t;
         MimeTree.attachmentMap := Some [("att1", "b1")];
         MimeTree.rest := MimeTree.rest t |}), inr true)
  else
    ((blobs,
      {| MimeTree.body := MimeTree.body t;
         MimeTree.attachmentMap := Some [];
         MimeTree.rest := MimeTree.rest t |}), inr true).

Definition delete (blobs : list (string * Z)) (s : Session)
    (ids : list string) (magic : Z) : list (string * Z) * option Err :=
  (filter (fun b => negb (includes (fst b) ids)) blobs, None).

(** The domain allows 10 GiB per alias. *)
Definition quota : Z := 10737418240.

(** Encryption fails for the key ["broken"] and has a defect for ["bug"]. *)
Definition encrypt (k : string) (raw : Raw) : Err + Raw :=
  if String.eqb k "broken" then inl (mkErr "Error" "invalid key" None)
  else if String.eqb k "bug" then inl (mkErr "TypeError" "defect" None)
  else inr raw.

(** The store rejects a message flagged ["\Invalid"]. *)
Definition validate (m : Message.t) : option Err :=
  if includes "\Invalid" (Message.flags m)
  then Some (mkErr "ValidationError" "flags" None) else None.

(** The collaborators of a storing instance whose owner is accounted
    [storageUsed] bytes. *)
Definition instance (storageUsed : Z) : Collaborators :=
  {| wsp := None;
     i18n_translate := fun k _ _ => k;
     config_email_from := "support@example.com";
     refreshSession := fun _ s _ => inr s;
     Aliases_isOverQuota := fun _ _ extra =>
       inr (storageUsed, quota <? storageUsed + extra);
     encryptMessage := encrypt;
     isCodeBug := fun e => String.eqb (err_name e) "TypeError";
     isRetryableError := fun e => String.eqb (err_name e) "TimeoutError";
     subtract_day := fun t => t - 24 * ONE_HOUR;
     email := fun _ => None;
     prepareMessage := prepare;
     getFingerprint := fun _ h b => (h ++ b)%string;
     Domains_getMaxQuota := fun _ => inr quota;
     getMaildata := fun t =>
       {| Maildata.text := ""; Maildata.magic := 42;
          Maildata.attachments :=
            if String.eqb (MimeTree.body t) "binary" then ["att1"] else [] |};
     storeNodeBodies := store;
     splitLines := fun s => [s];
     trim := fun s => s;
     convert := fun s => s;
     Threads_getThreadId := fun ths _ subject _ =>
       inr ({| Thread._id := "t1"; Thread.key := subject |}, ths);
     Messages_validate := validate;
     updateStorageUsed := fun _ _ => None;
     wss_broadcast := fun _ _ _ => None;
     notifier_addEntries_failure := fun _ _ => None;
     sendApn := fun _ _ => None;
     attachmentStorage_deleteMany := delete;
     refineAndLogError := fun e _ => e |}.

Definition collaborators : Collaborators := instance 0.

(** A front-end instance: the same collaborators behind a websocket whose
    other end answers with a fixed response. *)
Definition answer : Response.t :=
  {| Response.uidValidity := 1; Response.uid := 7; Response.id := "x1";
     Response.mailbox := "m1"; Response.mailboxPath := "INBOX";
     Response.size := 3; Response.status := "new" |}.

Definition frontend : Collaborators :=
  {| wsp := Some (fun w _ => (w, inr (true, answer)));
     i18n_translate := i18n_translate collaborators;
     config_email_from := config_email_from collaborators;
     refreshSession := refreshSession collaborators;
     Aliases_isOverQuota := Aliases_isOverQuota collaborators;
     encryptMessage := encryptMessage collaborators;
     isCodeBug := isCodeBug collaborators;
     isRetryableError := isRetryableError collaborators;
     subtract_day := subtract_day collaborators;
     email := email collaborators;
     prepareMessage := prepareMessage collaborators;
     getFingerprint := getFingerprint collaborators;
     Domains_getMaxQuota := Domains_getMaxQuota collaborators;
     getMaildata := getMaildata collaborators;
     storeNodeBodies := storeNodeBodies collaborators;
     splitLines := splitLines collaborators;
     trim := trim collaborators;
     convert := convert collaborators;
     Threads_getThreadId := Threads_getThreadId collaborators;
     Messages_validate := Messages_validate collaborators;
     updateStorageUsed := updateStorageUsed collaborators;
     wss_broadcast := wss_broadcast collaborators;
     notifier_addEntries_failure := notifier_addEntries_failure collaborators;
     sendApn := sendApn collaborators;
     attachmentStorage_deleteMany := attachmentStorage_deleteMany collaborators;
     refineAndLogError := refineAndLogError collaborators |}.

(** Three code units of text, and a Buffer of three bytes. *)
Definition note : Raw := RawString [104%N; 105%N; 33%N].
Definition photo : Raw := RawBuffer [x01; x02; x03].

(** A Buffer one byte longer than 64 MiB. *)
Definition oversized : Raw := RawBuffer (repeat x00 (N.to_nat 67108865)).

(** The storage after the note was delivered to the INBOX once. *)
Definition delivered : World :=
  fst (onAppend collaborators "INBOX" [] 5 note (session_of owner true) world).

(** Appends in a row: two notes to the INBOX around a photo to Drafts and
    a message the store rejects. *)
Definition call (t : Date) (path : string) (flags : list string) (raw : Raw)
    (s : Session) : Call :=
  {| at_time := t; call_path := path; call_flags := flags; call_date := 5;
     call_raw := raw; call_session := s |}.

Definition calls : list Call :=
  [call 1000 "INBOX" [] note session;
   call 2000 "Drafts" [] photo session;
   call 3000 "INBOX" ["\Invalid"] photo session;
   call 4000 "INBOX" ["\Seen"] note session].

(** An owner whose key is broken, replaced two hours later, and broken
    again an hour after that. *)
Definition flapping : list Call :=
  [call 0 "INBOX" [] note (session_of (owner_with_key "broken") false);
   call (2 * ONE_HOUR) "INBOX" [] note
        (session_of (owner_with_key "good") false);
   call (3 * ONE_HOUR) "INBOX" [] note
        (session_of (owner_with_key "broken") false)].

(** Two appends an hour apart by an owner whose key is broken. *)
Definition first_failure : Call :=
  call 1000 "INBOX" [] note (session_of (owner_with_key "broken") false).
Definition second_failure : Call :=
  call (1000 + ONE_HOUR) "INBOX" [] photo
       (session_of (owner_with_key "broken") false).

End Sample.

(** ** Proof tactics *)

(** Unfolds the operations of [M]. *)
Ltac run_m :=
  unfold bind, await, read, write, assign, attempt, ret, throw, gate; simpl.

Ltac break_match :=
  match goal with
  | |- context [match ?x with _ => _ end] => destruct x eqn:?
  | |- context [if ?x then _ else _] => destruct x eqn:?
  end.

(** Case analysis on the innermost collaborator result a goal branches on. *)
Ltac break_inner :=
  match goal with
  | |- context [match ?x with _ => _ end] =>
      lazymatch x with
      | context [match _ with _ => _ end] => fail
      | _ => destruct x eqn:?
      end
  end.

(** ** Further vocabulary *)

Definition is_fire (e : Event) : bool :=
  match e with NotifierFire _ => true | _ => false end.

(** Calls of [this.server.notifier.fire]. *)
Definition fires (t : list Event) : nat := List.length (filter is_fire t).

(** What a run leaves in the journal, with the callback it made. *)
Definition journal_outcome (s : Session) (w w' : World) (call : FnCall)
  : Prop :=
  (journal w' = journal w /\ fires (trace w') = fires (trace w)) \/
  (exists r m,
     call = FnOk true r /\
     messages w' = messages w ++ [m] /\
     Message.uid m = Response.uid r /\
     Message._id m = Response.id r /\
     Message.mailbox m = Response.mailbox r /\
     journal w' =
       journal w ++
       [{| Journal.ignore := selected_is s (Response.mailbox r);
           Journal.command := "EXISTS";
           Journal.uid := Response.uid r;
           Journal.mailbox := Response.mailbox r;
           Journal.message := Response.id r |}] /\
     fires (trace w') = S (fires (trace w))).

(** The append gets as far as the encryption gate: the session refresh,
    the quota pre-check and the mailbox lookup of lines 337-386 passed. *)
Definition reaches_gate (C : Collaborators) (path : string)
    (session : Session) (w : World) : bool :=
  match refreshSession C w session "APPEND" with
  | inr s =>
      match Aliases_isOverQuota C w (user s) 0 with
      | inr (_, false) =>
          match Mailboxes_findOne path (mailboxes w) with
          | Some _ => true
          | None => false
          end
      | _ => false
      end
  | inl _ => false
  end.

(** Whether [v] names the alias of [u]: the [_id] and [domain] the alias
    filters select by. *)
Definition same_alias (u v : User) : bool :=
  String.eqb (alias_id v) (alias_id u) &&
  String.eqb (domain_id v) (domain_id u).

(** The alerts handed to the mailer, in a run, by the appends made for the
    alias of [u] (as the refreshed session of each names it). *)
Fixpoint alerts_for (C : Collaborators) (u : User) (calls : list Call)
    (w : World) : nat :=
  match calls with
  | [] => 0%nat
  | c :: rest =>
      let r := perform C c w in
      (match refreshSession C (set_clock (at_time c) w) (call_session c)
                            "APPEND" with
       | inr s =>
           if same_alias u (user s)
           then alerts (trace (fst r)) - alerts (trace w)
           else 0
       | inl _ => 0
       end + alerts_for C u rest (fst r))%nat
  end.

(** ** Collaborators that fail

    The collaborators of [Sample] where, as asked, the parser, the mailer,
    the storage accounting, the broadcast or the journal rejects, or where
    the instance is a front-end whose other end rejects. *)

Module Variants.

Record Faults := {
  parser : option Err;
  mailer : option Err;
  accounting : option Err;
  broadcast : option Err;
  notifier : option Err;
  upstream : option Err
}.

Definition down : Err := mkErr "Error" "unavailable" None.

Definition refused : Err := mkErr "IMAPError" "refused" (Some "TRYCREATE").

Definition collaborators (f : Faults) : Collaborators :=
  {| wsp :=
       match upstream f with
       | Some e => Some (fun w _ => (w, inl e))
       | None => None
       end;
     i18n_translate := i18n_translate Sample.collaborators;
     config_email_from := config_email_from Sample.collaborators;
     refreshSession := refreshSession Sample.collaborators;
     Aliases_isOverQuota := Aliases_isOverQuota Sample.collaborators;
     encryptMessage := encryptMessage Sample.collaborators;
     isCodeBug := isCodeBug Sample.collaborators;
     isRetryableError := isRetryableError Sample.collaborators;
     subtract_day := subtract_day Sample.collaborators;
     email := fun _ => mailer f;
     prepareMessage := fun flags date raw =>
       match parser f with
       | Some e => inl e
       | None => prepareMessage Sample.collaborators flags date raw
       end;
     getFingerprint := getFingerprint Sample.collaborators;
     Domains_getMaxQuota := Domains_getMaxQuota Sample.collaborators;
     getMaildata := getMaildata Sample.collaborators;
     storeNodeBodies := storeNodeBodies Sample.collaborators;
     splitLines := splitLines Sample.collaborators;
     trim := trim Sample.collaborators;
     convert := convert Sample.collaborators;
     Threads_getThreadId := Threads_getThreadId Sample.collaborators;
     Messages_validate := Messages_validate Sample.collaborators;
     updateStorageUsed := fun _ _ => accounting f;
     wss_broadcast := fun _ _ _ => broadcast f;
     notifier_addEntries_failure := fun _ _ => notifier f;
     sendApn := sendApn Sample.collaborators;
     attachmentStorage_deleteMany :=
       attachmentStorage_deleteMany Sample.collaborators;
     refineAndLogError := refineAndLogError Sample.collaborators |}.

Definition no_parser : Collaborators :=
  collaborators {| parser := Some down; mailer := None; accounting := None;
                   broadcast := None; notifier := None; upstream := None |}.

Definition no_mailer : Collaborators :=
  collaborators {| parser := None; mailer := Some down; accounting := None;
                   broadcast := None; notifier := None; upstream := None |}.

Definition no_accounting : Collaborators :=
  collaborators {| parser := None; mailer := None; accounting := Some down;
                   broadcast := None; notifier := None; upstream := None |}.

Definition no_broadcast : Collaborators :=
  collaborators {| parser := None; mailer := None; accounting := None;
                   broadcast := Some down; notifier := None;
                   upstream := None |}.

Definition no_upstream : Collaborators :=
  collaborators {| parser := None; mailer := None; accounting := None;
                   broadcast := None; notifier := None;
                   upstream := Some refused |}.

(** Appends within one day, in a row: a failure to encrypt for the owner,
    a success for the same alias half an hour later, an append with PGP
    off, and two more failures. *)
Definition burst : list Call :=
  [Sample.call 1000 "INBOX" [] Sample.note
     (Sample.session_of (Sample.owner_with_key "broken") false);
   Sample.call (1000 + 1800000) "INBOX" [] Sample.note
     (Sample.session_of (Sample.owner_with_key "good") false);
   Sample.call (1000 + ONE_HOUR) "INBOX" [] Sample.note Sample.session;
   Sample.call (1000 + 2 * ONE_HOUR) "INBOX" [] Sample.photo
     (Sample.session_of (Sample.owner_with_key "broken") false);
   Sample.call (1000 + 23 * ONE_HOUR) "Drafts" [] Sample.note
     (Sample.session_of (Sample.owner_with_key "broken") false)].

(** Collaborators whose [storeNodeBodies] stores the first attachment of a
    Buffer as blob ["b1"], records it in the tree, and rejects. *)
Definition half_stored : Collaborators :=
  {| wsp := None;
     i18n_translate := i18n_translate Sample.collaborators;
     config_email_from := config_email_from Sample.collaborators;
     refreshSession := refreshSession Sample.collaborators;
     Aliases_isOverQuota := Aliases_isOverQuota Sample.collaborators;
     encryptMessage := encryptMessage Sample.collaborators;
     isCodeBug := isCodeBug Sample.collaborators;
     isRetryableError := isRetryableError Sample.collaborators;
     subtract_day := subtract_day Sample.collaborators;
     email := email Sample.collaborators;
     prepareMessage := prepareMessage Sample.collaborators;
     getFingerprint := getFingerprint Sample.collaborators;
     Domains_getMaxQuota := Domains_getMaxQuota Sample.collaborators;
     getMaildata := getMaildata Sample.collaborators;
     storeNodeBodies := fun blobs s md t =>
       (fst (Sample.store blobs s md t),
        if String.eqb (MimeTree.body t) "binary" then inl down
        else snd (Sample.store blobs s md t));
     splitLines := splitLines Sample.collaborators;
     trim := trim Sample.collaborators;
     convert := convert Sample.collaborators;
     Threads_getThreadId := Threads_getThreadId Sample.collaborators;
     Messages_validate := Messages_validate Sample.collaborators;
     updateStorageUsed := updateStorageUsed Sample.collaborators;
     wss_broadcast := wss_broadcast Sample.collaborators;
     notifier_addEntries_failure :=
       notifier_addEntries_failure Sample.collaborators;
     sendApn := sendApn Sample.collaborators;
     attachmentStorage_deleteMany :=
       attachmentStorage_deleteMany Sample.collaborators;
     refineAndLogError := refineAndLogError Sample.collaborators |}.

(** The collaborators of [Sample] on a day on which the clocks are put
    forward: the same time on the previous calendar day is 23 hours back. *)
Definition short_day : Collaborators :=
  {| wsp := None;
     i18n_translate := i18n_translate Sample.collaborators;
     config_email_from := config_email_from Sample.collaborators;
     refreshSession := refreshSession Sample.collaborators;
     Aliases_isOverQuota := Aliases_isOverQuota Sample.collaborators;
     encryptMessage := encryptMessage Sample.collaborators;
     isCodeBug := isCodeBug Sample.collaborators;
     isRetryableError := isRetryableError Sample.collaborators;
     subtract_day := fun t => t - 23 * ONE_HOUR;
     email := email Sample.collaborators;
     prepareMessage := prepareMessage Sample.collaborators;
     getFingerprint := getFingerprint Sample.collaborators;
     Domains_getMaxQuota := Domains_getMaxQuota Sample.collaborators;
     getMaildata := getMaildata Sample.collaborators;
     storeNodeBodies := storeNodeBodies Sample.collaborators;
     splitLines := splitLines Sample.collaborators;
     trim := trim Sample.collaborators;
     convert := convert Sample.collaborators;
     Threads_getThreadId := Threads_getThreadId Sample.collaborators;
     Messages_validate := Messages_validate Sample.collaborators;
     updateStorageUsed := updateStorageUsed Sample.collaborators;
     wss_broadcast := wss_broadcast Sample.collaborators;
     notifier_addEntries_failure :=
       notifier_addEntries_failure Sample.collaborators;
     sendApn := sendApn Sample.collaborators;
     attachmentStorage_deleteMany :=
       attachmentStorage_deleteMany Sample.collaborators;
     refineAndLogError := refineAndLogError Sample.collaborators |}.

(** Two appends 23 and a half hours apart by an owner whose key is
    broken. *)
Definition overnight : list Call :=
  [Sample.call 1000 "INBOX" [] Sample.note
     (Sample.session_of (Sample.owner_with_key "broken") false);
   Sample.call (1000 + 23 * ONE_HOUR + 1800000) "INBOX" [] Sample.note
     (Sample.session_of (Sample.owner_with_key "broken") false)].

(** The storage of [Sample] three hours after an alert was sent at time 0. *)
Definition alerted : World :=
  {| clock := 3 * ONE_HOUR;
     aliases := [{| Alias._id := "a1"; Alias.domain := "d1";
                    Alias.pgp_error_sent_at := Some 0 |}];
     mailboxes := mailboxes Sample.world;
     messages := []; threads := []; blobs := []; journal := [];
     trace := [] |}.

End Variants.

(** * The backup cleanup job

    A shallow embedding of the job of [src/config/store-sessions.js],
    lines 86-240: it walks the directories below the mount point, removes
    SQLite backups that are at least four hours old, reports what it removed
    and asks the store to recompute the size of every alias it saw a
    database of.

    Conventions.  [path.join], [path.extname] and [path.basename] are
    collaborators, as are the file system calls, [Aliases.distinct] and the
    mail helper; a file system call answers by path.  [mtimeMs] is a
    rational number of milliseconds.  The job runs at one reading of
    [Date.now()].  The log records, in order, the calls of
    [fs.promises.unlink], the mails, [logger.error], the size requests and
    the final [postMessage] or [process.exit], as the function reaches them.
    The two reports are promise chains that are not awaited: the log holds
    where they are started, and [observed] gives the orders in which the
    process can show the function's events together with the
    [logger.error] of a report that was rejected, which runs later. *)

Module Job.

(** [fs.Dirent] and [fs.Stats], as far as the job reads them. *)
Record Dirent := {
  name : string;
  isDirectory : bool;
  isFile : bool
}.

Record Stats := {
  stat_isFile : bool;
  mtimeMs : QArith_base.Q
}.

(** The three mails of the job, by subject: stale backups removed
    (line 146), banned or removed aliases detected (line 178), and the job
    had an error (line 226). *)
Inductive Mail :=
| Removed (filePaths : list string)
| BadIds (badIds : list string)
| Failed (err : Err).

Inductive Event :=
| Unlink (filePath : string)
| Email (mail : Mail)
| LogError (err : Err)
| SizeRequest (alias_id : string) (timeout : Z)
| PostDone
| Exit (code : Z).

(** How the [async] function ends: it reaches its last statement, it
    returns early (line 94), or its promise rejects. *)
Inductive Outcome :=
| Finished
| Returned
| Rejected (err : Err).

Record Env := {
  mountDir : string;
  path_join : list string -> string;
  path_extname : string -> string;
  path_basename : string -> string -> string;
  setupMongoose : option Err;
  isCancelled : bool;
  readdir : string -> Err + list Dirent;
  stat : string -> Err + Stats;
  unlink : string -> option Err;
  (** [Date.now()] *)
  now : Z;
  (** [Aliases.distinct('id', ...)] for the ids given in [$in] *)
  Aliases_distinct : list string -> Err + list string;
  emailHelper : Mail -> option Err;
  (** whether [parentPort] is set *)
  parentPort : bool
}.

(** Line 86. *)
Definition AFFIXES : list string := ["-backup"; "-backup-wal"; "-backup-shm"].

(** [ms('4h')] and [ms('5s')] *)
Definition FOUR_HOURS : Z := 14400000.
Definition FIVE_SECONDS : Z := 5000.

(** [String.prototype.endsWith]: the last [length suffix] units of [s] are
    [suffix]. *)
Definition endsWith (s suffix : string) : bool :=
  let n := String.length s in
  let m := String.length suffix in
  (m <=? n)%nat && String.eqb (substring (n - m) m s) suffix.

(** [String.prototype.replace] with a string pattern: the first occurrence
    is replaced. *)
Fixpoint replace (pattern replacement s : string) : string :=
  if prefix pattern s then
    (replacement ++
     substring (String.length pattern)
               (String.length s - String.length pattern) s)%string
  else
    match s with
    | EmptyString => EmptyString
    | String c rest => String c (replace pattern replacement rest)
    end.

(** [Set.prototype.add] and [Set.prototype.delete] on a set listed in
    insertion order, as [[...ids]] lists it. *)
Definition set_add (x : string) (s : list string) : list string :=
  if existsb (String.eqb x) s then s else s ++ [x].

Definition set_delete (x : string) (s : list string) : list string :=
  filter (fun y => negb (String.eqb y x)) s.

(** The variables of the scan (lines 100-101) and the log. *)
Record Scan := {
  ids : list string;
  filePaths : list string;
  log : list Event
}.

Definition scan0 : Scan := {| ids := []; filePaths := []; log := [] |}.

Definition add_id (id : string) (st : Scan) : Scan :=
  {| ids := set_add id (ids st); filePaths := filePaths st; log := log st |}.

Definition record (e : Event) (st : Scan) : Scan :=
  {| ids := ids st; filePaths := filePaths st; log := log st ++ [e] |}.

Definition push (filePath : string) (st : Scan) : Scan :=
  {| ids := ids st; filePaths := filePaths st ++ [filePath]; log := log st |}.

(** [stat.mtimeMs && stat.mtimeMs <= Date.now() - ms('4h')] (line 129) *)
Definition stale (E : Env) (s : Stats) : bool :=
  negb (QArith_base.Qeq_bool (mtimeMs s) (QArith_base.inject_Z 0)) &&
  QArith_base.Qle_bool (mtimeMs s) (QArith_base.inject_Z (now E - FOUR_HOURS)).

(** Lines 118-136, from the affix the loop is at: the scan afterwards, and
    the error when a file system call rejected. *)
Fixpoint affixes_loop (E : Env) (dir file basename : string)
    (affixes : list string) (st : Scan) : Scan * option Err :=
  match affixes with
  | [] => (st, None)
  | affix :: rest =>
      if negb (endsWith basename affix) then
        affixes_loop E dir file basename rest
                     (add_id (replace "-tmp" "" basename) st)
      else
        let filePath := path_join E [mountDir E; dir; file] in
        match stat E filePath with
        | inl err => (st, Some err)
        | inr s =>
            if negb (stat_isFile s) then
              affixes_loop E dir file basename rest st
            else if stale E s then
              match unlink E filePath with
              | Some err => (record (Unlink filePath) st, Some err)
              | None => (push filePath (record (Unlink filePath) st), None)
              end
            else (st, None)
        end
  end.

(** Lines 113-136: one entry of a directory. *)
Definition file_step (E : Env) (dir : string) (file : Dirent) (st : Scan)
  : Scan * option Err :=
  if negb (isFile file) then (st, None)
  else if negb (String.eqb (path_extname E (name file)) ".sqlite") then
    (st, None)
  else
    affixes_loop E dir (name file)
                 (path_basename E (name file) (path_extname E (name file)))
                 AFFIXES st.

Fixpoint files_loop (E : Env) (dir : string) (files : list Dirent)
    (st : Scan) : Scan * option Err :=
  match files with
  | [] => (st, None)
  | file :: rest =>
      match file_step E dir file st with
      | (st', Some err) => (st', Some err)
      | (st', None) => files_loop E dir rest st'
      end
  end.

(** Lines 104-137: one entry of the mount point. *)
Definition dirent_step (E : Env) (dirent : Dirent) (st : Scan)
  : Scan * option Err :=
  if negb (isDirectory dirent) then (st, None)
  else
    match readdir E (path_join E [mountDir E; name dirent]) with
    | inl err => (st, Some err)
    | inr files => files_loop E (name dirent) files st
    end.

Fixpoint dirents_loop (E : Env) (dirents : list Dirent) (st : Scan)
  : Scan * option Err :=
  match dirents with
  | [] => (st, None)
  | dirent :: rest =>
      match dirent_step E dirent st with
      | (st', Some err) => (st', Some err)
      | (st', None) => dirents_loop E rest st'
      end
  end.

(** Lines 96-138. *)
Definition scan (E : Env) : Scan * option Err :=
  match readdir E (mountDir E) with
  | inl err => (scan0, Some err)
  | inr dirents => dirents_loop E dirents scan0
  end.

(** A report that is not awaited: [emailHelper(...).then().catch((err) =>
    logger.error(err))].  The function starts the mail and goes on; the
    handler of a rejection is left to the event loop ([rejection] below). *)
Definition report (E : Env) (mail : Mail) : list Event := [Email mail].

(** Lines 191-193: [for (const badId of badIds) ids.delete(badId)]. *)
Definition delete_all (badIds ids : list string) : list string :=
  fold_left (fun s badId => set_delete badId s) badIds ids.

(** Lines 196-217: the requests are sent in the order of the set; what they
    answer, or that they fail, changes nothing. *)
Definition size_requests (ids : list string) : list Event :=
  List.map (fun id => SizeRequest id FIVE_SECONDS) ids.

(** Lines 140-218, after the scan. *)
Definition after_scan (E : Env) (st : Scan) : list Event * option Err :=
  let log1 :=
    log st ++
    match filePaths st with
    | [] => []
    | _ :: _ => report E (Removed (filePaths st))
    end in
  match ids st with
  | [] => (log1, None)
  | _ :: _ =>
      match Aliases_distinct E (ids st) with
      | inl err => (log1, Some err)
      | inr badIds =>
          let log2 :=
            log1 ++
            match badIds with
            | [] => []
            | _ :: _ => report E (BadIds badIds)
            end in
          (log2 ++ size_requests (delete_all badIds (ids st)), None)
      end
  end.

(** The [try] block without its first statement (lines 96-218). *)
Definition try_block (E : Env) : list Event * option Err :=
  match scan E with
  | (st, Some err) => (log st, Some err)
  | (st, None) => after_scan E st
  end.

(** Lines 238-239. *)
Definition done (E : Env) : Event :=
  if parentPort E then PostDone else Exit 0.

(** The job (lines 90-240). *)
Definition job (E : Env) : list Event * Outcome :=
  match setupMongoose E with
  | Some err => ([], Rejected err)
  | None =>
      if isCancelled E then ([], Returned)
      else
        match try_block E with
        | (l, None) => (l ++ [done E], Finished)
        | (l, Some err) =>
            let l' := l ++ [LogError err; Email (Failed err)] in
            match emailHelper E (Failed err) with
            | Some err' => (l', Rejected err')
            | None => (l' ++ [done E], Finished)
            end
        end
  end.

(** ** What the process shows

    The handlers of the reports that are not awaited run when the event loop
    gets to them: after the mail was started, at a point where the function
    awaits, or after the function has ended - and not at all once
    [process.exit] was called. *)

(** The error a report that is not awaited leaves for its [catch] handler
    (lines 140-155 and 173-188). *)
Definition rejection (E : Env) (e : Event) : list Err :=
  match e with
  | Email (Removed filePaths) =>
      match emailHelper E (Removed filePaths) with
      | Some err => [err]
      | None => []
      end
  | Email (BadIds badIds) =>
      match emailHelper E (BadIds badIds) with
      | Some err => [err]
      | None => []
      end
  | _ => []
  end.

(** Whether the function awaits between two events that follow each other
    in its log.  It does not after the report of the removed backups when
    no id was collected (line 159 skips to line 238), nor between the
    report of the bad ids and the size requests, nor between the size
    requests, which [map] sends one after the other before
    [Promise.all] is awaited (lines 190-217). *)
Definition yields (prev : option Event) (next : Event) : bool :=
  match prev, next with
  | Some (Email (Removed _)), (PostDone | Exit _) => false
  | Some (Email (BadIds _)), SizeRequest _ _ => false
  | Some (SizeRequest _ _), SizeRequest _ _ => false
  | _, _ => true
  end.

(** Whether a handler can run now: before the next event if the function
    awaits there, and after the last one unless that was [process.exit]. *)
Definition can_run (prev : option Event) (rest : list Event) : bool :=
  match rest with
  | next :: _ => yields prev next
  | [] => match prev with Some (Exit _) => false | _ => true end
  end.

(** [observed E pending prev rest t]: with the rejections [pending] left to
    their handlers, [prev] the function's last event and [rest] the events
    it has yet to reach, the process can show [t].  A handler that has not
    run when the process ends never runs. *)
Inductive observed (E : Env)
  : list Err -> option Event -> list Event -> list Event -> Prop :=
| observed_end pending prev :
    observed E pending prev [] []
| observed_late pending1 err pending2 prev rest t :
    can_run prev rest = true ->
    observed E (pending1 ++ pending2) prev rest t ->
    observed E (pending1 ++ err :: pending2) prev rest (LogError err :: t)
| observed_step pending prev e rest t :
    observed E (pending ++ rejection E e) (Some e) rest t ->
    observed E pending prev (e :: rest) (e :: t).

(** What the process can show of a run of the job. *)
Definition shows (E : Env) (t : list Event) : Prop :=
  observed E [] None (fst (job E)) t.

(** ** Vocabulary of the statements *)

(** The paths handed to [fs.promises.unlink], in order. *)
Fixpoint unlinked (l : list Event) : list string :=
  match l with
  | [] => []
  | Unlink p :: rest => p :: unlinked rest
  | _ :: rest => unlinked rest
  end.

(** The aliases a size request was sent for, in order. *)
Fixpoint sized (l : list Event) : list string :=
  match l with
  | [] => []
  | SizeRequest id _ :: rest => id :: sized rest
  | _ :: rest => sized rest
  end.

(** The lists of paths reported as removed, and the errors reported. *)
Fixpoint removed_reports (l : list Event) : list (list string) :=
  match l with
  | [] => []
  | Email (Removed ps) :: rest => ps :: removed_reports rest
  | _ :: rest => removed_reports rest
  end.

Fixpoint failures (l : list Event) : list Err :=
  match l with
  | [] => []
  | Email (Failed e) :: rest => e :: failures rest
  | _ :: rest => failures rest
  end.

Definition is_done (e : Event) : bool :=
  match e with PostDone | Exit _ => true | _ => false end.

(** What makes a path one the job may remove: it names an entry of a
    directory of the mount point that is a file with the extension
    [.sqlite] whose base name ends with one of the affixes, and [stat]
    found a file there last modified at least four hours ago. *)
Definition removable (E : Env) (filePath : string) : Prop :=
  exists dirents dirent files file affix s,
    readdir E (mountDir E) = inr dirents /\
    In dirent dirents /\ isDirectory dirent = true /\
    readdir E (path_join E [mountDir E; name dirent]) = inr files /\
    In file files /\ isFile file = true /\
    path_extname E (name file) = ".sqlite" /\
    In affix AFFIXES /\
    endsWith (path_basename E (name file) (path_extname E (name file)))
             affix = true /\
    filePath = path_join E [mountDir E; name dirent; name file] /\
    stat E filePath = inr s /\
    stat_isFile s = true /\
    ~ QArith_base.Qeq (mtimeMs s) (QArith_base.inject_Z 0) /\
    QArith_base.Qle (mtimeMs s) (QArith_base.inject_Z (now E - FOUR_HOURS)).

(** Where an id of the set comes from: the base name, without its first
    [-tmp], of a [.sqlite] file of a directory of the mount point - a base
    name that does not end with [-backup], or one that does while [stat]
    finds no file. *)
Definition collected (E : Env) (id : string) : Prop :=
  exists dirents dirent files file,
    readdir E (mountDir E) = inr dirents /\
    In dirent dirents /\ isDirectory dirent = true /\
    readdir E (path_join E [mountDir E; name dirent]) = inr files /\
    In file files /\ isFile file = true /\
    path_extname E (name file) = ".sqlite" /\
    let basename :=
      path_basename E (name file) (path_extname E (name file)) in
    id = replace "-tmp" "" basename /\
    (endsWith basename "-backup" = false \/
     exists s,
       stat E (path_join E [mountDir E; name dirent; name file]) = inr s /\
       stat_isFile s = false).

(** The log of a scan holds calls of [unlink] only. *)
Definition only_unlinks (l : list Event) : Prop :=
  forall e, In e l -> exists p, e = Unlink p.

(** What holds of the variables of the scan at every point of it. *)
Definition scanned (E : Env) (st : Scan) : Prop :=
  Forall (removable E) (unlinked (log st)) /\
  Forall (collected E) (ids st) /\
  only_unlinks (log st) /\
  NoDup (ids st).

(** The entry [file] of directory [dirent] of the mount point, a file with
    the extension [.sqlite]. *)
Definition listed (E : Env) (dirent file : Dirent) : Prop :=
  exists dirents files,
    readdir E (mountDir E) = inr dirents /\
    In dirent dirents /\ isDirectory dirent = true /\
    readdir E (path_join E [mountDir E; name dirent]) = inr files /\
    In file files /\ isFile file = true /\
    path_extname E (name file) = ".sqlite".

(** From one point of the scan to a later one, nothing handed to [unlink]
    and no id is forgotten. *)
Definition grows (st st' : Scan) : Prop :=
  incl (unlinked (log st)) (unlinked (log st')) /\ incl (ids st) (ids st').

(** ** A concrete mount point *)

Module Sample.

Definition join (parts : list string) : string := String.concat "/" parts.

(** Every name of the sample has the extension [.sqlite] or none. *)
Definition extname (p : string) : string :=
  if endsWith p ".sqlite" then ".sqlite" else "".

Definition basename (p ext : string) : string :=
  if endsWith p ext
  then substring 0 (String.length p - String.length ext) p
  else p.

Definition file (n : string) : Dirent :=
  {| name := n; isDirectory := false; isFile := true |}.

Definition folder (n : string) : Dirent :=
  {| name := n; isDirectory := true; isFile := false |}.

(** One storage directory with a live database, a temporary one, a stale
    backup, a fresh backup and a stale backup of a write-ahead log; and a
    file next to it. *)
Definition listing (p : string) : Err + list Dirent :=
  if String.eqb p "/mnt" then inr [folder "storage_1"; file "notes.txt"]
  else if String.eqb p "/mnt/storage_1" then
    inr [file "a1.sqlite"; file "a2-tmp.sqlite"; file "a1-backup.sqlite";
         file "a3-backup.sqlite"; file "a1-backup-wal.sqlite";
         file "readme.md"]
  else inl (mkErr "Error" "ENOENT" None).

Definition stats (p : string) : Err + Stats :=
  if String.eqb p "/mnt/storage_1/a3-backup.sqlite" then
    inr {| stat_isFile := true;
           mtimeMs := QArith_base.inject_Z 99000000 |}
  else
    inr {| stat_isFile := true;
           mtimeMs := QArith_base.Qmake 10000001 2 |}.

(** The job at time 100000000 with the alias [a2] banned. *)
Definition env : Env :=
  {| mountDir := "/mnt";
     path_join := join;
     path_extname := extname;
     path_basename := basename;
     setupMongoose := None;
     isCancelled := false;
     readdir := listing;
     stat := stats;
     unlink := fun _ => None;
     now := 100000000;
     Aliases_distinct := fun ids => inr (filter (String.eqb "a2") ids);
     emailHelper := fun _ => None;
     parentPort := true |}.

(** The same job when [unlink] is refused. *)
Definition readonly : Env :=
  {| mountDir := "/mnt";
     path_join := join;
     path_extname := extname;
     path_basename := basename;
     setupMongoose := None;
     isCancelled := false;
     readdir := listing;
     stat := stats;
     unlink := fun _ => Some (mkErr "Error" "EROFS" None);
     now := 100000000;
     Aliases_distinct := fun ids => inr (filter (String.eqb "a2") ids);
     emailHelper := fun _ => None;
     parentPort := true |}.

(** A mount point with one stale backup and no database, when the mail
    helper rejects. *)
Definition rejecting : Env :=
  {| mountDir := "/mnt";
     path_join := join;
     path_extname := extname;
     path_basename := basename;
     setupMongoose := None;
     isCancelled := false;
     readdir := fun p =>
       if String.eqb p "/mnt" then inr [folder "storage_1"]
       else if String.eqb p "/mnt/storage_1" then
         inr [file "a1-backup.sqlite"]
       else inl (mkErr "Error" "ENOENT" None);
     stat := stats;
     unlink := fun _ => None;
     now := 100000000;
     Aliases_distinct := fun ids => inr [];
     emailHelper := fun _ => Some (mkErr "Error" "SMTP" None);
     parentPort := true |}.

End Sample.

End Job.

(** * Properties *)

(** ** Storage primitives *)

Lemma has_id_eq id m : has_id id m = true -> Mailbox._id m = id.
Proof. unfold has_id. apply String.eqb_eq. Qed.

Lemma find_has_id id l m :
  find (has_id id) l = Some m -> Mailbox._id m = id.
Proof. intros H. apply find_some in H. apply has_id_eq, H. Qed.

Lemma has_id_apply_inc id i m : has_id id (apply_inc i m) = has_id id m.
Proof. reflexivity. Qed.

(** Looking a mailbox up after the counter update of mailbox [i]. *)
Lemma find_bump i j l :
  find (has_id j) (bump i l) =
  match find (has_id j) l with
  | Some m =>
      if String.eqb i j
      then Some (apply_inc {| inc_uidNext := 1; inc_modifyIndex := 1 |} m)
      else Some m
  | None => None
  end.
Proof.
  unfold bump. induction l as [|x l IH]; simpl; [reflexivity|].
  destruct (has_id i x) eqn:Hi; simpl.
  - rewrite has_id_apply_inc. destruct (has_id j x) eqn:Hj.
    + apply has_id_eq in Hi, Hj. subst i j. now rewrite String.eqb_refl.
    + destruct (find (has_id j) l) eqn:F; [|reflexivity].
      destruct (String.eqb i j) eqn:E; [|reflexivity].
      apply String.eqb_eq in E. subst j. congruence.
  - destruct (has_id j x) eqn:Hj; [|exact IH].
    destruct (String.eqb i j) eqn:E; [|reflexivity].
    apply String.eqb_eq in E. subst j. congruence.
Qed.

Lemma findByIdAndUpdate_before id i l :
  Mailboxes_findByIdAndUpdate id i before l =
  match find (has_id id) l with
  | Some doc => (Some doc, update_first (has_id id) (apply_inc i) l)
  | None => (None, l)
  end.
Proof. unfold Mailboxes_findByIdAndUpdate. now destruct (find (has_id id) l). Qed.

(** ** The encryption gate *)

Section Gate.

Variable C : Collaborators.

Lemma pgp_alert_store s e w : same_store w (pgp_alert C s e w).
Proof.
  unfold same_store, pgp_alert.
  repeat break_match; simpl; repeat split; reflexivity.
Qed.

Lemma pgp_alert_clock s e w : clock (pgp_alert C s e w) = clock w.
Proof. unfold pgp_alert. repeat break_match; reflexivity. Qed.

(** The gate leaves the mailboxes, the messages, the journal, the attachment
    store and the threads alone. *)
Lemma gate_store flags s raw w :
  same_store w (fst (encryption_gate C flags s raw w)).
Proof.
  unfold encryption_gate.
  destruct (gate_condition flags s); [|repeat split].
  destruct (encryptMessage C (public_key s) raw); simpl.
  - destruct (pgp_alert_store s e (emit (LogFatal e)
               (emit (EncryptMessage (public_key s) raw) w))) as (?&?&?&?&?).
    repeat split; simpl in *; assumption.
  - repeat split.
Qed.

Lemma gate_clock flags s raw w :
  clock (fst (encryption_gate C flags s raw w)) = clock w.
Proof.
  unfold encryption_gate.
  destruct (gate_condition flags s); [|reflexivity].
  destruct (encryptMessage C (public_key s) raw); simpl; [|reflexivity].
  now rewrite pgp_alert_clock.
Qed.

End Gate.

Section WritesOfARun.

Variable C : Collaborators.

Lemma catch_fields st e w' :
  w' = fst (append_catch C st e) ->
  mailboxes w' = mailboxes (snd st) /\ messages w' = messages (snd st) /\
  journal w' = journal (snd st) /\ threads w' = threads (snd st) /\
  aliases w' = aliases (snd st) /\ clock w' = clock (snd st).
Proof.
  intros ->. unfold append_catch. simpl.
  destruct (attachmentIds (fst st)); [repeat split|].
  destruct (maildata (fst st)); [|repeat split].
  destruct (snd (attachmentStorage_deleteMany C _ _ _ _)); repeat split.
Qed.

Lemma Writes_catch flags w st e :
  Writes C flags w (snd st) (FnError e) ->
  Writes C flags w (fst (append_catch C st e)) (snd (append_catch C st e)).
Proof.
  intros H. destruct (catch_fields st e _ eq_refl) as (Hm & Hg & Hj & _).
  destruct H as [H0 H1 H2 | id e0 H0 H1 H2 _
                 | s found al p tree md fp now th Hf H0 H1 _].
  - apply NoWrite; congruence.
  - apply (Burned _ _ _ _ _ id (refineAndLogError C e (fr_session (fst st))));
      [congruence | congruence | congruence | reflexivity].
  - apply (Stored _ _ _ _ _ s found al p tree md fp now th);
      [assumption | congruence | congruence | discriminate].
Qed.

Lemma update_storage_mailboxes s w :
  mailboxes (update_storage C s w) = mailboxes w.
Proof. unfold update_storage. now destruct (updateStorageUsed C w _). Qed.

Lemma update_storage_messages s w :
  messages (update_storage C s w) = messages w.
Proof. unfold update_storage. now destruct (updateStorageUsed C w _). Qed.

Lemma update_storage_journal s w :
  journal (update_storage C s w) = journal w.
Proof. unfold update_storage. now destruct (updateStorageUsed C w _). Qed.

Local Opaque append_catch.



Lemma append_store_writes flags s found p fp fr w :
  Writes C flags w
    (fst (finish C (append_store C flags s found p fp (fr, w))))
    (snd (finish C (append_store C flags s found p fp (fr, w)))).
Proof.
  unfold append_store, store_node_bodies, allocate, get_thread,
    Messages_create, notifier_addEntries. run_m.
  destruct (snd (storeNodeBodies C (blobs w) s
                   (getMaildata C (Prepared.mimeTree p)) (Prepared.mimeTree p)))
    eqn:Hs; simpl.
  { apply Writes_catch. now apply NoWrite. }
  rewrite findByIdAndUpdate_before.
  destruct (find (has_id (Mailbox._id found)) (mailboxes w)) as [alloc|] eqn:Hf;
    simpl.
  2:{ apply Writes_catch. now apply NoWrite. }
  destruct (Threads_getThreadId C _ _ _ _) as [e|[t ths]] eqn:Ht; simpl.
  { apply Writes_catch. simpl. now eapply Burned. }
  destruct (Messages_validate C _) eqn:Hv; simpl.
  { apply Writes_catch. simpl. now eapply Burned. }
  assert (Hid : Mailbox._id alloc = Mailbox._id found)
    by (eapply find_has_id; eassumption).
  destruct (selected_is s (Mailbox._id alloc)) eqn:Hsel; simpl.
  - destruct (wss_broadcast C s "EXISTS" (Mailbox.uidNext alloc)); simpl.
    { apply Writes_catch. eapply Stored;
      [ exact Hf
      | simpl; rewrite ?update_storage_mailboxes; reflexivity
      | simpl; rewrite ?update_storage_messages; reflexivity
      | ]. discriminate. }
    destruct (notifier_addEntries_failure C _ _); simpl.
    { apply Writes_catch. eapply Stored;
      [ exact Hf
      | simpl; rewrite ?update_storage_mailboxes; reflexivity
      | simpl; rewrite ?update_storage_messages; reflexivity
      | ]. discriminate. }
    eapply Stored;
      [ exact Hf
      | simpl; rewrite ?update_storage_mailboxes; reflexivity
      | simpl; rewrite ?update_storage_messages; reflexivity
      | ].
    intros ok r [= <- <-]. simpl.
    rewrite ?update_storage_journal, Hid. repeat split.
  - destruct (notifier_addEntries_failure C _ _); simpl.
    { apply Writes_catch. eapply Stored;
      [ exact Hf
      | simpl; rewrite ?update_storage_mailboxes; reflexivity
      | simpl; rewrite ?update_storage_messages; reflexivity
      | ]. discriminate. }
    eapply Stored;
      [ exact Hf
      | simpl; rewrite ?update_storage_mailboxes; reflexivity
      | simpl; rewrite ?update_storage_messages; reflexivity
      | ].
    intros ok r [= <- <-]. simpl.
    rewrite ?update_storage_journal, Hid. repeat split.
Qed.

Lemma Writes_same_store flags w w0 w' call :
  same_store w w0 ->
  Writes C flags w0 w' call -> Writes C flags w w' call.
Proof.
  intros (Hm & Hg & Hj & _) H.
  destruct H as [H0 H1 H2 | id e0 H0 H1 H2 H3
                 | s found al p tree md fp now th Hf H0 H1 H2].
  - apply NoWrite; congruence.
  - apply (Burned _ _ _ _ _ id e0); congruence.
  - apply (Stored _ _ _ _ _ s found al p tree md fp now th).
    + unfold mailbox_by_id in *. congruence.
    + congruence.
    + congruence.
    + intros ok r E. destruct (H2 ok r E) as (?&?&?&?&?).
      repeat split; congruence.
Qed.

Local Opaque append_store.

Lemma append_after_gate_writes flags date s su mb raw fr w :
  Writes C flags w
    (fst (finish C (append_after_gate C flags date s su mb raw (fr, w))))
    (snd (finish C (append_after_gate C flags date s su mb raw (fr, w)))).
Proof.
  unfold append_after_gate. run_m.
  destruct (prepareMessage C flags date raw) as [e|p]; simpl.
  { apply Writes_catch. now apply NoWrite. }
  destruct (Domains_getMaxQuota C (domain_id (user s))) as [e|max].
  all: destruct (checkForExisting s); simpl;
    try destruct (Messages_findOne _ _ _); simpl;
    try (now apply NoWrite);
    try (apply Writes_catch; now apply NoWrite).
  all: destruct (su + Prepared.size p >? max); simpl;
    [apply Writes_catch; now apply NoWrite | apply append_store_writes].
Qed.

Local Opaque append_after_gate.

Lemma append_try_writes path flags date raw session w :
  Writes C flags w
    (fst (finish C (append_try C path flags date raw session
                               (frame0 session, w))))
    (snd (finish C (append_try C path flags date raw session
                               (frame0 session, w)))).
Proof.
  unfold append_try. run_m.
  destruct (refreshSession C w session "APPEND") as [e|s]; simpl.
  { apply Writes_catch. now apply NoWrite. }
  destruct (Aliases_isOverQuota C w (user s) 0) as [e|[su over]]; simpl.
  { apply Writes_catch. now apply NoWrite. }
  destruct over; simpl.
  { apply Writes_catch. now apply NoWrite. }
  destruct (Mailboxes_findOne path (mailboxes w)) as [mb|]; simpl.
  2:{ apply Writes_catch. now apply NoWrite. }
  eapply Writes_same_store; [apply (gate_store C flags s raw w)|].
  apply append_after_gate_writes.
Qed.

Local Transparent append_store append_after_gate append_catch.

(** What any run of the handler on the storing path writes. *)
Lemma onAppend_writes path flags date raw session w :
  wsp C = None ->
  Writes C flags w (fst (onAppend C path flags date raw session w))
                   (snd (onAppend C path flags date raw session w)).
Proof.
  intros direct. unfold onAppend. rewrite direct. apply append_try_writes.
Qed.

End WritesOfARun.

(** ** Identifier allocation *)

Section Allocation.

Variable C : Collaborators.
Hypothesis direct : wsp C = None.

(** C2. A successful append that stores a message performs one counter
    update on the target mailbox, incrementing [uidNext] and [modifyIndex]
    by one each; [pre] is the document as it was before the update, and the
    stored message carries [uid = pre.uidNext] and
    [modseq = pre.modifyIndex + 1]. *)
Theorem C2_identifier_allocation path flags date raw session w w' ok r :
  onAppend C path flags date raw session w = (w', FnOk ok r) ->
  messages w' <> messages w ->
  exists pre post m,
    mailbox_by_id (Response.mailbox r) w = Some pre /\
    mailboxes w' = bump (Response.mailbox r) (mailboxes w) /\
    mailbox_by_id (Response.mailbox r) w' = Some post /\
    Mailbox.uidNext post = Mailbox.uidNext pre + 1 /\
    Mailbox.modifyIndex post = Mailbox.modifyIndex pre + 1 /\
    messages w' = messages w ++ [m] /\
    Message.mailbox m = Response.mailbox r /\
    Message.uid m = Mailbox.uidNext pre /\
    Message.modseq m = Mailbox.modifyIndex pre + 1 /\
    Response.uid r = Message.uid m.
Proof.
  intros Hrun Hnew.
  pose proof (onAppend_writes C path flags date raw session w direct) as H.
  rewrite Hrun in H. simpl in H.
  destruct H as [H0 H1 H2 | id e0 H0 H1 H2 H3
                 | s found al p tree md fp now th Hf H0 H1 H2];
    [congruence | congruence |].
  destruct (H2 ok r eq_refl) as (_ & Hu & Hb & _).
  exists al, (apply_inc {| inc_uidNext := 1; inc_modifyIndex := 1 |} al),
    (message_data C s flags found al p tree md fp now th).
  rewrite Hb. unfold mailbox_by_id in *. rewrite H0, find_bump, Hf, String.eqb_refl.
  repeat split; simpl; auto.
Qed.

(** C10. A successful append into a mailbox whose special-use tag is
    [\Drafts] stores the message with the [\Draft] flag, whatever flags the
    caller gave. *)
Theorem C10_drafts_mailbox_sets_draft_flag
    path flags date raw session w w' ok r mb :
  onAppend C path flags date raw session w = (w', FnOk ok r) ->
  messages w' <> messages w ->
  mailbox_by_id (Response.mailbox r) w = Some mb ->
  Mailbox.specialUse mb = Some "\Drafts" ->
  exists m,
    messages w' = messages w ++ [m] /\
    Message.mailbox m = Response.mailbox r /\
    includes "\Draft" (Message.flags m) = true.
Proof.
  intros Hrun Hnew Hmb Hsu.
  pose proof (onAppend_writes C path flags date raw session w direct) as H.
  rewrite Hrun in H. simpl in H.
  destruct H as [H0 H1 H2 | id e0 H0 H1 H2 H3
                 | s found al p tree md fp now th Hf H0 H1 H2];
    [congruence | congruence |].
  destruct (H2 ok r eq_refl) as (_ & _ & Hb & _).
  rewrite Hb in Hmb. assert (al = mb) by congruence. subst al.
  exists (message_data C s flags found mb p tree md fp now th).
  split; [exact H1|]. split; [now rewrite Hb|].
  simpl. unfold specialUse_is. rewrite Hsu. simpl.
  unfold includes. rewrite existsb_app. simpl. apply orb_true_r.
Qed.

End Allocation.

(** ** Successive appends *)

Section Successive.

Variable C : Collaborators.
Hypothesis direct : wsp C = None.

Lemma perform_writes c w :
  Writes C (call_flags c) w (fst (perform C c w)) (snd (perform C c w)).
Proof.
  unfold perform.
  apply Writes_same_store with (w0 := set_clock (at_time c) w);
    [repeat split | now apply onAppend_writes].
Qed.

(** No call lowers a counter. *)
Lemma Writes_counters flags w w' call id mb :
  Writes C flags w w' call ->
  mailbox_by_id id w = Some mb ->
  exists mb', mailbox_by_id id w' = Some mb' /\
              Mailbox.uidNext mb <= Mailbox.uidNext mb' /\
              Mailbox.modifyIndex mb <= Mailbox.modifyIndex mb'.
Proof.
  unfold mailbox_by_id. intros H Hmb.
  destruct H as [H0 _ _ | i e0 H0 _ _ _
                 | s found al p tree md fp now th _ H0 _ _];
    rewrite H0.
  - exists mb. split; [assumption | lia].
  - rewrite find_bump, Hmb.
    destruct (String.eqb i id); eexists; (split; [reflexivity | simpl; lia]).
  - rewrite find_bump, Hmb.
    destruct (String.eqb (Mailbox._id found) id); eexists;
      (split; [reflexivity | simpl; lia]).
Qed.

Lemma stored_in_cons id m l :
  stored_in id (m :: l) =
  (if String.eqb (Message.mailbox m) id then 1 else 0) + stored_in id l.
Proof.
  unfold stored_in. simpl.
  destruct (String.eqb (Message.mailbox m) id); simpl List.length; lia.
Qed.

(** The invariant carried along a run: the messages it adds are in
    increasing order, none of them is below the counters the run started
    from, and every stored message raised the counters of its mailbox. *)
Lemma run_invariant calls : forall w,
  exists added,
    messages (fst (run C calls w)) = messages w ++ added /\
    increasing added /\
    (forall m, In m added -> forall mb,
        mailbox_by_id (Message.mailbox m) w = Some mb ->
        Mailbox.uidNext mb <= Message.uid m /\
        Mailbox.modifyIndex mb + 1 <= Message.modseq m) /\
    (forall id mb, mailbox_by_id id w = Some mb ->
        exists mb', mailbox_by_id id (fst (run C calls w)) = Some mb' /\
          Mailbox.uidNext mb + stored_in id added <= Mailbox.uidNext mb' /\
          Mailbox.modifyIndex mb + stored_in id added
            <= Mailbox.modifyIndex mb').
Proof.
  induction calls as [|c rest IH]; intros w; simpl.
  - exists []. rewrite app_nil_r. repeat split; try easy.
    intros id mb H. exists mb. unfold stored_in. simpl. split; [assumption|lia].
  - pose proof (perform_writes c w) as H.
    pose proof (fun id mb => Writes_counters _ _ _ _ id mb H) as Hmono.
    destruct (IH (fst (perform C c w))) as (added & Ha & Hinc & Hlow & Hup).
    destruct H as [H0 H1 _ | i e0 H0 H1 _ _
                   | s found al p tree md fp now th Hf H0 H1 _].
    + (* nothing written *)
      exists added. rewrite Ha, H1. split; [reflexivity|]. split; [assumption|].
      unfold mailbox_by_id in *. rewrite H0 in *. split; assumption.
    + (* identifiers allocated and not used *)
      exists added. rewrite Ha, H1. split; [reflexivity|]. split; [assumption|].
      split.
      * intros m Hm mb Hmb. destruct (Hmono _ _ Hmb) as (mb1 & H1' & ? & ?).
        destruct (Hlow m Hm mb1 H1'). lia.
      * intros id mb Hmb. destruct (Hmono _ _ Hmb) as (mb1 & H1' & ? & ?).
        destruct (Hup id mb1 H1') as (mb' & ? & ? & ?).
        exists mb'. split; [assumption | lia].
    + (* a message stored *)
      set (m := message_data C s (call_flags c) found al p tree md fp now th)
        in *.
      assert (Hnext : mailbox_by_id (Mailbox._id found) (fst (perform C c w))
                      = Some (apply_inc {| inc_uidNext := 1;
                                           inc_modifyIndex := 1 |} al)).
      { unfold mailbox_by_id in *.
        now rewrite H0, find_bump, Hf, String.eqb_refl. }
      exists (m :: added). rewrite Ha, H1, <- app_assoc. simpl.
      split; [reflexivity|]. split; [split; [|assumption]|]. 2: split.
      * apply Forall_forall. intros m' Hm' Hsame.
        change (Message.mailbox m) with (Mailbox._id found) in Hsame.
        rewrite <- Hsame in Hnext. destruct (Hlow m' Hm' _ Hnext) as [L1 L2].
        simpl in L1, L2. simpl. lia.
      * intros m' [<-|Hm'] mb Hmb.
        -- change (Message.mailbox m) with (Mailbox._id found) in Hmb.
           assert (mb = al) by congruence. subst mb. simpl. lia.
        -- destruct (Hmono _ _ Hmb) as (mb1 & H1' & ? & ?).
           destruct (Hlow m' Hm' mb1 H1'). lia.
      * intros id mb Hmb. rewrite stored_in_cons.
        change (Message.mailbox m) with (Mailbox._id found).
        assert (Hid : mailbox_by_id id (fst (perform C c w)) =
                      if String.eqb (Mailbox._id found) id
                      then Some (apply_inc {| inc_uidNext := 1;
                                              inc_modifyIndex := 1 |} mb)
                      else Some mb).
        { unfold mailbox_by_id in *. now rewrite H0, find_bump, Hmb. }
        destruct (String.eqb (Mailbox._id found) id);
          destruct (Hup id _ Hid) as (mb' & ? & L1 & L2);
          exists mb'; simpl in L1, L2; (split; [assumption | lia]).
Qed.

Lemma app_one_neq {A : Type} (l : list A) (x : A) : l ++ [x] <> l.
Proof.
  intros E. apply (f_equal (@List.length _)) in E.
  rewrite length_app in E. simpl in E. lia.
Qed.

(** A success reported by the storing steps comes with a stored message. *)
Lemma append_store_ok flags s found p fp fr w ok r :
  snd (finish C (append_store C flags s found p fp (fr, w))) = FnOk ok r ->
  messages (fst (finish C (append_store C flags s found p fp (fr, w))))
    <> messages w.
Proof.
  unfold append_store, store_node_bodies, allocate, get_thread,
    Messages_create, notifier_addEntries. run_m.
  repeat (break_inner; simpl); try discriminate; intros _;
    rewrite ?update_storage_messages; simpl; apply app_one_neq.
Qed.

Local Opaque append_store.

(** A success that stored nothing is the answer of the duplicate check. *)
Lemma ok_without_store path flags date raw session w ok r :
  snd (onAppend C path flags date raw session w) = FnOk ok r ->
  messages (fst (onAppend C path flags date raw session w)) = messages w ->
  exists s existing,
    refreshSession C w session "APPEND" = inr s /\
    checkForExisting s = true /\
    In existing (messages w) /\
    Message.mailbox existing = Response.mailbox r /\
    Response.uid r = Message.uid existing /\
    ok = true /\
    mailboxes (fst (onAppend C path flags date raw session w)) = mailboxes w.
Proof.
  unfold onAppend. rewrite direct. unfold append_try. run_m.
  destruct (refreshSession C w session "APPEND") as [e|s]; simpl;
    [discriminate|].
  destruct (Aliases_isOverQuota C w (user s) 0) as [e|[su over]]; simpl;
    [discriminate|].
  destruct over; simpl; [discriminate|].
  destruct (Mailboxes_findOne path (mailboxes w)) as [mb|]; simpl;
    [|discriminate].
  destruct (gate_store C flags s raw w) as (Gm & Gg & _).
  unfold append_after_gate. run_m.
  destruct (prepareMessage C flags date _) as [e|p]; simpl; [discriminate|].
  destruct (checkForExisting s) eqn:Hc; simpl.
  - destruct (Messages_findOne _ _ _) as [existing|] eqn:Hf; simpl.
    + intros [= <- <-] _. rewrite Gg in Hf.
      unfold Messages_findOne in Hf. apply find_some in Hf.
      destruct Hf as [Hin Heq]. apply andb_prop in Heq.
      destruct Heq as [_ Hb]. apply String.eqb_eq in Hb.
      exists s, existing. repeat split; assumption.
    + destruct (Domains_getMaxQuota C _) as [e|max]; simpl; [discriminate|].
      destruct (su + Prepared.size p >? max); simpl; [discriminate|].
      intros Hok Hsame. exfalso.
      apply (append_store_ok _ _ _ _ _ _ _ _ _ Hok). now rewrite Hsame.
  - destruct (Domains_getMaxQuota C _) as [e|max]; simpl; [discriminate|].
    destruct (su + Prepared.size p >? max); simpl; [discriminate|].
    intros Hok Hsame. exfalso.
    apply (append_store_ok _ _ _ _ _ _ _ _ _ Hok). now rewrite Hsame.
Qed.

Local Transparent append_store.

(** What a call that reports success did: it allocated the next
    identifiers of the mailbox and stored a message under them, or it
    answered with a message the duplicate check found. *)
Lemma perform_ok c w ok r :
  snd (perform C c w) = FnOk ok r ->
  (exists before m,
     mailbox_by_id (Response.mailbox r) w = Some before /\
     mailbox_by_id (Response.mailbox r) (fst (perform C c w)) =
       Some (apply_inc {| inc_uidNext := 1; inc_modifyIndex := 1 |} before) /\
     messages (fst (perform C c w)) = messages w ++ [m] /\
     Message.mailbox m = Response.mailbox r /\
     Message.uid m = Mailbox.uidNext before /\
     Message.modseq m = Mailbox.modifyIndex before + 1 /\
     Response.uid r = Message.uid m) \/
  (exists s existing,
     refreshSession C (set_clock (at_time c) w) (call_session c) "APPEND"
       = inr s /\
     checkForExisting s = true /\
     In existing (messages w) /\
     Message.mailbox existing = Response.mailbox r /\
     Response.uid r = Message.uid existing /\
     messages (fst (perform C c w)) = messages w /\
     mailboxes (fst (perform C c w)) = mailboxes w).
Proof.
  intros Hok. pose proof (perform_writes c w) as H. rewrite Hok in H.
  destruct H as [H0 H1 _ | i e0 _ _ _ E
                 | s found al p tree md fp now th Hf H0 H1 H2];
    [| discriminate |].
  - right. unfold perform in *.
    destruct (ok_without_store _ _ _ _ _ _ _ _ Hok H1)
      as (s & existing & Hs & Hc & Hin & Hb & Hu & _ & Hm).
    exists s, existing. repeat split; assumption.
  - left. destruct (H2 ok r eq_refl) as (_ & Hu & Hb & _).
    exists al, (message_data C s (call_flags c) found al p tree md fp now th).
    rewrite Hb. unfold mailbox_by_id in *.
    rewrite H0, find_bump, Hf, String.eqb_refl.
    repeat split; simpl; auto.
Qed.

(** C3. Across any sequence of appends to the same storage: the messages
    the sequence stores come out in strictly increasing order of UID and of
    mod-sequence within each mailbox, and [uidNext] and [modifyIndex] of a
    mailbox grow by at least one with every message stored in it.  Every
    call that reports success either raised both counters of its mailbox
    by one and stored a message under the identifiers read before the
    increment - the UID it answers with - or answered, at a session that
    asks for the duplicate check, with a message stored before, writing
    nothing.  And of two calls that reported success for messages they
    stored in the same mailbox, with any calls in between, the later one
    got the larger UID and the larger mod-sequence. *)
Theorem C3_identifiers_strictly_increase calls w :
  (exists added,
     messages (fst (run C calls w)) = messages w ++ added /\
     increasing added /\
     (forall id mb, mailbox_by_id id w = Some mb ->
        exists mb', mailbox_by_id id (fst (run C calls w)) = Some mb' /\
          Mailbox.uidNext mb + stored_in id added <= Mailbox.uidNext mb' /\
          Mailbox.modifyIndex mb + stored_in id added
            <= Mailbox.modifyIndex mb')) /\
  (forall c ok r,
     snd (perform C c w) = FnOk ok r ->
     (exists before m,
        mailbox_by_id (Response.mailbox r) w = Some before /\
        mailbox_by_id (Response.mailbox r) (fst (perform C c w)) =
          Some (apply_inc {| inc_uidNext := 1; inc_modifyIndex := 1 |}
                          before) /\
        messages (fst (perform C c w)) = messages w ++ [m] /\
        Message.mailbox m = Response.mailbox r /\
        Message.uid m = Mailbox.uidNext before /\
        Message.modseq m = Mailbox.modifyIndex before + 1 /\
        Response.uid r = Message.uid m) \/
     (exists s existing,
        refreshSession C (set_clock (at_time c) w) (call_session c) "APPEND"
          = inr s /\
        checkForExisting s = true /\
        In existing (messages w) /\
        Message.mailbox existing = Response.mailbox r /\
        Response.uid r = Message.uid existing /\
        messages (fst (perform C c w)) = messages w /\
        mailboxes (fst (perform C c w)) = mailboxes w)) /\
  (forall c1 c2 ok1 r1 ok2 r2,
     let w1 := fst (perform C c1 w) in
     let w2 := fst (run C calls w1) in
     let w3 := fst (perform C c2 w2) in
     snd (perform C c1 w) = FnOk ok1 r1 ->
     messages w1 <> messages w ->
     snd (perform C c2 w2) = FnOk ok2 r2 ->
     messages w3 <> messages w2 ->
     Response.mailbox r1 = Response.mailbox r2 ->
     exists m1 m2,
       messages w1 = messages w ++ [m1] /\
       messages w3 = messages w2 ++ [m2] /\
       Response.uid r1 = Message.uid m1 /\
       Response.uid r2 = Message.uid m2 /\
       Message.uid m1 < Message.uid m2 /\
       Message.modseq m1 < Message.modseq m2).
Proof.
  split; [|split].
  - destruct (run_invariant calls w) as (added & H1 & H2 & _ & H4).
    exists added. auto.
  - intros c ok r. apply perform_ok.
  - intros c1 c2 ok1 r1 ok2 r2 w1 w2 w3 Hok1 Hne1 Hok2 Hne2 Hsame.
    destruct (perform_ok c1 w ok1 r1 Hok1)
      as [(b1 & m1 & _ & Ha1 & Hm1 & _ & Hu1 & Hq1 & Hr1)
         | (_ & _ & _ & _ & _ & _ & _ & E & _)];
      [|contradiction].
    destruct (perform_ok c2 w2 ok2 r2 Hok2)
      as [(b2 & m2 & Hb2 & _ & Hm2 & _ & Hu2 & Hq2 & Hr2)
         | (_ & _ & _ & _ & _ & _ & _ & E & _)];
      [|contradiction].
    destruct (run_invariant calls w1) as (added & _ & _ & _ & Hup).
    destruct (Hup _ _ Ha1) as (mb' & Hmb' & L1 & L2).
    fold w2 in Hmb'. rewrite Hsame in Hmb'.
    assert (mb' = b2) by congruence. subst mb'.
    assert (0 <= stored_in (Response.mailbox r1) added)
      by (unfold stored_in; lia).
    simpl in L1, L2.
    exists m1, m2. repeat split; try assumption; lia.
Qed.

End Successive.

(** ** The storing path, step by step *)

Section Pipeline.

Variable C : Collaborators.
Hypothesis direct : wsp C = None.

Lemma onAppend_direct path flags date raw session w :
  onAppend C path flags date raw session w =
  finish C (append_try C path flags date raw session (frame0 session, w)).
Proof. unfold onAppend. now rewrite direct. Qed.

(** A run that gets past the session refresh, the quota pre-check and the
    mailbox lookup goes through the gate and on with what the gate returns. *)
Lemma onAppend_after_gate path flags date raw session w s su mb :
  refreshSession C w session "APPEND" = inr s ->
  Aliases_isOverQuota C w (user s) 0 = inr (su, false) ->
  Mailboxes_findOne path (mailboxes w) = Some mb ->
  onAppend C path flags date raw session w =
  finish C (append_after_gate C flags date s su mb
              (snd (encryption_gate C flags s raw w))
              (set_session s (frame0 session),
               fst (encryption_gate C flags s raw w))).
Proof.
  intros Hs Hq Hm. rewrite onAppend_direct. unfold append_try. run_m.
  rewrite Hs. simpl. rewrite Hq. simpl. rewrite Hm. reflexivity.
Qed.

(** C6 (as amended). An append whose path resolves to no mailbox fails and
    leaves the world as it was - no mailbox is created, nothing is stored -
    and when it got as far as the mailbox lookup (the session refresh and
    the quota pre-check passed) the error is the one carrying TRYCREATE. *)
Theorem C6_missing_mailbox_trycreate path flags date raw session w :
  Mailboxes_findOne path (mailboxes w) = None ->
  fst (onAppend C path flags date raw session w) = w /\
  (exists e, snd (onAppend C path flags date raw session w) = FnError e) /\
  (forall s su,
     refreshSession C w session "APPEND" = inr s ->
     Aliases_isOverQuota C w (user s) 0 = inr (su, false) ->
     snd (onAppend C path flags date raw session w) =
     FnError (refineAndLogError C
                (IMAPError (i18n_translate C "IMAP_MAILBOX_DOES_NOT_EXIST"
                                           (locale (user s)) [])
                           (Some "TRYCREATE")) s)).
Proof.
  intros Hm. rewrite onAppend_direct. unfold append_try. run_m.
  destruct (refreshSession C w session "APPEND") as [e|s0]; simpl.
  { split; [reflexivity | split; [eexists; reflexivity | discriminate]]. }
  destruct (Aliases_isOverQuota C w (user s0) 0) as [e|[su0 over]] eqn:Hq;
    simpl.
  { split; [reflexivity | split; [eexists; reflexivity|]].
    intros s su [= <-] Hq'. congruence. }
  destruct over; simpl.
  { split; [reflexivity | split; [eexists; reflexivity|]].
    intros s su [= <-] Hq'. congruence. }
  rewrite Hm. simpl.
  split; [reflexivity | split; [eexists; reflexivity|]].
  now intros s su [= <-] _.
Qed.

(** C1 (as amended). With [checkForExisting] set and a message with the same
    fingerprint already in the mailbox, the append returns the identifiers
    of that message with status ["new"], and the mailboxes, the messages,
    the journal, the attachment store and the threads are as before. *)
Theorem C1_dedup_returns_existing
    path flags date raw session w s su mb p existing :
  refreshSession C w session "APPEND" = inr s ->
  Aliases_isOverQuota C w (user s) 0 = inr (su, false) ->
  Mailboxes_findOne path (mailboxes w) = Some mb ->
  prepareMessage C flags date (snd (encryption_gate C flags s raw w)) = inr p ->
  checkForExisting s = true ->
  Messages_findOne
    (getFingerprint C s (Prepared.headers p)
                    (MimeTree.body (Prepared.mimeTree p)))
    (Mailbox._id mb) (messages w) = Some existing ->
  onAppend C path flags date raw session w =
  (fst (encryption_gate C flags s raw w),
   FnOk true
     {| Response.uidValidity := Mailbox.uidValidity mb;
        Response.uid := Message.uid existing;
        Response.id := Message._id existing;
        Response.mailbox := Mailbox._id mb;
        Response.mailboxPath := Mailbox.path mb;
        Response.size := Message.size existing;
        Response.status := "new" |}) /\
  same_store w (fst (encryption_gate C flags s raw w)).
Proof.
  intros Hs Hq Hm Hp Hc He. split; [|apply gate_store].
  rewrite (onAppend_after_gate _ _ _ _ _ _ _ _ _ Hs Hq Hm).
  destruct (gate_store C flags s raw w) as (_ & Hg & _).
  unfold append_after_gate. run_m. rewrite Hp. simpl. rewrite Hc. simpl.
  rewrite Hg, He. reflexivity.
Qed.

(** The run of an append all of whose steps succeed. *)
Lemma onAppend_stores
    path flags date raw session w s su mb p max hb alloc t ths :
  let g := encryption_gate C flags s raw w in
  let fp := getFingerprint C s (Prepared.headers p)
                           (MimeTree.body (Prepared.mimeTree p)) in
  let md := getMaildata C (Prepared.mimeTree p) in
  let sn := storeNodeBodies C (blobs w) s md (Prepared.mimeTree p) in
  let m := message_data C s flags mb alloc p (snd (fst sn)) md fp (clock w) t in
  refreshSession C w session "APPEND" = inr s ->
  Aliases_isOverQuota C w (user s) 0 = inr (su, false) ->
  Mailboxes_findOne path (mailboxes w) = Some mb ->
  prepareMessage C flags date (snd g) = inr p ->
  (if checkForExisting s
   then Messages_findOne fp (Mailbox._id mb) (messages w) else None) = None ->
  Domains_getMaxQuota C (domain_id (user s)) = inr max ->
  su + Prepared.size p <= max ->
  snd sn = inr hb ->
  mailbox_by_id (Mailbox._id mb) w = Some alloc ->
  Threads_getThreadId C (threads w) s (Prepared.subject p) (snd (fst sn))
    = inr (t, ths) ->
  Messages_validate C m = None ->
  (forall command uid, wss_broadcast C s command uid = None) ->
  (forall w' entry, notifier_addEntries_failure C w' entry = None) ->
  exists w',
    onAppend C path flags date raw session w =
    (w', FnOk true
           {| Response.uidValidity := Mailbox.uidValidity alloc;
              Response.uid := Mailbox.uidNext alloc;
              Response.id := Prepared.id p;
              Response.mailbox := Mailbox._id alloc;
              Response.mailboxPath := Mailbox.path alloc;
              Response.size := Prepared.size p;
              Response.status := "new" |}) /\
    messages w' = messages w ++ [m] /\
    mailboxes w' = bump (Mailbox._id mb) (mailboxes w).
Proof.
  intros g fp md sn m Hs Hq Hm Hp Hd Hmax Hle Hsn Ha Ht Hv Hb Hn.
  rewrite (onAppend_after_gate _ _ _ _ _ _ _ _ _ Hs Hq Hm).
  destruct (gate_store C flags s raw w) as (Gm & Gg & Gj & Gb & Gt).
  pose proof (gate_clock C flags s raw w) as Gc.
  fold g in Gm, Gg, Gj, Gb, Gt, Gc |- *.
  unfold append_after_gate. run_m. rewrite Hp. simpl. fold fp.
  destruct (checkForExisting s); simpl; rewrite ?Gg, ?Hd; simpl.
  all: rewrite Hmax; simpl;
    replace (su + Prepared.size p >? max) with false by (symmetry; lia);
    unfold append_store, store_node_bodies, allocate, get_thread,
      Messages_create, notifier_addEntries; run_m;
    fold md; rewrite Gb; fold sn; rewrite Hsn; simpl;
    rewrite findByIdAndUpdate_before, Gm;
    unfold mailbox_by_id in Ha; rewrite Ha; simpl;
    rewrite Gt, Ht; simpl; rewrite Gc; fold m; rewrite Hv; simpl.
  all: destruct (selected_is s (Mailbox._id alloc)); simpl;
    rewrite ?Hb; simpl; rewrite Hn; simpl;
    eexists; (split; [reflexivity|]); simpl;
    rewrite ?update_storage_messages, ?update_storage_mailboxes; simpl;
    now rewrite Gg.
Qed.


(** C4. An append that reaches the final quota check succeeds when
    [storageUsed + size] is exactly the domain's maximum (given that the
    steps after the check succeed), and fails with the OVERQUOTA error,
    writing nothing, when it is at least one byte above. *)
Theorem C4_quota_boundary path flags date raw session w s su mb p max :
  let g := encryption_gate C flags s raw w in
  let fp := getFingerprint C s (Prepared.headers p)
                           (MimeTree.body (Prepared.mimeTree p)) in
  let md := getMaildata C (Prepared.mimeTree p) in
  let sn := storeNodeBodies C (blobs w) s md (Prepared.mimeTree p) in
  refreshSession C w session "APPEND" = inr s ->
  Aliases_isOverQuota C w (user s) 0 = inr (su, false) ->
  Mailboxes_findOne path (mailboxes w) = Some mb ->
  prepareMessage C flags date (snd g) = inr p ->
  (if checkForExisting s
   then Messages_findOne fp (Mailbox._id mb) (messages w) else None) = None ->
  Domains_getMaxQuota C (domain_id (user s)) = inr max ->
  (su + Prepared.size p = max ->
   forall hb alloc t ths,
     snd sn = inr hb ->
     mailbox_by_id (Mailbox._id mb) w = Some alloc ->
     Threads_getThreadId C (threads w) s (Prepared.subject p) (snd (fst sn))
       = inr (t, ths) ->
     Messages_validate C
       (message_data C s flags mb alloc p (snd (fst sn)) md fp (clock w) t)
       = None ->
     (forall command uid, wss_broadcast C s command uid = None) ->
     (forall w' entry, notifier_addEntries_failure C w' entry = None) ->
     exists w',
       onAppend C path flags date raw session w =
       (w', FnOk true
              {| Response.uidValidity := Mailbox.uidValidity alloc;
                 Response.uid := Mailbox.uidNext alloc;
                 Response.id := Prepared.id p;
                 Response.mailbox := Mailbox._id alloc;
                 Response.mailboxPath := Mailbox.path alloc;
                 Response.size := Prepared.size p;
                 Response.status := "new" |}) /\
       messages w' =
         messages w ++
         [message_data C s flags mb alloc p (snd (fst sn)) md fp (clock w) t])
  /\
  (max + 1 <= su + Prepared.size p ->
   onAppend C path flags date raw session w =
   (fst g,
    FnError (refineAndLogError C
               (IMAPError
                  (i18n_translate C "IMAP_MAILBOX_MESSAGE_EXCEEDS_QUOTA"
                                  (locale (user s)) [username (user s)])
                  (Some "OVERQUOTA")) s)) /\
   same_store w (fst g)).
Proof.
  intros g fp md sn Hs Hq Hm Hp Hd Hmax. split.
  - intros Heq hb alloc t ths Hsn Ha Ht Hv Hb Hn.
    destruct (onAppend_stores path flags date raw session w s su mb p max hb
                alloc t ths Hs Hq Hm Hp Hd Hmax ltac:(lia) Hsn Ha Ht Hv Hb Hn)
      as (w' & H1 & H2 & _).
    exists w'. split; assumption.
  - intros Hover. split; [|apply gate_store].
    rewrite (onAppend_after_gate _ _ _ _ _ _ _ _ _ Hs Hq Hm).
    destruct (gate_store C flags s raw w) as (_ & Gg & _).
    fold g in Gg |- *.
    unfold append_after_gate. run_m. rewrite Hp. simpl. fold fp.
    destruct (checkForExisting s); simpl; rewrite ?Gg, ?Hd; simpl.
    all: rewrite Hmax; simpl;
      replace (su + Prepared.size p >? max) with true by (symmetry; lia);
      reflexivity.
Qed.

End Pipeline.

(** ** The size cap *)

Lemma oversized_is_truthy raw :
  SIXTY_FOUR_MB_IN_BYTES < raw_length raw -> truthy_raw raw = true.
Proof.
  destruct raw as [b|[|u us]|]; simpl; unfold SIXTY_FOUR_MB_IN_BYTES;
    intros H; try reflexivity; lia.
Qed.

(** C5 (as amended). On a front-end instance (one with [this.wsp]) an append
    whose message is larger than 64 MiB fails with the size error before
    anything is forwarded: the world is exactly as before. *)
Theorem C5_frontend_rejects_oversized
    (C : Collaborators) request path flags date raw session w :
  wsp C = Some request ->
  SIXTY_FOUR_MB_IN_BYTES < raw_length raw ->
  onAppend C path flags date raw session w =
  (w, FnError (IMAPError (i18n_translate C "IMAP_MESSAGE_SIZE_EXCEEDED"
                                         (locale (user session)) [])
                         None)).
Proof.
  intros Hw Hlen. unfold onAppend, wsp_try. rewrite Hw.
  rewrite (oversized_is_truthy raw Hlen).
  replace (raw_length raw >? SIXTY_FOUR_MB_IN_BYTES) with true
    by (symmetry; apply Z.gtb_lt; exact Hlen).
  reflexivity.
Qed.

Lemma oversized_length : raw_length Sample.oversized = 67108865.
Proof.
  unfold Sample.oversized, raw_length. rewrite repeat_length.
  now rewrite N_nat_Z.
Qed.

Local Opaque Sample.oversized.

(** Counterexample to C5 as stated: on a storing instance a message of
    64 MiB + 1 byte is appended like any other. *)
Lemma C5_counterexample :
  SIXTY_FOUR_MB_IN_BYTES < raw_length Sample.oversized /\
  exists w',
    onAppend Sample.collaborators "INBOX" [] 5 Sample.oversized
             Sample.session Sample.world =
    (w', FnOk true
           {| Response.uidValidity := 1; Response.uid := 7;
              Response.id := "x1"; Response.mailbox := "m1";
              Response.mailboxPath := "INBOX";
              Response.size := raw_length Sample.oversized;
              Response.status := "new" |}) /\
    List.length (messages w') = 1%nat.
Proof.
  split; [rewrite oversized_length; reflexivity|].
  edestruct (onAppend_stores Sample.collaborators eq_refl "INBOX" [] 5
               Sample.oversized Sample.session Sample.world Sample.session 0
               Sample.inbox) as (w' & H1 & H2 & _);
    [reflexivity | reflexivity | reflexivity | reflexivity | reflexivity
    | reflexivity | | reflexivity | reflexivity | reflexivity | reflexivity
    | reflexivity | reflexivity | ].
  - change (0 + raw_length Sample.oversized <= Sample.quota).
    rewrite oversized_length. unfold Sample.quota. lia.
  - exists w'. split; [exact H1|]. rewrite H2. reflexivity.
Qed.

(** ** The encryption gate in a run *)

Section GateInARun.

Variable C : Collaborators.
Hypothesis direct : wsp C = None.

Lemma encryptions_emit e t :
  encryptions (t ++ [e]) =
  (encryptions t + if is_encrypt e then 1 else 0)%nat.
Proof.
  unfold encryptions. rewrite filter_app, length_app. simpl.
  now destruct (is_encrypt e).
Qed.

Lemma alerts_emit e t :
  alerts (t ++ [e]) = (alerts t + if is_alert e then 1 else 0)%nat.
Proof.
  unfold alerts. rewrite filter_app, length_app. simpl.
  now destruct (is_alert e).
Qed.

Lemma pgp_alert_encryptions s e w :
  encryptions (trace (pgp_alert C s e w)) = encryptions (trace w).
Proof.
  unfold pgp_alert.
  repeat break_match; simpl; rewrite ?encryptions_emit; simpl; lia.
Qed.

Lemma gate_encryptions flags s raw w :
  encryptions (trace (fst (encryption_gate C flags s raw w))) =
  (encryptions (trace w) + if gate_condition flags s then 1 else 0)%nat.
Proof.
  unfold encryption_gate. destruct (gate_condition flags s); [|simpl; lia].
  destruct (encryptMessage C (public_key s) raw); simpl.
  - rewrite pgp_alert_encryptions. simpl. rewrite !encryptions_emit.
    simpl. lia.
  - rewrite encryptions_emit. simpl. lia.
Qed.

(** The [catch] block sends no alert and calls no encryption. *)
Lemma catch_counts st e :
  encryptions (trace (fst (append_catch C st e))) =
    encryptions (trace (snd st)) /\
  alerts (trace (fst (append_catch C st e))) = alerts (trace (snd st)).
Proof.
  unfold append_catch. simpl.
  repeat break_inner; simpl; rewrite ?encryptions_emit, ?alerts_emit;
    simpl; lia.
Qed.

Lemma update_storage_counts s w :
  encryptions (trace (update_storage C s w)) = encryptions (trace w) /\
  alerts (trace (update_storage C s w)) = alerts (trace w) /\
  aliases (update_storage C s w) = aliases w.
Proof.
  unfold update_storage.
  break_match; simpl; rewrite ?encryptions_emit, ?alerts_emit; simpl;
    repeat split; lia.
Qed.

Local Opaque append_catch update_storage.

(** Nothing after the gate calls [encryptMessage], sends an alert or
    touches the alias documents. *)
Lemma after_gate_counts flags date s su mb raw fr w :
  let w' := fst (finish C (append_after_gate C flags date s su mb raw
                                             (fr, w))) in
  encryptions (trace w') = encryptions (trace w) /\
  alerts (trace w') = alerts (trace w) /\
  aliases w' = aliases w.
Proof.
  unfold append_after_gate, append_store, store_node_bodies, allocate,
    get_thread, Messages_create, notifier_addEntries. run_m.
  repeat (break_inner; simpl);
    repeat match goal with
    | |- context [append_catch C ?st ?e] =>
        let H1 := fresh in let H2 := fresh in let H3 := fresh in
        destruct (catch_counts st e) as [H1 H2];
        destruct (catch_fields C st e _ eq_refl) as (_ & _ & _ & _ & H3 & _);
        rewrite H1, H2, H3; clear H1 H2 H3
    end; simpl;
    repeat match goal with
    | |- context [update_storage C ?s ?w] =>
        let H1 := fresh in let H2 := fresh in let H3 := fresh in
        destruct (update_storage_counts s w) as (H1 & H2 & H3);
        rewrite ?encryptions_emit, ?alerts_emit, ?H1, ?H2, ?H3;
        clear H1 H2 H3
    end; simpl;
    rewrite ?encryptions_emit, ?alerts_emit; simpl;
    repeat split; lia.
Qed.

Local Transparent append_catch update_storage.

(** When [encryptMessage] raises, the gate hands on the message it was
    given. *)
Lemma gate_failure_keeps_raw flags s raw w e :
  gate_condition flags s = true ->
  encryptMessage C (public_key s) raw = inl e ->
  snd (encryption_gate C flags s raw w) = raw.
Proof.
  intros Hc He. unfold encryption_gate. now rewrite Hc, He.
Qed.

(** An append that does not get to the gate leaves the world as it was. *)
Lemma before_gate_nothing path flags date raw session w :
  reaches_gate C path session w = false ->
  fst (onAppend C path flags date raw session w) = w.
Proof.
  unfold reaches_gate. rewrite (onAppend_direct C direct).
  unfold append_try. run_m.
  destruct (refreshSession C w session "APPEND") as [e|s]; simpl;
    [reflexivity|].
  destruct (Aliases_isOverQuota C w (user s) 0) as [e|[su over]]; simpl;
    [reflexivity|].
  destruct over; simpl; [reflexivity|].
  destruct (Mailboxes_findOne path (mailboxes w)); simpl;
    [discriminate | reflexivity].
Qed.

(** C7 (as amended). In an append that reaches the gate, [encryptMessage]
    is called once if the message is not flagged [\Draft] and the owner has
    PGP enabled and a public key, and not at all otherwise; an append that
    fails before the gate never calls it.  When [encryptMessage] raises,
    the error is logged, the storage is as the gate found it, and the
    append goes on with the original message: if the steps after the gate
    succeed on it, the callback reports success and the message stored is
    the one built from the parse of the original, unencrypted message. *)
Theorem C7_encryption_gate path flags date raw session w :
  (forall s su mb,
     refreshSession C w session "APPEND" = inr s ->
     Aliases_isOverQuota C w (user s) 0 = inr (su, false) ->
     Mailboxes_findOne path (mailboxes w) = Some mb ->
     encryptions (trace (fst (onAppend C path flags date raw session w))) =
       (encryptions (trace w) +
        if negb (includes "\Draft" flags) && alias_has_pgp (user s) &&
           truthy_string (alias_public_key (user s))
        then 1 else 0)%nat) /\
  (reaches_gate C path session w = false ->
     encryptions (trace (fst (onAppend C path flags date raw session w))) =
       encryptions (trace w)) /\
  (forall s su mb e,
     refreshSession C w session "APPEND" = inr s ->
     Aliases_isOverQuota C w (user s) 0 = inr (su, false) ->
     Mailboxes_findOne path (mailboxes w) = Some mb ->
     gate_condition flags s = true ->
     encryptMessage C (public_key s) raw = inl e ->
     (exists wg,
        same_store w wg /\
        In (LogFatal e) (trace wg) /\
        onAppend C path flags date raw session w =
        finish C (append_after_gate C flags date s su mb raw
                                    (set_session s (frame0 session), wg))) /\
     (forall p max hb alloc t ths,
        let fp := getFingerprint C s (Prepared.headers p)
                                 (MimeTree.body (Prepared.mimeTree p)) in
        let md := getMaildata C (Prepared.mimeTree p) in
        let sn := storeNodeBodies C (blobs w) s md (Prepared.mimeTree p) in
        let m := message_data C s flags mb alloc p (snd (fst sn)) md fp
                              (clock w) t in
        prepareMessage C flags date raw = inr p ->
        (if checkForExisting s
         then Messages_findOne fp (Mailbox._id mb) (messages w)
         else None) = None ->
        Domains_getMaxQuota C (domain_id (user s)) = inr max ->
        su + Prepared.size p <= max ->
        snd sn = inr hb ->
        mailbox_by_id (Mailbox._id mb) w = Some alloc ->
        Threads_getThreadId C (threads w) s (Prepared.subject p)
                            (snd (fst sn)) = inr (t, ths) ->
        Messages_validate C m = None ->
        (forall command uid, wss_broadcast C s command uid = None) ->
        (forall w' entry, notifier_addEntries_failure C w' entry = None) ->
        exists w',
          onAppend C path flags date raw session w =
          (w', FnOk true
                 {| Response.uidValidity := Mailbox.uidValidity alloc;
                    Response.uid := Mailbox.uidNext alloc;
                    Response.id := Prepared.id p;
                    Response.mailbox := Mailbox._id alloc;
                    Response.mailboxPath := Mailbox.path alloc;
                    Response.size := Prepared.size p;
                    Response.status := "new" |}) /\
          messages w' = messages w ++ [m] /\
          mailboxes w' = bump (Mailbox._id mb) (mailboxes w))).
Proof.
  split; [|split].
  - intros s su mb Hs Hq Hm.
    rewrite (onAppend_after_gate C direct _ _ _ _ _ _ _ _ _ Hs Hq Hm).
    destruct (after_gate_counts flags date s su mb
                 (snd (encryption_gate C flags s raw w))
                 (set_session s (frame0 session))
                 (fst (encryption_gate C flags s raw w))) as [Hc _].
    rewrite Hc. apply gate_encryptions.
  - intros Hr. now rewrite before_gate_nothing.
  - intros s su mb e Hs Hq Hm Hc He. split.
    + rewrite (onAppend_after_gate C direct _ _ _ _ _ _ _ _ _ Hs Hq Hm).
      exists (fst (encryption_gate C flags s raw w)).
      split; [apply gate_store|].
      unfold encryption_gate. rewrite Hc, He. simpl. split; [|reflexivity].
      unfold pgp_alert. repeat break_match; simpl;
        rewrite ?in_app_iff; simpl; tauto.
    + intros p max hb alloc t ths fp md sn m Hp Hd Hmax Hle Hsn Ha Ht Hv
        Hb Hn.
      apply (onAppend_stores C direct path flags date raw session w s su mb
               p max hb alloc t ths Hs Hq Hm); try assumption.
      now rewrite (gate_failure_keeps_raw _ _ _ _ _ Hc He).
Qed.

End GateInARun.

(** ** Alert throttling *)

Section Throttle.

Variable C : Collaborators.
Hypothesis direct : wsp C = None.

Lemma find_none_all {A : Type} (f : A -> bool) (l : list A) :
  (forall x, In x l -> f x = false) -> find f l = None.
Proof.
  induction l as [|y r IH]; simpl; intros H; [reflexivity|].
  rewrite (H y) by now left. apply IH. intros x Hx. apply H. now right.
Qed.

Lemma update_first_forall {A : Type} (Q : A -> Prop) p g (l : list A) :
  (forall x, Q (g x)) -> Forall Q l -> Forall Q (update_first p g l).
Proof.
  intros Hg. induction 1 as [|y r Hy Hr IH]; simpl; [constructor|].
  destruct (p y); constructor; auto.
Qed.

Lemma update_first_none {A : Type} (p : A -> bool) f (l : list A) :
  (forall x, In x l -> p x = false) -> update_first p f l = l.
Proof.
  induction l as [|y r IH]; simpl; intros H; [reflexivity|].
  rewrite (H y) by now left. f_equal. apply IH. intros x Hx. apply H.
  now right.
Qed.

Lemma findOneAndUpdate_eq p f l :
  Aliases_findOneAndUpdate p f l = (find p l, update_first p f l).
Proof.
  unfold Aliases_findOneAndUpdate. destruct (find p l) eqn:F; [reflexivity|].
  f_equal. symmetry. apply update_first_none. intros x Hx.
  exact (find_none _ _ F x Hx).
Qed.

Lemma update_first_In {A : Type} (p : A -> bool) f (l : list A) a :
  find p l = Some a -> In (f a) (update_first p f l).
Proof.
  induction l as [|y r IH]; simpl; [discriminate|].
  destruct (p y); [intros [= <-]; now left|]. intros H. right. now apply IH.
Qed.

Lemma existsb_id_update p v i l :
  existsb (fun b => String.eqb (Alias._id b) i)
          (update_first p (set_pgp_error_sent_at v) l) =
  existsb (fun b => String.eqb (Alias._id b) i) l.
Proof.
  induction l as [|y r IH]; simpl; [reflexivity|].
  destruct (p y); simpl; [reflexivity|]. now rewrite IH.
Qed.

(** The updates of the gate keep the primary key. *)
Lemma unique_ids_update p v l :
  unique_ids (update_first p (set_pgp_error_sent_at v) l) = unique_ids l.
Proof.
  induction l as [|y r IH]; simpl; [reflexivity|].
  destruct (p y); simpl; [reflexivity|].
  now rewrite existsb_id_update, IH.
Qed.

Lemma unique_id_eq l x y :
  unique_ids l = true -> In x l -> In y l ->
  Alias._id x = Alias._id y -> x = y.
Proof.
  induction l as [|z r IH]; simpl; [intros _ []|].
  intros Hu Hx Hy E. apply andb_true_iff in Hu. destruct Hu as [Hz Hr].
  apply negb_true_iff in Hz.
  assert (Hno : forall b, In b r -> Alias._id b = Alias._id z -> False).
  { intros b Hb Eb.
    assert (existsb (fun b => String.eqb (Alias._id b) (Alias._id z)) r = true).
    { apply existsb_exists. exists b. split; [assumption|].
      now apply String.eqb_eq. }
    congruence. }
  destruct Hx as [<-|Hx], Hy as [<-|Hy].
  - reflexivity.
  - exfalso. apply (Hno y Hy). congruence.
  - exfalso. apply (Hno x Hx). congruence.
  - now apply IH.
Qed.

(** Stamping again, by [_id], a document that carries the stamp already. *)
Lemma update_by_id_same now l a :
  unique_ids l = true -> In a l ->
  Alias.pgp_error_sent_at a = Some now ->
  update_first (fun x => String.eqb (Alias._id x) (Alias._id a))
               (set_pgp_error_sent_at (Some now)) l = l.
Proof.
  intros Hu Ha Hs. induction l as [|y r IH]; simpl; [reflexivity|].
  destruct (String.eqb (Alias._id y) (Alias._id a)) eqn:E.
  - apply String.eqb_eq in E.
    assert (y = a) by (apply (unique_id_eq (y :: r)); simpl; auto).
    subst y. destruct a as [i d t]. simpl in *. now subst t.
  - f_equal. simpl in Hu. apply andb_true_iff in Hu. destruct Hu as [_ Hr].
    apply IH; [exact Hr|]. destruct Ha as [->|Ha]; [|exact Ha].
    rewrite String.eqb_refl in E. discriminate.
Qed.

(** Once the throttling update has matched, every document of the owner
    carries the new timestamp. *)
Lemma stamped_after_update u now l a :
  unique_ids l = true ->
  find (alert_filter C u now) l = Some a ->
  stamped u now (update_first (alert_filter C u now)
                              (set_pgp_error_sent_at (Some now)) l).
Proof.
  unfold stamped. induction l as [|y r IH]; simpl; [discriminate|].
  intros Hu Hf. apply andb_true_iff in Hu. destruct Hu as [Hy Hr].
  assert (Hother : forall x, In x r -> alias_of u y = true ->
                             alias_of u x = true -> False).
  { intros x Hx Ay Ax. unfold alias_of in Ay, Ax.
    apply andb_true_iff in Ay, Ax. destruct Ay as [Ay _], Ax as [Ax _].
    apply String.eqb_eq in Ay, Ax.
    apply negb_true_iff in Hy.
    assert (existsb (fun b => String.eqb (Alias._id b) (Alias._id y)) r = true).
    { apply existsb_exists. exists x. split; [assumption|].
      apply String.eqb_eq. congruence. }
    congruence. }
  destruct (alert_filter C u now y) eqn:Fy.
  - constructor; [reflexivity|]. apply Forall_forall. intros x Hx Ax.
    exfalso. apply (Hother x Hx); [|assumption].
    unfold alert_filter in Fy. now apply andb_true_iff in Fy.
  - constructor; [|now apply IH]. intros Ay. exfalso.
    apply find_some in Hf. destruct Hf as [Ha Fa].
    apply (Hother a Ha Ay).
    unfold alert_filter in Fa. now apply andb_true_iff in Fa.
Qed.

Lemma pgp_alert_alerts_le s e w :
  (alerts (trace (pgp_alert C s e w)) <= alerts (trace w) + 1)%nat.
Proof.
  unfold pgp_alert. repeat break_match; simpl; rewrite ?alerts_emit; simpl; lia.
Qed.

(** An update selected by the alias of [v] leaves the documents of another
    alias as they are. *)
Lemma stamped_update_other u t p v l :
  (forall x, In x l -> p x = true -> alias_of u x = false) ->
  stamped u t l ->
  stamped u t (update_first p (set_pgp_error_sent_at v) l).
Proof.
  unfold stamped. induction l as [|y r IH]; simpl; intros Hp H;
    [constructor|].
  inversion H as [|? ? Hy Hr]; subst.
  destruct (p y) eqn:Py.
  - constructor; [|exact Hr]. intros Ay.
    change (alias_of u y = true) in Ay.
    rewrite (Hp y (or_introl eq_refl) Py) in Ay. discriminate.
  - constructor; [exact Hy|]. apply IH; [|exact Hr].
    intros x Hx. apply Hp. now right.
Qed.

Lemma same_alias_of u v a :
  same_alias u v = true -> alias_of v a = alias_of u a.
Proof.
  unfold same_alias, alias_of. intros H. apply andb_true_iff in H.
  destruct H as [H1 H2]. apply String.eqb_eq in H1, H2. now rewrite H1, H2.
Qed.

Lemma other_alias_of u v a :
  same_alias u v = false -> alias_of v a = true -> alias_of u a = false.
Proof.
  unfold same_alias, alias_of. intros H Hv.
  apply andb_true_iff in Hv. destruct Hv as [H1 H2].
  apply String.eqb_eq in H1, H2.
  destruct (String.eqb (Alias._id a) (alias_id u)) eqn:E1; [|reflexivity].
  destruct (String.eqb (Alias.domain a) (domain_id u)) eqn:E2; [|reflexivity].
  apply String.eqb_eq in E1, E2.
  rewrite <- H1, <- H2, E1, E2, !String.eqb_refl in H. discriminate.
Qed.

(** Whether an error of [encryptMessage] makes the gate try an alert. *)
Lemma pgp_alert_effect s e w :
  unique_ids (aliases w) = true ->
  (forall spec, email C spec = None) ->
  aliases (pgp_alert C s e w) =
    (if negb (isCodeBug C e) && negb (isRetryableError C e)
     then update_first (alert_filter C (user s) (clock w))
                       (set_pgp_error_sent_at (Some (clock w))) (aliases w)
     else aliases w) /\
  alerts (trace (pgp_alert C s e w)) =
    (alerts (trace w) +
     if negb (isCodeBug C e) && negb (isRetryableError C e)
     then match find (alert_filter C (user s) (clock w)) (aliases w) with
          | Some _ => 1
          | None => 0
          end
     else 0)%nat.
Proof.
  intros Hu Hmail. unfold pgp_alert.
  destruct (negb (isCodeBug C e) && negb (isRetryableError C e));
    [|split; [reflexivity|lia]].
  rewrite findOneAndUpdate_eq. simpl.
  destruct (find (alert_filter C (user s) (clock w)) (aliases w)) as [a|] eqn:F.
  - rewrite Hmail. simpl. rewrite findOneAndUpdate_eq. simpl.
    split; [|rewrite alerts_emit; simpl; lia].
    change (Alias._id a)
      with (Alias._id (set_pgp_error_sent_at (Some (clock w)) a)).
    apply update_by_id_same.
    + now rewrite unique_ids_update.
    + now apply update_first_In.
    + reflexivity.
  - simpl. split; [|lia]. reflexivity.
Qed.

(** What the gate does to the alias documents and how many alerts it hands
    to a mailer that accepts them. *)
Lemma gate_effect flags s raw w :
  unique_ids (aliases w) = true ->
  (forall spec, email C spec = None) ->
  aliases (fst (encryption_gate C flags s raw w)) =
    (if gate_condition flags s then
       match encryptMessage C (public_key s) raw with
       | inr _ =>
           update_first (stale_alert_filter (user s) (clock w))
                        (set_pgp_error_sent_at None) (aliases w)
       | inl e =>
           if negb (isCodeBug C e) && negb (isRetryableError C e)
           then update_first (alert_filter C (user s) (clock w))
                             (set_pgp_error_sent_at (Some (clock w)))
                             (aliases w)
           else aliases w
       end
     else aliases w) /\
  alerts (trace (fst (encryption_gate C flags s raw w))) =
    (alerts (trace w) +
     if gate_condition flags s then
       match encryptMessage C (public_key s) raw with
       | inr _ => 0
       | inl e =>
           if negb (isCodeBug C e) && negb (isRetryableError C e)
           then match find (alert_filter C (user s) (clock w)) (aliases w) with
                | Some _ => 1
                | None => 0
                end
           else 0
       end
     else 0)%nat.
Proof.
  intros Hu Hmail. unfold encryption_gate.
  destruct (gate_condition flags s); [|split; [reflexivity|simpl; lia]].
  destruct (encryptMessage C (public_key s) raw) as [e|r]; simpl.
  - destruct (pgp_alert_effect s e
                (emit (LogFatal e)
                      (emit (EncryptMessage (public_key s) raw) w)) Hu Hmail)
      as [H1 H2].
    simpl in H1, H2. rewrite H1, H2, !alerts_emit. simpl.
    split; [reflexivity|lia].
  - rewrite findOneAndUpdate_eq, alerts_emit. simpl.
    split; [reflexivity|lia].
Qed.

Local Opaque append_catch.

(** A call leaves the alias documents and the count of alerts as they were,
    or as the gate left them. *)
Lemma perform_gate c w :
  (aliases (fst (perform C c w)) = aliases w /\
   alerts (trace (fst (perform C c w))) = alerts (trace w)) \/
  (exists s,
     refreshSession C (set_clock (at_time c) w) (call_session c) "APPEND"
       = inr s /\
     aliases (fst (perform C c w)) =
       aliases (fst (encryption_gate C (call_flags c) s (call_raw c)
                                     (set_clock (at_time c) w))) /\
     alerts (trace (fst (perform C c w))) =
       alerts (trace (fst (encryption_gate C (call_flags c) s (call_raw c)
                                           (set_clock (at_time c) w))))).
Proof.
  unfold perform. rewrite (onAppend_direct C direct).
  unfold append_try. run_m.
  assert (Hcatch : forall st e,
            aliases (snd st) = aliases w ->
            alerts (trace (snd st)) = alerts (trace w) ->
            aliases (fst (append_catch C st e)) = aliases w /\
            alerts (trace (fst (append_catch C st e))) = alerts (trace w)).
  { intros st e H1 H2. destruct (catch_counts C st e) as [_ ->].
    destruct (catch_fields C st e _ eq_refl) as (_ & _ & _ & _ & -> & _).
    now split. }
  destruct (refreshSession C (set_clock (at_time c) w) (call_session c)
                           "APPEND") as [e|s]; simpl.
  { left. now apply Hcatch. }
  destruct (Aliases_isOverQuota C (set_clock (at_time c) w) (user s) 0)
    as [e|[su over]]; simpl.
  { left. now apply Hcatch. }
  destruct over; simpl.
  { left. now apply Hcatch. }
  destruct (Mailboxes_findOne (call_path c) (mailboxes w)) as [mb|]; simpl.
  2:{ left. now apply Hcatch. }
  right. exists s. split; [reflexivity|].
  destruct (after_gate_counts C (call_flags c) (call_date c) s su mb
              (snd (encryption_gate C (call_flags c) s (call_raw c)
                                    (set_clock (at_time c) w)))
              (set_session s (frame0 (call_session c)))
              (fst (encryption_gate C (call_flags c) s (call_raw c)
                                    (set_clock (at_time c) w))))
    as (_ & H1 & H2).
  split; assumption.
Qed.

Local Transparent append_catch.

(** One call of a run, for the alias of [u]: the primary key is kept; the
    call hands no alert to the mailer for that alias, or one, and then
    leaves its documents stamped with the time of the call; and when they
    were stamped before, within the calendar day and with no successful
    encryption an hour or more later, it hands none and leaves the stamp. *)
Lemma perform_alerts u c w :
  unique_ids (aliases w) = true ->
  (forall spec, email C spec = None) ->
  let d :=
    match refreshSession C (set_clock (at_time c) w) (call_session c)
                         "APPEND" with
    | inr s =>
        if same_alias u (user s)
        then (alerts (trace (fst (perform C c w))) - alerts (trace w))%nat
        else 0%nat
    | inl _ => 0%nat
    end in
  unique_ids (aliases (fst (perform C c w))) = true /\
  (d = 0%nat \/
   d = 1%nat /\ stamped u (at_time c) (aliases (fst (perform C c w)))) /\
  (forall t',
     stamped u t' (aliases w) ->
     subtract_day C (at_time c) < t' ->
     (forall v s raw',
        refreshSession C v (call_session c) "APPEND" = inr s ->
        same_alias u (user s) = true ->
        gate_condition (call_flags c) s = true ->
        encryptMessage C (public_key s) (call_raw c) = inr raw' ->
        at_time c - ONE_HOUR < t') ->
     d = 0%nat /\ stamped u t' (aliases (fst (perform C c w)))).
Proof.
  intros Hu Hmail d.
  destruct (perform_gate c w) as [[Ha Hc] | (s & Hs & Ha & Hc)].
  { assert (Hd : d = 0%nat).
    { unfold d. rewrite Hc, Nat.sub_diag.
      destruct (refreshSession C _ _ _); [reflexivity|].
      now destruct (same_alias u (user s)). }
    rewrite Ha. split; [exact Hu|]. split; [now left|].
    intros t' Hst _ _. now split. }
  destruct (gate_effect (call_flags c) s (call_raw c)
              (set_clock (at_time c) w) Hu Hmail) as [Ga Gc].
  simpl in Ga, Gc.
  assert (Hd : d = if same_alias u (user s)
                   then (alerts (trace (fst (perform C c w)))
                         - alerts (trace w))%nat
                   else 0%nat) by (unfold d; now rewrite Hs).
  clearbody d. rewrite Hc, Gc in Hd. rewrite Ha, Ga. clear Ha Hc Ga Gc.
  destruct (gate_condition (call_flags c) s) eqn:G.
  2:{ replace d with 0%nat
        by (rewrite Hd; destruct (same_alias u (user s)); lia).
      split; [exact Hu|]. split; [now left|]. intros t' Hst _ _. now split. }
  destruct (encryptMessage C (public_key s) (call_raw c)) as [e|raw'] eqn:En.
  - (* the encryption failed *)
    destruct (negb (isCodeBug C e) && negb (isRetryableError C e)).
    2:{ replace d with 0%nat
          by (rewrite Hd; destruct (same_alias u (user s)); lia).
        split; [exact Hu|]. split; [now left|].
        intros t' Hst _ _. now split. }
    split; [now rewrite unique_ids_update|].
    destruct (same_alias u (user s)) eqn:Same.
    + (* for the alias of [u] *)
      destruct (find (alert_filter C (user s) (at_time c)) (aliases w))
        as [a|] eqn:F.
      * split.
        -- right. split; [rewrite Hd; lia|].
           pose proof (stamped_after_update (user s) (at_time c) (aliases w)
                         a Hu F) as St.
           unfold stamped in *. eapply Forall_impl; [|exact St].
           intros x Hx Ax. apply Hx.
           now rewrite (same_alias_of u (user s) x Same).
        -- intros t' Hst Hwin _. exfalso.
           apply find_some in F. destruct F as [Hin Hf].
           unfold alert_filter in Hf. apply andb_prop in Hf.
           destruct Hf as [Af Tf].
           unfold stamped in Hst. rewrite Forall_forall in Hst.
           rewrite (same_alias_of u (user s) a Same) in Af.
           rewrite (Hst a Hin Af) in Tf. apply Z.leb_le in Tf. lia.
      * assert (Hsame : update_first (alert_filter C (user s) (at_time c))
                          (set_pgp_error_sent_at (Some (at_time c)))
                          (aliases w) = aliases w).
        { apply update_first_none. intros x Hx.
          exact (find_none _ _ F x Hx). }
        rewrite Hsame. split; [left; rewrite Hd; lia|].
        intros t' Hst _ _. split; [rewrite Hd; lia | exact Hst].
    + (* for another alias *)
      split; [now left|]. intros t' Hst _ _. split; [exact Hd|].
      apply stamped_update_other; [|exact Hst].
      intros x _ Px. unfold alert_filter in Px. apply andb_prop in Px.
      exact (other_alias_of u (user s) x Same (proj1 Px)).
  - (* the encryption succeeded *)
    replace d with 0%nat
      by (rewrite Hd; destruct (same_alias u (user s)); lia).
    split; [now rewrite unique_ids_update|]. split; [now left|].
    intros t' Hst _ Hclear. split; [reflexivity|].
    destruct (same_alias u (user s)) eqn:Same.
    + rewrite update_first_none; [exact Hst|].
      intros x Hx. unfold stale_alert_filter.
      destruct (alias_of (user s) x) eqn:Ax; [|reflexivity]. simpl.
      unfold stamped in Hst. rewrite Forall_forall in Hst.
      rewrite (same_alias_of u (user s) x Same) in Ax.
      rewrite (Hst x Hx Ax). apply Z.leb_gt.
      specialize (Hclear _ s raw' Hs Same G En). simpl. lia.
    + apply stamped_update_other; [|exact Hst].
      intros x _ Px. unfold stale_alert_filter in Px. apply andb_prop in Px.
      exact (other_alias_of u (user s) x Same (proj1 Px)).
Qed.

(** Once the documents of the alias are stamped, no append within the
    calendar day hands another alert to the mailer. *)
Lemma stamped_run_is_silent u t' calls : forall w,
  unique_ids (aliases w) = true ->
  (forall spec, email C spec = None) ->
  stamped u t' (aliases w) ->
  (forall c, In c calls -> subtract_day C (at_time c) < t') ->
  (forall c, In c calls -> forall v s raw',
     refreshSession C v (call_session c) "APPEND" = inr s ->
     same_alias u (user s) = true ->
     gate_condition (call_flags c) s = true ->
     encryptMessage C (public_key s) (call_raw c) = inr raw' ->
     at_time c - ONE_HOUR < t') ->
  alerts_for C u calls w = 0%nat.
Proof.
  induction calls as [|c rest IH]; intros w Hu Hmail Hst Hwin Hclear;
    [reflexivity|].
  destruct (perform_alerts u c w Hu Hmail) as (Hu' & _ & H).
  destruct (H t' Hst (Hwin c (or_introl eq_refl))
              (Hclear c (or_introl eq_refl))) as [Hd Hst'].
  simpl. rewrite Hd. simpl. apply IH; try assumption.
  - intros c' Hc'. apply Hwin. now right.
  - intros c' Hc'. apply Hclear. now right.
Qed.

(** C8 (as amended). In any sequence of appends run one after the other on
    the same storage, all of them within one calendar day of the instant
    [t1] - none before [t1], and [dayjs().subtract(1, 'day')] of each lying
    before [t1] -, the appends made for one alias hand at most one alert
    email to the mailer, however many of them fail to encrypt and whatever
    other appends run in between, provided the mailer accepts the alert and
    no append for that alias whose encryption succeeds comes an hour or
    more after [t1]. *)
Theorem C8_alert_throttle u t1 calls : forall w,
  unique_ids (aliases w) = true ->
  (forall spec, email C spec = None) ->
  (forall c, In c calls ->
     t1 <= at_time c /\ subtract_day C (at_time c) < t1) ->
  (forall c, In c calls -> forall v s raw',
     refreshSession C v (call_session c) "APPEND" = inr s ->
     same_alias u (user s) = true ->
     gate_condition (call_flags c) s = true ->
     encryptMessage C (public_key s) (call_raw c) = inr raw' ->
     at_time c - ONE_HOUR < t1) ->
  (alerts_for C u calls w <= 1)%nat.
Proof.
  induction calls as [|c rest IH]; intros w Hu Hmail Hwin Hclear;
    [simpl; lia|].
  destruct (perform_alerts u c w Hu Hmail) as (Hu' & [Hd | [Hd Hst]] & _).
  - simpl. rewrite Hd. simpl. apply IH; try assumption.
    + intros c' Hc'. apply Hwin. now right.
    + intros c' Hc'. apply Hclear. now right.
  - simpl. rewrite Hd.
    rewrite (stamped_run_is_silent u (at_time c) rest _ Hu' Hmail Hst);
      [lia| |].
    + intros c' Hc'.
      destruct (Hwin c (or_introl eq_refl)) as [H1 _].
      destruct (Hwin c' (or_intror Hc')) as [_ H2]. lia.
    + intros c' Hc' v s raw' Hs Same G En.
      destruct (Hwin c (or_introl eq_refl)) as [H1 _].
      pose proof (Hclear c' (or_intror Hc') v s raw' Hs Same G En). lia.
Qed.

End Throttle.

(** ** Cleanup of stored attachments *)

Section Cleanup.

Variable C : Collaborators.
Hypothesis direct : wsp C = None.

(** What the handler's variables hold once [hasNodeBodies] is assigned:
    this run called [storeNodeBodies], [hasNodeBodies] is what it returned,
    [maildata] what it was given and [mimeTreeData] the tree it left. *)
Lemma frame_after_store path flags date raw session w st r b :
  append_try C path flags date raw session (frame0 session, w) = (st, r) ->
  hasNodeBodies (fst st) = Some b ->
  exists s p,
    let md := getMaildata C (Prepared.mimeTree p) in
    let sn := storeNodeBodies C (blobs w) s md (Prepared.mimeTree p) in
    snd sn = inr b /\
    maildata (fst st) = Some md /\
    mimeTreeData (fst st) = Some (snd (fst sn)).
Proof.
  unfold append_try, append_after_gate. run_m.
  destruct (refreshSession C w session "APPEND") as [e|s]; simpl;
    [intros [= <- <-]; discriminate|].
  destruct (Aliases_isOverQuota C w (user s) 0) as [e|[su over]]; simpl;
    [intros [= <- <-]; discriminate|].
  destruct over; simpl; [intros [= <- <-]; discriminate|].
  destruct (Mailboxes_findOne path (mailboxes w)) as [mb|]; simpl;
    [|intros [= <- <-]; discriminate].
  destruct (gate_store C flags s raw w) as (_ & _ & _ & Gb & _).
  destruct (prepareMessage C flags date _) as [e|p]; simpl;
    [intros [= <- <-]; discriminate|].
  intros H Hb. exists s, p. revert H Hb.
  unfold append_store, store_node_bodies, allocate, get_thread,
    Messages_create, notifier_addEntries. run_m.
  repeat (break_inner; simpl); intros [= <- <-]; simpl;
    try discriminate; intros [= <-]; rewrite Gb in *;
    repeat split; assumption.
Qed.

(** C9 (as amended). When the [try] block raises [e] after this run's
    [storeNodeBodies] reported stored bodies and left them recorded in the
    tree's attachment map, every blob of the map is handed to [deleteMany]
    before the callback receives the translated error; a failure of
    [deleteMany] is logged and the callback still receives the translation
    of [e]. *)
Theorem C9_cleanup_before_error
    path flags date raw session w fr w1 e tree map :
  append_try C path flags date raw session (frame0 session, w)
    = ((fr, w1), inl e) ->
  hasNodeBodies fr = Some true ->
  mimeTreeData fr = Some tree ->
  MimeTree.attachmentMap tree = Some map ->
  map <> [] ->
  exists md,
    maildata fr = Some md /\
    (exists s p,
       md = getMaildata C (Prepared.mimeTree p) /\
       snd (storeNodeBodies C (blobs w) s md (Prepared.mimeTree p))
         = inr true /\
       snd (fst (storeNodeBodies C (blobs w) s md (Prepared.mimeTree p)))
         = tree) /\
    let ids := List.map (fun key => lookup key map) (List.map fst map) in
    let d := attachmentStorage_deleteMany C (blobs w1) (fr_session fr) ids
                                          (Maildata.magic md) in
    let cleaned :=
      set_blobs (fst d) (emit (DeleteMany ids (Maildata.magic md)) w1) in
    onAppend C path flags date raw session w =
    (match snd d with
     | Some e' => emit (LogFatal e') cleaned
     | None => cleaned
     end,
     FnError (refineAndLogError C e (fr_session fr))).
Proof.
  intros Hrun Hh Ht Hm Hne.
  destruct (frame_after_store _ _ _ _ _ _ _ _ _ Hrun Hh)
    as (s & p & Hsn & Hmd & Htree).
  simpl in Hmd, Htree.
  exists (getMaildata C (Prepared.mimeTree p)). split; [exact Hmd|]. split.
  { exists s, p. split; [reflexivity|]. split; [exact Hsn|]. congruence. }
  unfold onAppend. rewrite direct, Hrun. unfold finish, append_catch.
  simpl. unfold attachmentIds. rewrite Hh, Ht, Hm, Hmd.
  destruct map as [|kv rest]; [congruence|]. simpl.
  destruct (snd (attachmentStorage_deleteMany C _ _ _ _)); reflexivity.
Qed.

End Cleanup.

(** ** The properties on the concrete instance *)

(** Counterexample to C1 as stated: the second delivery of the same note,
    with [checkForExisting] set, finds the stored message and answers with
    status ["new"], not ["existing"]. *)
Lemma C1_counterexample :
  Messages_findOne "htext" "m1" (messages Sample.delivered) <> None /\
  onAppend Sample.collaborators "INBOX" [] 5 Sample.note
           (Sample.session_of Sample.owner true) Sample.delivered =
  (Sample.delivered,
   FnOk true
     {| Response.uidValidity := 1; Response.uid := 7; Response.id := "x1";
        Response.mailbox := "m1"; Response.mailboxPath := "INBOX";
        Response.size := 3; Response.status := "new" |}) /\
  "new" <> "existing".
Proof.
  split; [vm_compute; discriminate|]. split; [vm_compute; reflexivity|].
  discriminate.
Qed.

Lemma C1_witness :
  onAppend Sample.collaborators "INBOX" [] 5 Sample.note
           (Sample.session_of Sample.owner true) Sample.delivered =
  (Sample.delivered,
   FnOk true
     {| Response.uidValidity := 1; Response.uid := 7; Response.id := "x1";
        Response.mailbox := "m1"; Response.mailboxPath := "INBOX";
        Response.size := 3; Response.status := "new" |}) /\
  same_store Sample.delivered Sample.delivered.
Proof.
  exact (C1_dedup_returns_existing Sample.collaborators eq_refl
           "INBOX" [] 5 Sample.note (Sample.session_of Sample.owner true)
           Sample.delivered (Sample.session_of Sample.owner true) 0
           _ _ _ eq_refl eq_refl eq_refl eq_refl eq_refl eq_refl).
Defined.

Lemma C2_witness :
  exists pre post m,
    mailbox_by_id "m1" Sample.world = Some pre /\
    mailbox_by_id "m1"
      (fst (onAppend Sample.collaborators "INBOX" ["\Seen"] 5 Sample.note
                     Sample.session Sample.world)) = Some post /\
    Mailbox.uidNext post = Mailbox.uidNext pre + 1 /\
    Mailbox.modifyIndex post = Mailbox.modifyIndex pre + 1 /\
    Message.uid m = Mailbox.uidNext pre /\
    Message.modseq m = Mailbox.modifyIndex pre + 1.
Proof.
  destruct (C2_identifier_allocation Sample.collaborators eq_refl
              "INBOX" ["\Seen"] 5 Sample.note Sample.session Sample.world
              (fst (onAppend Sample.collaborators "INBOX" ["\Seen"] 5
                             Sample.note Sample.session Sample.world))
              true
              {| Response.uidValidity := 1; Response.uid := 7;
                 Response.id := "x1"; Response.mailbox := "m1";
                 Response.mailboxPath := "INBOX"; Response.size := 3;
                 Response.status := "new" |})
    as (pre & post & m & H1 & _ & H3 & H4 & H5 & _ & _ & H8 & H9 & _).
  - vm_compute. reflexivity.
  - vm_compute. discriminate.
  - exists pre, post, m. repeat split; assumption.
Defined.

Lemma C3_witness :
  snd (run Sample.collaborators Sample.calls Sample.world) =
    [FnOk true {| Response.uidValidity := 1; Response.uid := 7;
                  Response.id := "x1"; Response.mailbox := "m1";
                  Response.mailboxPath := "INBOX"; Response.size := 3;
                  Response.status := "new" |};
     FnOk true {| Response.uidValidity := 1; Response.uid := 3;
                  Response.id := "x1"; Response.mailbox := "m2";
                  Response.mailboxPath := "Drafts"; Response.size := 3;
                  Response.status := "new" |};
     FnError (mkErr "ValidationError" "flags" None);
     FnOk true {| Response.uidValidity := 1; Response.uid := 9;
                  Response.id := "x1"; Response.mailbox := "m1";
                  Response.mailboxPath := "INBOX"; Response.size := 3;
                  Response.status := "new" |}] /\
  exists m1 m2,
    Message.uid m1 = 7 /\ Message.uid m2 = 9 /\
    Message.uid m1 < Message.uid m2 /\
    Message.modseq m1 < Message.modseq m2.
Proof.
  split; [vm_compute; reflexivity|].
  destruct (C3_identifiers_strictly_increase Sample.collaborators eq_refl
              [Sample.call 2000 "Drafts" [] Sample.photo Sample.session;
               Sample.call 3000 "INBOX" ["\Invalid"] Sample.photo
                           Sample.session]
              Sample.world) as (_ & _ & H).
  destruct (H (Sample.call 1000 "INBOX" [] Sample.note Sample.session)
              (Sample.call 4000 "INBOX" ["\Seen"] Sample.note Sample.session)
              true
              {| Response.uidValidity := 1; Response.uid := 7;
                 Response.id := "x1"; Response.mailbox := "m1";
                 Response.mailboxPath := "INBOX"; Response.size := 3;
                 Response.status := "new" |}
              true
              {| Response.uidValidity := 1; Response.uid := 9;
                 Response.id := "x1"; Response.mailbox := "m1";
                 Response.mailboxPath := "INBOX"; Response.size := 3;
                 Response.status := "new" |}
              ltac:(vm_compute; reflexivity) ltac:(vm_compute; discriminate)
              ltac:(vm_compute; reflexivity) ltac:(vm_compute; discriminate)
              eq_refl)
    as (m1 & m2 & _ & _ & U1 & U2 & L1 & L2).
  exists m1, m2. simpl in U1, U2. repeat split; auto.
Defined.

Lemma C4_witness :
  (exists w',
     onAppend (Sample.instance (Sample.quota - 3)) "INBOX" [] 5 Sample.photo
              Sample.session Sample.world =
     (w', FnOk true
            {| Response.uidValidity := 1; Response.uid := 7;
               Response.id := "x1"; Response.mailbox := "m1";
               Response.mailboxPath := "INBOX"; Response.size := 3;
               Response.status := "new" |})) /\
  onAppend (Sample.instance (Sample.quota - 2)) "INBOX" [] 5 Sample.photo
           Sample.session Sample.world =
  (Sample.world,
   FnError (IMAPError "IMAP_MAILBOX_MESSAGE_EXCEEDS_QUOTA" (Some "OVERQUOTA"))).
Proof.
  split.
  - destruct (proj1 (C4_quota_boundary (Sample.instance (Sample.quota - 3))
                       eq_refl "INBOX" [] 5 Sample.photo Sample.session
                       Sample.world Sample.session (Sample.quota - 3)
                       Sample.inbox _ Sample.quota
                       eq_refl eq_refl eq_refl eq_refl eq_refl eq_refl)
                eq_refl true Sample.inbox _ _
                eq_refl eq_refl eq_refl eq_refl
                (fun _ _ => eq_refl) (fun _ _ => eq_refl))
      as (w' & H & _).
    exists w'. exact H.
  - exact (proj1 (proj2 (C4_quota_boundary
                           (Sample.instance (Sample.quota - 2))
                           eq_refl "INBOX" [] 5 Sample.photo Sample.session
                           Sample.world Sample.session (Sample.quota - 2)
                           Sample.inbox _ Sample.quota
                           eq_refl eq_refl eq_refl eq_refl eq_refl eq_refl)
                        ltac:(vm_compute; discriminate))).
Defined.

Lemma C5_witness :
  onAppend Sample.frontend "INBOX" [] 5 Sample.oversized Sample.session
           Sample.world =
  (Sample.world,
   FnError (IMAPError "IMAP_MESSAGE_SIZE_EXCEEDED" None)).
Proof.
  refine (C5_frontend_rejects_oversized Sample.frontend _ "INBOX" [] 5
            Sample.oversized Sample.session Sample.world eq_refl _).
  rewrite oversized_length. reflexivity.
Defined.

Lemma C6_witness :
  fst (onAppend Sample.collaborators "Archive" [] 5 Sample.note Sample.session
                Sample.world) = Sample.world /\
  snd (onAppend Sample.collaborators "Archive" [] 5 Sample.note Sample.session
                Sample.world) =
  FnError (IMAPError "IMAP_MAILBOX_DOES_NOT_EXIST" (Some "TRYCREATE")).
Proof.
  destruct (C6_missing_mailbox_trycreate Sample.collaborators eq_refl
              "Archive" [] 5 Sample.note Sample.session Sample.world eq_refl)
    as (H1 & _ & H3).
  split; [exact H1|]. exact (H3 Sample.session 0 eq_refl eq_refl).
Defined.

(** Counterexample to C6 as stated: the quota is checked before the
    mailbox is looked up, so an owner above the quota who appends to a
    path that names no mailbox is answered with OVERQUOTA. *)
Lemma C6_counterexample :
  Mailboxes_findOne "Archive" (mailboxes Sample.world) = None /\
  onAppend (Sample.instance (Sample.quota + 1)) "Archive" [] 5 Sample.note
           Sample.session Sample.world =
  (Sample.world,
   FnError (IMAPError "IMAP_MAILBOX_OVER_QUOTA" (Some "OVERQUOTA"))) /\
  imapResponse (IMAPError "IMAP_MAILBOX_OVER_QUOTA" (Some "OVERQUOTA"))
    <> Some "TRYCREATE".
Proof.
  split; [reflexivity|]. split; [vm_compute; reflexivity | discriminate].
Qed.

(** Counterexample to C7 as stated: the message is not flagged [\Draft]
    and the owner has PGP enabled and a key, but the owner is above the
    quota: the append fails before the gate and [encryptMessage] is never
    called. *)
Lemma C7_counterexample :
  gate_condition [] (Sample.session_of (Sample.owner_with_key "good") false)
    = true /\
  encryptions
    (trace (fst (onAppend (Sample.instance (Sample.quota + 1)) "INBOX" [] 5
                   Sample.note
                   (Sample.session_of (Sample.owner_with_key "good") false)
                   Sample.world))) = 0%nat.
Proof. split; vm_compute; reflexivity. Qed.

Lemma C7_witness :
  encryptions
    (trace (fst (onAppend Sample.collaborators "INBOX" [] 5 Sample.note
                   (Sample.session_of (Sample.owner_with_key "broken") false)
                   Sample.world))) = 1%nat /\
  exists w' m,
    onAppend Sample.collaborators "INBOX" [] 5 Sample.note
             (Sample.session_of (Sample.owner_with_key "broken") false)
             Sample.world =
    (w', FnOk true
           {| Response.uidValidity := 1; Response.uid := 7;
              Response.id := "x1"; Response.mailbox := "m1";
              Response.mailboxPath := "INBOX"; Response.size := 3;
              Response.status := "new" |}) /\
    messages w' = [m] /\
    Message.size m = raw_length Sample.note /\
    MimeTree.body (Message.mimeTree m) = "text".
Proof.
  destruct (C7_encryption_gate Sample.collaborators eq_refl "INBOX" [] 5
              Sample.note
              (Sample.session_of (Sample.owner_with_key "broken") false)
              Sample.world) as (H1 & _ & H3).
  split.
  - exact (H1 (Sample.session_of (Sample.owner_with_key "broken") false) 0
              Sample.inbox eq_refl eq_refl eq_refl).
  - destruct (H3 (Sample.session_of (Sample.owner_with_key "broken") false)
                 0 Sample.inbox (mkErr "Error" "invalid key" None)
                 eq_refl eq_refl eq_refl eq_refl eq_refl) as [_ H].
    destruct (H {| Prepared.id := "x1";
                   Prepared.mimeTree := Sample.tree Sample.note;
                   Prepared.size := 3; Prepared.bodystructure := "";
                   Prepared.envelope := ""; Prepared.idate := 5;
                   Prepared.hdate := 5; Prepared.msgid := "<1@example.com>";
                   Prepared.subject := "hello"; Prepared.headers := "h" |}
                Sample.quota true Sample.inbox
                {| Thread._id := "t1"; Thread.key := "hello" |} []
                eq_refl eq_refl eq_refl ltac:(vm_compute; discriminate)
                eq_refl eq_refl eq_refl eq_refl
                (fun _ _ => eq_refl) (fun _ _ => eq_refl))
      as (w' & E & Hm & _).
    exists w'. eexists. split; [exact E|]. split; [exact Hm|].
    split; reflexivity.
Defined.

Lemma C8_witness :
  (alerts_for Sample.collaborators (Sample.owner_with_key "broken")
              Variants.burst Sample.world <= 1)%nat.
Proof.
  refine (C8_alert_throttle Sample.collaborators eq_refl
            (Sample.owner_with_key "broken") 1000 Variants.burst
            Sample.world eq_refl (fun _ => eq_refl) _ _).
  - intros c [<-|[<-|[<-|[<-|[<-|[]]]]]]; vm_compute;
      (split; [discriminate | reflexivity]).
  - intros c [<-|[<-|[<-|[<-|[<-|[]]]]]] v s raw'; simpl;
      intros [= <-]; vm_compute; intros; try discriminate; reflexivity.
Defined.

(** Counterexample to C9 as stated: [storeNodeBodies] stores a blob and
    then rejects, so [hasNodeBodies] is never assigned; the [catch] block
    finds no identifiers to delete, and the blob stored for this append is
    still there when the callback receives the error. *)
Lemma C9_counterexample :
  exists w',
    onAppend Variants.half_stored "INBOX" [] 5 Sample.photo Sample.session
             Sample.world = (w', FnError Variants.down) /\
    blobs Sample.world = [] /\
    blobs w' = [("b1", 1)] /\
    trace w' = [].
Proof. eexists. vm_compute. repeat split; reflexivity. Qed.

Lemma C9_witness :
  exists w2,
    onAppend Sample.collaborators "INBOX" ["\Invalid"] 5 Sample.photo
             Sample.session Sample.world =
    (w2, FnError (mkErr "ValidationError" "flags" None)) /\
    blobs w2 = [] /\
    trace w2 = [DeleteMany ["b1"] 42].
Proof.
  destruct (C9_cleanup_before_error Sample.collaborators eq_refl
              "INBOX" ["\Invalid"] 5 Sample.photo Sample.session Sample.world
              _ _ _ _ _ eq_refl eq_refl eq_refl eq_refl
              ltac:(discriminate)) as (md & Hmd & _ & H).
  injection Hmd as <-. eexists. split; [exact H|]. split; reflexivity.
Defined.

Lemma C10_witness :
  exists m,
    messages (fst (onAppend Sample.collaborators "Drafts" [] 5 Sample.photo
                            Sample.session Sample.world)) =
      messages Sample.world ++ [m] /\
    Message.mailbox m = "m2" /\
    includes "\Draft" (Message.flags m) = true.
Proof.
  exact (C10_drafts_mailbox_sets_draft_flag Sample.collaborators eq_refl
           "Drafts" [] 5 Sample.photo Sample.session Sample.world
           (fst (onAppend Sample.collaborators "Drafts" [] 5 Sample.photo
                          Sample.session Sample.world))
           true
           {| Response.uidValidity := 1; Response.uid := 3;
              Response.id := "x1"; Response.mailbox := "m2";
              Response.mailboxPath := "Drafts"; Response.size := 3;
              Response.status := "new" |}
           Sample.drafts eq_refl ltac:(vm_compute; discriminate)
           eq_refl eq_refl).
Defined.

(** Counterexample to C8 as stated: a failure, a successful encryption two
    hours later (which clears the timestamp, being more than an hour old),
    and a failure one hour after that: two failures three hours apart, two
    alert emails.  And where the same time on the previous calendar day is
    23 hours back, two failures 23 and a half hours apart, with nothing in
    between, send an alert each. *)
Lemma C8_counterexample :
  encryptMessage Sample.collaborators "broken" Sample.note
    = inl (mkErr "Error" "invalid key" None) /\
  isCodeBug Sample.collaborators (mkErr "Error" "invalid key" None) = false /\
  isRetryableError Sample.collaborators (mkErr "Error" "invalid key" None)
    = false /\
  3 * ONE_HOUR - 0 < 24 * ONE_HOUR /\
  alerts (trace (fst (run Sample.collaborators Sample.flapping Sample.world)))
    = 2%nat /\
  (1000 + 23 * ONE_HOUR + 1800000) - 1000 < 24 * ONE_HOUR /\
  alerts (trace (fst (run Variants.short_day Variants.overnight Sample.world)))
    = 2%nat.
Proof. vm_compute. repeat split; reflexivity. Qed.

(** * Further properties of the handler *)

(** ** What a stored message is made of *)

Section StoredInversion.

Variable C : Collaborators.
Hypothesis direct : wsp C = None.

Lemma catch_messages st e :
  messages (fst (append_catch C st e)) = messages (snd st).
Proof. now destruct (catch_fields C st e _ eq_refl) as (_ & H & _). Qed.

Local Opaque append_catch.

Lemma append_store_inversion flags s found p fp fr w :
  let md := getMaildata C (Prepared.mimeTree p) in
  let sn := storeNodeBodies C (blobs w) s md (Prepared.mimeTree p) in
  messages (fst (finish C (append_store C flags s found p fp (fr, w))))
    <> messages w ->
  exists alloc th ths hb,
    snd sn = inr hb /\
    mailbox_by_id (Mailbox._id found) w = Some alloc /\
    Threads_getThreadId C (threads w) s (Prepared.subject p) (snd (fst sn))
      = inr (th, ths) /\
    Messages_validate C
      (message_data C s flags found alloc p (snd (fst sn)) md fp (clock w) th)
      = None /\
    messages (fst (finish C (append_store C flags s found p fp (fr, w)))) =
      messages w ++
      [message_data C s flags found alloc p (snd (fst sn)) md fp (clock w) th]
    /\
    forall ok r,
      snd (finish C (append_store C flags s found p fp (fr, w))) = FnOk ok r ->
      ok = true /\
      r = {| Response.uidValidity := Mailbox.uidValidity alloc;
             Response.uid := Mailbox.uidNext alloc;
             Response.id := Prepared.id p;
             Response.mailbox := Mailbox._id alloc;
             Response.mailboxPath := Mailbox.path alloc;
             Response.size := Prepared.size p;
             Response.status := "new" |}.
Proof.
  intros md sn.
  unfold append_store, store_node_bodies, allocate, get_thread,
    Messages_create, notifier_addEntries. run_m. fold md. fold sn.
  destruct (snd sn) as [e|hb] eqn:Hs; simpl.
  { rewrite catch_messages. simpl. congruence. }
  rewrite findByIdAndUpdate_before. unfold mailbox_by_id.
  destruct (find (has_id (Mailbox._id found)) (mailboxes w)) as [alloc|] eqn:Hf;
    simpl.
  2:{ rewrite catch_messages. simpl. congruence. }
  destruct (Threads_getThreadId C _ _ _ _) as [e|[t ths]] eqn:Ht; simpl.
  { rewrite catch_messages. simpl. congruence. }
  destruct (Messages_validate C _) eqn:Hv; simpl.
  { rewrite catch_messages. simpl. congruence. }
  intros _. exists alloc, t, ths, hb.
  repeat (split; [first [reflexivity | assumption]|]).
  split.
  - repeat (break_inner; simpl); rewrite ?catch_messages; simpl;
      rewrite ?update_storage_messages; reflexivity.
  - repeat (break_inner; simpl); try discriminate;
      intros ok r [= <- <-]; split; reflexivity.
Qed.

Local Opaque append_store.

Lemma after_gate_inversion flags date s su mb raw fr w :
  messages (fst (finish C (append_after_gate C flags date s su mb raw (fr, w))))
    <> messages w ->
  exists p max,
    prepareMessage C flags date raw = inr p /\
    Domains_getMaxQuota C (domain_id (user s)) = inr max /\
    su + Prepared.size p <= max /\
    (if checkForExisting s
     then Messages_findOne
            (getFingerprint C s (Prepared.headers p)
                            (MimeTree.body (Prepared.mimeTree p)))
            (Mailbox._id mb) (messages w)
     else None) = None /\
    exists fr',
      finish C (append_after_gate C flags date s su mb raw (fr, w)) =
      finish C (append_store C flags s mb p
                  (getFingerprint C s (Prepared.headers p)
                     (MimeTree.body (Prepared.mimeTree p))) (fr', w)).
Proof.
  unfold append_after_gate. run_m.
  destruct (prepareMessage C flags date raw) as [e|p]; simpl.
  { rewrite catch_messages. simpl. congruence. }
  destruct (Domains_getMaxQuota C (domain_id (user s))) as [e|max] eqn:Hmax.
  all: destruct (checkForExisting s); simpl;
    try destruct (Messages_findOne _ _ _) eqn:Hfind; simpl;
    try congruence; rewrite ?catch_messages; simpl; try congruence.
  all: destruct (su + Prepared.size p >? max) eqn:Hq; simpl;
    rewrite ?catch_messages; simpl; try congruence.
  all: intros _; exists p, max;
    repeat (split; [first [reflexivity|assumption|lia]|]);
    eexists; reflexivity.
Qed.

Local Opaque append_after_gate.

(** Every run that stores a message went through all the steps, and the
    message is the document computed from what they returned. *)
Lemma stored_inversion path flags date raw session w :
  messages (fst (onAppend C path flags date raw session w)) <> messages w ->
  exists s su found p max alloc th ths hb,
    let g := encryption_gate C flags s raw w in
    let fp := getFingerprint C s (Prepared.headers p)
                             (MimeTree.body (Prepared.mimeTree p)) in
    let md := getMaildata C (Prepared.mimeTree p) in
    let sn := storeNodeBodies C (blobs w) s md (Prepared.mimeTree p) in
    refreshSession C w session "APPEND" = inr s /\
    Aliases_isOverQuota C w (user s) 0 = inr (su, false) /\
    Mailboxes_findOne path (mailboxes w) = Some found /\
    prepareMessage C flags date (snd g) = inr p /\
    (if checkForExisting s
     then Messages_findOne fp (Mailbox._id found) (messages w)
     else None) = None /\
    Domains_getMaxQuota C (domain_id (user s)) = inr max /\
    su + Prepared.size p <= max /\
    snd sn = inr hb /\
    mailbox_by_id (Mailbox._id found) w = Some alloc /\
    Threads_getThreadId C (threads w) s (Prepared.subject p) (snd (fst sn))
      = inr (th, ths) /\
    Messages_validate C
      (message_data C s flags found alloc p (snd (fst sn)) md fp (clock w) th)
      = None /\
    messages (fst (onAppend C path flags date raw session w)) =
      messages w ++
      [message_data C s flags found alloc p (snd (fst sn)) md fp (clock w) th]
    /\
    forall ok r,
      snd (onAppend C path flags date raw session w) = FnOk ok r ->
      ok = true /\
      r = {| Response.uidValidity := Mailbox.uidValidity alloc;
             Response.uid := Mailbox.uidNext alloc;
             Response.id := Prepared.id p;
             Response.mailbox := Mailbox._id alloc;
             Response.mailboxPath := Mailbox.path alloc;
             Response.size := Prepared.size p;
             Response.status := "new" |}.
Proof.
  unfold onAppend. rewrite direct. unfold append_try. run_m.
  destruct (refreshSession C w session "APPEND") as [e|s]; simpl.
  { rewrite catch_messages. simpl. congruence. }
  destruct (Aliases_isOverQuota C w (user s) 0) as [e|[su over]] eqn:Hq;
    simpl.
  { rewrite catch_messages. simpl. congruence. }
  destruct over; simpl.
  { rewrite catch_messages. simpl. congruence. }
  destruct (Mailboxes_findOne path (mailboxes w)) as [mb|]; simpl.
  2:{ rewrite catch_messages. simpl. congruence. }
  destruct (gate_store C flags s raw w) as (Gm & Gg & Gj & Gb & Gt).
  pose proof (gate_clock C flags s raw w) as Gc.
  set (g := encryption_gate C flags s raw w) in *.
  intros Hne. rewrite <- Gg in Hne.
  destruct (after_gate_inversion _ _ _ _ _ _ _ _ Hne)
    as (p & max & Hp & Hmax & Hle & Hd & fr' & Hw).
  rewrite Hw in Hne |- *.
  destruct (append_store_inversion _ _ _ _ _ _ _ Hne)
    as (alloc & th & ths & hb & Hs & Ha & Ht & Hv & Hm & Hr).
  unfold mailbox_by_id in *.
  rewrite Gb, Gm, Gt, Gc in *. rewrite Gg in Hd, Hm.
  exists s, su, mb, p, max, alloc, th, ths, hb. simpl.
  repeat (split; [first [reflexivity|assumption]|]). assumption.
Qed.

Local Transparent append_store append_catch append_after_gate.

End StoredInversion.

Section StoredMessage.

Variable C : Collaborators.
Hypothesis direct : wsp C = None.

(** X1. The booleans stored with a message are computed from the flags the
    caller passed: [unseen], [flagged], [undeleted] and [draft] mirror
    [\Seen], [\Flagged], [\Deleted] and [\Draft], and [searchable] always
    equals [undeleted]. *)
Theorem stored_booleans_follow_flags path flags date raw session w :
  messages (fst (onAppend C path flags date raw session w)) <> messages w ->
  exists m,
    messages (fst (onAppend C path flags date raw session w))
      = messages w ++ [m] /\
    Message.unseen m = negb (includes "\Seen" flags) /\
    Message.flagged m = includes "\Flagged" flags /\
    Message.undeleted m = negb (includes "\Deleted" flags) /\
    Message.draft m = includes "\Draft" flags /\
    Message.searchable m = Message.undeleted m /\
    Message.copied m = false /\
    Message.root m = Message._id m.
Proof.
  intros H.
  destruct (stored_inversion C direct _ _ _ _ _ _ H)
    as (s & su & found & p & max & alloc & th & ths & hb & R).
  simpl in R. decompose [and] R. eexists. split; [eassumption|].
  repeat split.
Qed.

(** X2. The stored flags are the caller's flags in their order, with one
    [\Draft] appended exactly when the mailbox is the [\Drafts] one, and
    [junk] is set exactly when it is the [\Junk] one.  The [draft] boolean
    was computed before the flag was appended: a message appended to
    [\Drafts] without [\Draft] is stored with the flag and [draft = false]. *)
Theorem stored_flags_follow_special_use path flags date raw session w m mb :
  messages (fst (onAppend C path flags date raw session w))
    = messages w ++ [m] ->
  mailbox_by_id (Message.mailbox m) w = Some mb ->
  Message.flags m =
    (if specialUse_is "\Drafts" mb then flags ++ ["\Draft"] else flags) /\
  Message.junk m = specialUse_is "\Junk" mb /\
  (specialUse_is "\Drafts" mb = true -> includes "\Draft" flags = false ->
   includes "\Draft" (Message.flags m) = true /\ Message.draft m = false).
Proof.
  intros Hm Hmb.
  assert (H : messages (fst (onAppend C path flags date raw session w))
              <> messages w).
  { rewrite Hm. intros E. apply (f_equal (@List.length _)) in E.
    rewrite length_app in E. simpl in E. lia. }
  destruct (stored_inversion C direct _ _ _ _ _ _ H)
    as (s & su & found & p & max & alloc & th & ths & hb & R).
  simpl in R. decompose [and] R. clear R.
  match goal with
  | E : messages _ = messages w ++ [?d] |- _ =>
      rewrite Hm in E; apply app_inv_head in E; injection E as ->
  end.
  simpl in Hmb. assert (alloc = mb) by congruence. subst alloc.
  simpl. split; [reflexivity|]. split; [reflexivity|].
  intros Hd Hf. rewrite Hd. split; [|exact Hf].
  unfold includes. rewrite existsb_app. simpl. apply orb_true_r.
Qed.

(** X3. Expiry follows the retention of the mailbox the path resolved to:
    [exp] is set exactly when the retention is a non-zero number and [rdate]
    is the time of the append plus the retention (plus nothing when the
    mailbox has none). *)
Theorem stored_expiry_follows_retention path flags date raw session w found :
  messages (fst (onAppend C path flags date raw session w)) <> messages w ->
  Mailboxes_findOne path (mailboxes w) = Some found ->
  exists m,
    messages (fst (onAppend C path flags date raw session w))
      = messages w ++ [m] /\
    Message.mailbox m = Mailbox._id found /\
    Message.exp m =
      match Mailbox.retention found with
      | Some r => negb (r =? 0)
      | None => false
      end /\
    Message.rdate m =
      clock w + match Mailbox.retention found with Some r => r | None => 0 end.
Proof.
  intros H Hf.
  destruct (stored_inversion C direct _ _ _ _ _ _ H)
    as (s & su & found' & p & max & alloc & th & ths & hb & R).
  simpl in R. decompose [and] R. clear R.
  assert (found' = found) by congruence. subst found'.
  eexists. split; [eassumption|]. simpl.
  destruct (Mailbox.retention found); repeat split.
Qed.

(** X4. On success the response describes the message just stored: same
    uid, id, mailbox and size, and status ["new"]. *)
Theorem response_describes_stored_message
    path flags date raw session w w' ok r :
  onAppend C path flags date raw session w = (w', FnOk ok r) ->
  messages w' <> messages w ->
  exists m,
    messages w' = messages w ++ [m] /\
    ok = true /\
    Response.uid r = Message.uid m /\
    Response.id r = Message._id m /\
    Response.mailbox r = Message.mailbox m /\
    Response.size r = Message.size m /\
    Response.status r = "new".
Proof.
  intros Hrun Hne.
  assert (H : messages (fst (onAppend C path flags date raw session w))
              <> messages w) by now rewrite Hrun.
  destruct (stored_inversion C direct _ _ _ _ _ _ H)
    as (s & su & found & p & max & alloc & th & ths & hb & R).
  simpl in R. decompose [and] R. clear R. rewrite Hrun in *. simpl in *.
  match goal with
  | Hr : context [Response.mk] |- _ => destruct (Hr ok r eq_refl) as [-> ->]
  end.
  eexists. split; [eassumption|]. simpl.
  match goal with
  | Ha : mailbox_by_id _ _ = Some alloc |- _ =>
      unfold mailbox_by_id in Ha; apply find_has_id in Ha
  end.
  repeat split; assumption.
Qed.

End StoredMessage.

(** ** Rejections before anything is stored *)

Section EarlyExits.

Variable C : Collaborators.
Hypothesis direct : wsp C = None.


(** X6. When the parser rejects the message, the run ends after the gate:
    the callback receives the translated parse error, the world is the one
    the gate left (its alert bookkeeping and its trace stay), the storage
    proper is untouched and no cleanup of attachments is attempted. *)
Theorem parse_failure_stops_after_gate
    path flags date raw session w s su mb e :
  let g := encryption_gate C flags s raw w in
  refreshSession C w session "APPEND" = inr s ->
  Aliases_isOverQuota C w (user s) 0 = inr (su, false) ->
  Mailboxes_findOne path (mailboxes w) = Some mb ->
  prepareMessage C flags date (snd g) = inl e ->
  onAppend C path flags date raw session w =
    (fst g, FnError (refineAndLogError C e s)) /\
  same_store w (fst g).
Proof.
  intros g Hs Hq Hm Hp.
  rewrite (onAppend_after_gate C direct _ _ _ _ _ _ _ _ _ Hs Hq Hm).
  fold g. split; [|apply gate_store].
  unfold append_after_gate. run_m. rewrite Hp. reflexivity.
Qed.

(** X7. Without [checkForExisting] nothing is looked up: a message whose
    fingerprint is already stored in the mailbox is stored a second time
    (given that the later steps succeed), with the next UID. *)
Theorem without_dedup_a_duplicate_is_stored
    path flags date raw session w s su mb p max hb alloc t ths existing :
  let g := encryption_gate C flags s raw w in
  let fp := getFingerprint C s (Prepared.headers p)
                           (MimeTree.body (Prepared.mimeTree p)) in
  let md := getMaildata C (Prepared.mimeTree p) in
  let sn := storeNodeBodies C (blobs w) s md (Prepared.mimeTree p) in
  let m := message_data C s flags mb alloc p (snd (fst sn)) md fp (clock w) t in
  refreshSession C w session "APPEND" = inr s ->
  Aliases_isOverQuota C w (user s) 0 = inr (su, false) ->
  Mailboxes_findOne path (mailboxes w) = Some mb ->
  prepareMessage C flags date (snd g) = inr p ->
  checkForExisting s = false ->
  Messages_findOne fp (Mailbox._id mb) (messages w) = Some existing ->
  Domains_getMaxQuota C (domain_id (user s)) = inr max ->
  su + Prepared.size p <= max ->
  snd sn = inr hb ->
  mailbox_by_id (Mailbox._id mb) w = Some alloc ->
  Threads_getThreadId C (threads w) s (Prepared.subject p) (snd (fst sn))
    = inr (t, ths) ->
  Messages_validate C m = None ->
  (forall command uid, wss_broadcast C s command uid = None) ->
  (forall w' entry, notifier_addEntries_failure C w' entry = None) ->
  exists w' r,
    onAppend C path flags date raw session w = (w', FnOk true r) /\
    messages w' = messages w ++ [m] /\
    In existing (messages w) /\
    Message.fingerprint m = Message.fingerprint existing /\
    Message.mailbox m = Message.mailbox existing /\
    Response.uid r = Message.uid m.
Proof.
  intros g fp md sn m Hs Hq Hm Hp Hc He Hmax Hle Hsn Ha Ht Hv Hb Hn.
  destruct (onAppend_stores C direct path flags date raw session w s su mb p
              max hb alloc t ths Hs Hq Hm Hp) as (w' & Hrun & Hmsg & _);
    try assumption.
  { rewrite Hc. reflexivity. }
  unfold Messages_findOne in He. apply find_some in He.
  destruct He as [Hin Heq]. apply andb_prop in Heq. destruct Heq as [Hf Hb'].
  apply String.eqb_eq in Hf. apply String.eqb_eq in Hb'.
  eexists w', _. split; [exact Hrun|]. split; [exact Hmsg|].
  split; [exact Hin|]. subst m. simpl. repeat split; congruence.
Qed.

End EarlyExits.

(** ** Failures after the identifiers were allocated *)

Section AfterAllocation.

Variable C : Collaborators.
Hypothesis direct : wsp C = None.

(** A run that passes every check goes on to [append_store] on the world
    the gate left. *)
Lemma onAppend_reaches_store path flags date raw session w s su mb p max :
  let g := encryption_gate C flags s raw w in
  let fp := getFingerprint C s (Prepared.headers p)
                           (MimeTree.body (Prepared.mimeTree p)) in
  refreshSession C w session "APPEND" = inr s ->
  Aliases_isOverQuota C w (user s) 0 = inr (su, false) ->
  Mailboxes_findOne path (mailboxes w) = Some mb ->
  prepareMessage C flags date (snd g) = inr p ->
  (if checkForExisting s
   then Messages_findOne fp (Mailbox._id mb) (messages w) else None) = None ->
  Domains_getMaxQuota C (domain_id (user s)) = inr max ->
  su + Prepared.size p <= max ->
  onAppend C path flags date raw session w =
  finish C (append_store C flags s mb p fp
              (set_mimeTreeData (Some (Prepared.mimeTree p))
                 (set_session s (frame0 session)), fst g)).
Proof.
  intros g fp Hs Hq Hm Hp Hd Hmax Hle.
  rewrite (onAppend_after_gate C direct _ _ _ _ _ _ _ _ _ Hs Hq Hm).
  destruct (gate_store C flags s raw w) as (_ & Gg & _).
  fold g in Gg |- *.
  unfold append_after_gate. run_m. rewrite Hp. simpl. fold fp.
  destruct (checkForExisting s); simpl; rewrite ?Gg, ?Hd; simpl.
  all: rewrite Hmax; simpl;
    replace (su + Prepared.size p >? max) with false by (symmetry; lia);
    reflexivity.
Qed.

(** X8. Identifiers are allocated before the document is validated and are
    not given back: when [Messages.create] rejects the document, the callback
    receives the translated error, no message and no journal entry is
    written, and the mailbox counters stay advanced by one, so the UID is
    never used. *)
Theorem rejected_message_consumes_identifiers
    path flags date raw session w s su mb p max hb alloc t ths e :
  let g := encryption_gate C flags s raw w in
  let fp := getFingerprint C s (Prepared.headers p)
                           (MimeTree.body (Prepared.mimeTree p)) in
  let md := getMaildata C (Prepared.mimeTree p) in
  let sn := storeNodeBodies C (blobs w) s md (Prepared.mimeTree p) in
  let m := message_data C s flags mb alloc p (snd (fst sn)) md fp (clock w) t in
  refreshSession C w session "APPEND" = inr s ->
  Aliases_isOverQuota C w (user s) 0 = inr (su, false) ->
  Mailboxes_findOne path (mailboxes w) = Some mb ->
  prepareMessage C flags date (snd g) = inr p ->
  (if checkForExisting s
   then Messages_findOne fp (Mailbox._id mb) (messages w) else None) = None ->
  Domains_getMaxQuota C (domain_id (user s)) = inr max ->
  su + Prepared.size p <= max ->
  snd sn = inr hb ->
  mailbox_by_id (Mailbox._id mb) w = Some alloc ->
  Threads_getThreadId C (threads w) s (Prepared.subject p) (snd (fst sn))
    = inr (t, ths) ->
  Messages_validate C m = Some e ->
  exists w' post,
    onAppend C path flags date raw session w =
      (w', FnError (refineAndLogError C e s)) /\
    messages w' = messages w /\
    journal w' = journal w /\
    mailbox_by_id (Mailbox._id mb) w' = Some post /\
    Mailbox.uidNext post = Mailbox.uidNext alloc + 1 /\
    Mailbox.modifyIndex post = Mailbox.modifyIndex alloc + 1.
Proof.
  intros g fp md sn m Hs Hq Hm Hp Hd Hmax Hle Hsn Ha Ht Hv.
  rewrite (onAppend_reaches_store _ _ _ _ _ _ _ _ _ _ _ Hs Hq Hm Hp Hd
             Hmax Hle).
  destruct (gate_store C flags s raw w) as (Gm & Gg & Gj & Gb & Gt).
  pose proof (gate_clock C flags s raw w) as Gc.
  fold g in Gm, Gg, Gj, Gb, Gt, Gc |- *. fold fp.
  unfold append_store, store_node_bodies, allocate, get_thread,
    Messages_create, notifier_addEntries. run_m.
  fold md. rewrite Gb. fold sn. rewrite Hsn. simpl.
  rewrite findByIdAndUpdate_before, Gm.
  unfold mailbox_by_id in Ha. rewrite Ha. simpl.
  rewrite Gt, Ht. simpl. rewrite Gc. fold m. rewrite Hv. simpl.
  match goal with
  | |- context [append_catch C ?st ?err] =>
      destruct (catch_fields C st err _ eq_refl) as (Cm & Cg & Cj & _);
      exists (fst (append_catch C st err)),
        (apply_inc {| inc_uidNext := 1; inc_modifyIndex := 1 |} alloc)
  end.
  split; [reflexivity|].
  split; [rewrite Cg; simpl; exact Gg|].
  split; [rewrite Cj; simpl; exact Gj|].
  split; [|split; reflexivity].
  unfold mailbox_by_id. rewrite Cm. simpl.
  fold (bump (Mailbox._id mb) (mailboxes w)).
  now rewrite find_bump, Ha, String.eqb_refl.
Qed.

End AfterAllocation.

(** ** The journal *)

Section JournalOfARun.

Variable C : Collaborators.
Hypothesis direct : wsp C = None.

Lemma fires_emit e t :
  fires (t ++ [e]) = (fires t + if is_fire e then 1 else 0)%nat.
Proof.
  unfold fires. rewrite filter_app, length_app. simpl.
  now destruct (is_fire e).
Qed.

Lemma catch_fires st e :
  fires (trace (fst (append_catch C st e))) = fires (trace (snd st)).
Proof.
  unfold append_catch. simpl.
  repeat break_inner; simpl; rewrite ?fires_emit; simpl; lia.
Qed.

Lemma catch_journal st e :
  journal (fst (append_catch C st e)) = journal (snd st).
Proof. now destruct (catch_fields C st e _ eq_refl) as (_ & _ & H & _). Qed.

Lemma update_storage_fires s w :
  fires (trace (update_storage C s w)) = fires (trace w).
Proof.
  unfold update_storage. break_match; simpl; rewrite ?fires_emit; simpl; lia.
Qed.

Lemma pgp_alert_fires s e w :
  fires (trace (pgp_alert C s e w)) = fires (trace w).
Proof.
  unfold pgp_alert.
  repeat break_match; simpl; rewrite ?fires_emit; simpl; lia.
Qed.

Lemma gate_fires flags s raw w :
  fires (trace (fst (encryption_gate C flags s raw w))) = fires (trace w).
Proof.
  unfold encryption_gate. destruct (gate_condition flags s); [|reflexivity].
  destruct (encryptMessage C (public_key s) raw); simpl.
  - rewrite pgp_alert_fires. simpl. rewrite !fires_emit. simpl. lia.
  - rewrite fires_emit. simpl. lia.
Qed.

Lemma findByIdAndUpdate_id id i rd l m :
  fst (Mailboxes_findByIdAndUpdate id i rd l) = Some m -> Mailbox._id m = id.
Proof.
  unfold Mailboxes_findByIdAndUpdate.
  destruct (find (has_id id) l) eqn:F; simpl; [|discriminate].
  apply find_has_id in F. destruct rd; intros [= <-]; exact F.
Qed.

Local Opaque append_catch update_storage.

Lemma after_gate_journal flags date s su mb raw fr w :
  journal_outcome s w
    (fst (finish C (append_after_gate C flags date s su mb raw (fr, w))))
    (snd (finish C (append_after_gate C flags date s su mb raw (fr, w)))).
Proof.
  unfold journal_outcome, append_after_gate, append_store, store_node_bodies,
    allocate, get_thread, Messages_create, notifier_addEntries. run_m.
  rewrite ?findByIdAndUpdate_before.
  repeat (break_inner; simpl);
    rewrite ?catch_fires, ?catch_journal; simpl;
    rewrite ?fires_emit, ?update_storage_fires, ?update_storage_journal;
    simpl;
    try (left; split; [reflexivity | lia]).
  all: right; eexists _, _; split; [reflexivity|]; simpl;
    rewrite ?update_storage_messages, ?update_storage_journal,
      ?fires_emit, ?update_storage_fires; simpl;
    match goal with
    | H : fst (Mailboxes_findByIdAndUpdate _ _ _ _) = Some _ |- _ =>
        apply findByIdAndUpdate_id in H; rewrite H
    end;
    repeat split; lia.
Qed.

(** What a run on the storing path leaves in the journal. *)
Lemma try_journal path flags date raw session w :
  let x := finish C (append_try C path flags date raw session
                                (frame0 session, w)) in
  (journal (fst x) = journal w /\ fires (trace (fst x)) = fires (trace w)) \/
  (exists s, refreshSession C w session "APPEND" = inr s /\
             journal_outcome s w (fst x) (snd x) /\
             journal (fst x) <> journal w).
Proof.
  simpl. unfold append_try. run_m.
  destruct (refreshSession C w session "APPEND") as [e|s] eqn:Hs; simpl.
  { left. now rewrite catch_fires, catch_journal. }
  destruct (Aliases_isOverQuota C w (user s) 0) as [e|[su over]]; simpl.
  { left. now rewrite catch_fires, catch_journal. }
  destruct over; simpl.
  { left. now rewrite catch_fires, catch_journal. }
  destruct (Mailboxes_findOne path (mailboxes w)) as [mb|]; simpl.
  2:{ left. now rewrite catch_fires, catch_journal. }
  destruct (gate_store C flags s raw w) as (_ & Gg & Gj & _).
  pose proof (gate_fires flags s raw w) as Gf.
  destruct (after_gate_journal flags date s su mb
              (snd (encryption_gate C flags s raw w))
              (set_session s (frame0 session))
              (fst (encryption_gate C flags s raw w)))
    as [[Hj Hf] | (r & m & Hc & Hm & Hu & Hi & Hb & Hj & Hf)].
  - left. split; congruence.
  - right. exists s. split; [reflexivity|]. split.
    + right. exists r, m. rewrite Hj, Hm, Hf, Gg, Gj, Gf.
      repeat split; assumption.
    + rewrite Hj, Gj. intros E.
      apply (f_equal (@List.length _)) in E. rewrite length_app in E.
      simpl in E. lia.
Qed.

(** X9. The journal gets an entry only from a run that stored a message and
    reported success, and then exactly one: an [EXISTS] entry carrying the
    UID, the mailbox and the message id of the response, followed by one
    call of the notifier.  A run that failed or returned an existing message
    leaves the journal alone and does not call the notifier. *)
Theorem journal_entry_only_with_success path flags date raw session w :
  let w' := fst (onAppend C path flags date raw session w) in
  let call := snd (onAppend C path flags date raw session w) in
  (journal w' = journal w /\ fires (trace w') = fires (trace w)) \/
  (exists s r m,
     refreshSession C w session "APPEND" = inr s /\
     call = FnOk true r /\
     messages w' = messages w ++ [m] /\
     Message.uid m = Response.uid r /\
     Message._id m = Response.id r /\
     Message.mailbox m = Response.mailbox r /\
     journal w' =
       journal w ++
       [{| Journal.ignore := selected_is s (Response.mailbox r);
           Journal.command := "EXISTS";
           Journal.uid := Response.uid r;
           Journal.mailbox := Response.mailbox r;
           Journal.message := Response.id r |}] /\
     fires (trace w') = S (fires (trace w))).
Proof.
  simpl. rewrite (onAppend_direct C direct).
  destruct (try_journal path flags date raw session w)
    as [H | (s & Hs & [[Hj _] | (r & m & H)] & Hne)].
  - now left.
  - contradiction.
  - right. exists s, r, m. split; [exact Hs | exact H].
Qed.

Local Transparent append_catch update_storage.

End JournalOfARun.

(** ** Failures after the message was created *)

Section AfterCreate.

Variable C : Collaborators.
Hypothesis direct : wsp C = None.

Lemma In_emit e x w : In e (trace (emit x w)) <-> In e (trace w) \/ e = x.
Proof.
  simpl. rewrite in_app_iff. simpl. intuition congruence.
Qed.

Lemma update_storage_trace s w e :
  In e (trace w) -> In e (trace (update_storage C s w)).
Proof.
  unfold update_storage. intros H.
  destruct (updateStorageUsed C w (alias_id (user s))); simpl;
    rewrite ?in_app_iff; auto.
Qed.

(** X10. The message is not taken back when a later step fails: if the
    broadcast to the selected mailbox or the journal entry is rejected after
    [Messages.create] succeeded, the callback receives the translated error,
    yet the message stays stored under its new UID, without a journal entry
    and without a call of the notifier - and the [catch] block hands the
    attachments the stored message refers to to [deleteMany]. *)
Theorem failure_after_create_keeps_message
    path flags date raw session w s su mb p max hb alloc t ths e :
  let g := encryption_gate C flags s raw w in
  let fp := getFingerprint C s (Prepared.headers p)
                           (MimeTree.body (Prepared.mimeTree p)) in
  let md := getMaildata C (Prepared.mimeTree p) in
  let sn := storeNodeBodies C (blobs w) s md (Prepared.mimeTree p) in
  let m := message_data C s flags mb alloc p (snd (fst sn)) md fp (clock w) t in
  refreshSession C w session "APPEND" = inr s ->
  Aliases_isOverQuota C w (user s) 0 = inr (su, false) ->
  Mailboxes_findOne path (mailboxes w) = Some mb ->
  prepareMessage C flags date (snd g) = inr p ->
  (if checkForExisting s
   then Messages_findOne fp (Mailbox._id mb) (messages w) else None) = None ->
  Domains_getMaxQuota C (domain_id (user s)) = inr max ->
  su + Prepared.size p <= max ->
  snd sn = inr hb ->
  mailbox_by_id (Mailbox._id mb) w = Some alloc ->
  Threads_getThreadId C (threads w) s (Prepared.subject p) (snd (fst sn))
    = inr (t, ths) ->
  Messages_validate C m = None ->
  (selected_is s (Mailbox._id alloc) = true /\
   wss_broadcast C s "EXISTS" (Mailbox.uidNext alloc) = Some e) \/
  ((selected_is s (Mailbox._id alloc) = false \/
    wss_broadcast C s "EXISTS" (Mailbox.uidNext alloc) = None) /\
   forall w0 entry, notifier_addEntries_failure C w0 entry = Some e) ->
  exists w',
    onAppend C path flags date raw session w =
      (w', FnError (refineAndLogError C e s)) /\
    messages w' = messages w ++ [m] /\
    Message.uid m = Mailbox.uidNext alloc /\
    journal w' = journal w /\
    fires (trace w') = fires (trace w) /\
    (forall map,
       hb = true ->
       MimeTree.attachmentMap (snd (fst sn)) = Some map ->
       map <> [] ->
       Message.mimeTree m = snd (fst sn) /\
       In (DeleteMany (List.map (fun key => lookup key map) (List.map fst map))
                      (Maildata.magic md))
          (trace w')).
Proof.
  intros g fp md sn m Hs Hq Hm Hp Hd Hmax Hle Hsn Ha Ht Hv Hfail.
  rewrite (onAppend_reaches_store C direct _ _ _ _ _ _ _ _ _ _ _
             Hs Hq Hm Hp Hd Hmax Hle).
  destruct (gate_store C flags s raw w) as (Gm & Gg & Gj & Gb & Gt).
  pose proof (gate_clock C flags s raw w) as Gc.
  pose proof (gate_fires C flags s raw w) as Gf.
  fold g in Gm, Gg, Gj, Gb, Gt, Gc, Gf |- *. fold fp.
  unfold append_store, store_node_bodies, allocate, get_thread,
    Messages_create, notifier_addEntries. run_m.
  fold md. rewrite Gb. fold sn. rewrite Hsn. simpl.
  rewrite findByIdAndUpdate_before, Gm.
  unfold mailbox_by_id in Ha. rewrite Ha. simpl.
  rewrite Gt, Ht. simpl. rewrite Gc. fold m. rewrite Hv. simpl.
  assert (Hcatch : forall fr0 w0,
            fr_session fr0 = s -> hasNodeBodies fr0 = Some hb ->
            mimeTreeData fr0 = Some (snd (fst sn)) ->
            maildata fr0 = Some md ->
            messages w0 = messages w ++ [m] ->
            journal w0 = journal (fst g) ->
            fires (trace w0) = fires (trace (fst g)) ->
            exists w',
              append_catch C (fr0, w0) e =
                (w', FnError (refineAndLogError C e s)) /\
              messages w' = messages w ++ [m] /\
              Message.uid m = Mailbox.uidNext alloc /\
              journal w' = journal w /\
              fires (trace w') = fires (trace w) /\
              (forall map,
                 hb = true ->
                 MimeTree.attachmentMap (snd (fst sn)) = Some map ->
                 map <> [] ->
                 Message.mimeTree m = snd (fst sn) /\
                 In (DeleteMany
                       (List.map (fun key => lookup key map)
                                 (List.map fst map))
                       (Maildata.magic md))
                    (trace w'))).
  { intros fr0 w0 F1 F2 F3 F4 W1 W2 W3.
    exists (fst (append_catch C (fr0, w0) e)).
    split; [unfold append_catch; simpl; now rewrite F1|].
    rewrite (catch_messages C), (catch_journal C), (catch_fires C). simpl.
    do 4 (split; [first [reflexivity | congruence]|]).
    intros map -> Hmap Hne. split; [reflexivity|].
    unfold append_catch, attachmentIds. simpl. rewrite F2, F3, Hmap, F4.
    destruct map as [|kv map]; [congruence|]. simpl.
    destruct (snd (attachmentStorage_deleteMany C _ _ _ _)); simpl;
      rewrite ?in_app_iff; simpl; auto. }
  destruct Hfail as [[Hsel Hb] | [Hb Hn]].
  - rewrite Hsel. simpl. rewrite Hb. simpl.
    apply Hcatch; simpl; try reflexivity.
    + now rewrite update_storage_messages; simpl; rewrite Gg.
    + now rewrite update_storage_journal.
    + rewrite fires_emit, update_storage_fires. simpl. lia.
  - destruct (selected_is s (Mailbox._id alloc)); simpl.
    + destruct Hb as [Hb|Hb]; [discriminate|]. rewrite Hb. simpl.
      rewrite Hn. simpl.
      apply Hcatch; simpl; try reflexivity.
      * now rewrite update_storage_messages; simpl; rewrite Gg.
      * now rewrite update_storage_journal.
      * rewrite fires_emit, update_storage_fires. simpl. lia.
    + rewrite Hn. simpl.
      apply Hcatch; simpl; try reflexivity.
      * now rewrite update_storage_messages; simpl; rewrite Gg.
      * now rewrite update_storage_journal.
      * now rewrite update_storage_fires.
Qed.

(** X11. Storage accounting cannot fail an append: when
    [updateStorageUsed] rejects, the error is logged and the run goes on to
    report success for the message it stored. *)
Theorem storage_accounting_failure_is_only_logged
    path flags date raw session w s su mb p max hb alloc t ths e :
  let g := encryption_gate C flags s raw w in
  let fp := getFingerprint C s (Prepared.headers p)
                           (MimeTree.body (Prepared.mimeTree p)) in
  let md := getMaildata C (Prepared.mimeTree p) in
  let sn := storeNodeBodies C (blobs w) s md (Prepared.mimeTree p) in
  let m := message_data C s flags mb alloc p (snd (fst sn)) md fp (clock w) t in
  refreshSession C w session "APPEND" = inr s ->
  Aliases_isOverQuota C w (user s) 0 = inr (su, false) ->
  Mailboxes_findOne path (mailboxes w) = Some mb ->
  prepareMessage C flags date (snd g) = inr p ->
  (if checkForExisting s
   then Messages_findOne fp (Mailbox._id mb) (messages w) else None) = None ->
  Domains_getMaxQuota C (domain_id (user s)) = inr max ->
  su + Prepared.size p <= max ->
  snd sn = inr hb ->
  mailbox_by_id (Mailbox._id mb) w = Some alloc ->
  Threads_getThreadId C (threads w) s (Prepared.subject p) (snd (fst sn))
    = inr (t, ths) ->
  Messages_validate C m = None ->
  (forall command uid, wss_broadcast C s command uid = None) ->
  (forall w' entry, notifier_addEntries_failure C w' entry = None) ->
  (forall w0, updateStorageUsed C w0 (alias_id (user s)) = Some e) ->
  exists w' r,
    onAppend C path flags date raw session w = (w', FnOk true r) /\
    messages w' = messages w ++ [m] /\
    Response.uid r = Message.uid m /\
    In (UpdateStorageUsed (alias_id (user s))) (trace w') /\
    In (LogFatal e) (trace w').
Proof.
  intros g fp md sn m Hs Hq Hm Hp Hd Hmax Hle Hsn Ha Ht Hv Hb Hn Hu.
  rewrite (onAppend_reaches_store C direct _ _ _ _ _ _ _ _ _ _ _
             Hs Hq Hm Hp Hd Hmax Hle).
  destruct (gate_store C flags s raw w) as (Gm & Gg & Gj & Gb & Gt).
  pose proof (gate_clock C flags s raw w) as Gc.
  fold g in Gm, Gg, Gj, Gb, Gt, Gc |- *. fold fp.
  unfold append_store, store_node_bodies, allocate, get_thread,
    Messages_create, notifier_addEntries. run_m.
  fold md. rewrite Gb. fold sn. rewrite Hsn. simpl.
  rewrite findByIdAndUpdate_before, Gm.
  unfold mailbox_by_id in Ha. rewrite Ha. simpl.
  rewrite Gt, Ht. simpl. rewrite Gc. fold m. rewrite Hv. simpl.
  unfold update_storage. rewrite Hu.
  destruct (selected_is s (Mailbox._id alloc)); simpl;
    rewrite ?Hb; simpl; rewrite Hn; simpl;
    eexists _, _; (split; [reflexivity|]); simpl; rewrite Gg;
    repeat split; rewrite ?in_app_iff; simpl; auto 10.
Qed.

End AfterCreate.

(** ** The alert bookkeeping of the gate *)

Section AlertBookkeeping.

Variable C : Collaborators.
Hypothesis direct : wsp C = None.

(** The first document selected by [q] after the first document selected
    by the narrower [p] was updated by [f], which does not change what [q]
    looks at. *)
Lemma find_update_first_sub {A : Type} (q p : A -> bool) (f : A -> A) l a :
  (forall x, p x = true -> q x = true) ->
  (forall x, q (f x) = q x) ->
  find q l = Some a ->
  find q (update_first p f l) = Some (if p a then f a else a).
Proof.
  intros Hpq Hf. induction l as [|y r IH]; simpl; [discriminate|].
  destruct (q y) eqn:Qy.
  - intros [= <-]. destruct (p y) eqn:Py; simpl.
    + now rewrite Hf, Qy.
    + now rewrite Qy.
  - intros H. destruct (p y) eqn:Py.
    + apply Hpq in Py. congruence.
    + simpl. rewrite Qy. now apply IH.
Qed.

Lemma alias_of_set u v a :
  alias_of u (set_pgp_error_sent_at v a) = alias_of u a.
Proof. reflexivity. Qed.

Lemma gate_alerts_le flags s raw w :
  (alerts (trace (fst (encryption_gate C flags s raw w)))
   <= alerts (trace w) + 1)%nat.
Proof.
  unfold encryption_gate. destruct (gate_condition flags s); [|simpl; lia].
  destruct (encryptMessage C (public_key s) raw) as [e|r]; simpl.
  - pose proof (pgp_alert_alerts_le C s e
                  (emit (LogFatal e)
                     (emit (EncryptMessage (public_key s) raw) w))) as H.
    simpl in H. rewrite !alerts_emit in H. simpl in H. lia.
  - rewrite alerts_emit. simpl. lia.
Qed.

(** When the gate sent an alert. *)
Lemma gate_alert_inversion flags s raw w :
  alerts (trace (fst (encryption_gate C flags s raw w))) <> alerts (trace w) ->
  exists e a,
    gate_condition flags s = true /\
    encryptMessage C (public_key s) raw = inl e /\
    isCodeBug C e = false /\ isRetryableError C e = false /\
    find (alert_filter C (user s) (clock w)) (aliases w) = Some a.
Proof.
  unfold encryption_gate.
  destruct (gate_condition flags s) eqn:G; [|simpl; congruence].
  destruct (encryptMessage C (public_key s) raw) as [e|r] eqn:E; simpl.
  2:{ rewrite alerts_emit. simpl. intros H. exfalso. apply H. lia. }
  unfold pgp_alert. simpl.
  destruct (isCodeBug C e) eqn:B; simpl.
  { rewrite !alerts_emit. simpl. intros H. exfalso. apply H. lia. }
  destruct (isRetryableError C e) eqn:R; simpl.
  { rewrite !alerts_emit. simpl. intros H. exfalso. apply H. lia. }
  unfold Aliases_findOneAndUpdate.
  destruct (find (alert_filter C (user s) (clock w)) (aliases w)) as [a|] eqn:F;
    simpl.
  - intros _. exists e, a. repeat split; first [reflexivity | assumption].
  - rewrite !alerts_emit. simpl. intros H. exfalso. apply H. lia.
Qed.

Local Opaque append_catch.

(** X12. An alert email is evidence of a lasting encryption failure: a run
    hands at most one alert to the mailer, and when it hands one, the
    message was not flagged [\Draft], the owner has a key, [encryptMessage]
    raised an error that is neither a code bug nor retryable, and the
    owner's alias document had no alert timestamp or one not later than
    [dayjs().subtract(1, 'day')], the same time on the previous calendar
    day. *)
Theorem alert_implies_lasting_failure path flags date raw session w :
  let w' := fst (onAppend C path flags date raw session w) in
  (alerts (trace w') <= alerts (trace w) + 1)%nat /\
  (alerts (trace w') <> alerts (trace w) ->
   exists s e a,
     refreshSession C w session "APPEND" = inr s /\
     gate_condition flags s = true /\
     encryptMessage C (public_key s) raw = inl e /\
     isCodeBug C e = false /\ isRetryableError C e = false /\
     In a (aliases w) /\ alias_of (user s) a = true /\
     match Alias.pgp_error_sent_at a with
     | None => True
     | Some t => t <= subtract_day C (clock w)
     end).
Proof.
  simpl. rewrite (onAppend_direct C direct).
  unfold append_try. run_m.
  destruct (refreshSession C w session "APPEND") as [e|s] eqn:Hs; simpl.
  { destruct (catch_counts C (frame0 session, w) e) as [_ ->]. simpl.
    split; [lia|congruence]. }
  destruct (Aliases_isOverQuota C w (user s) 0) as [e|[su over]]; simpl.
  { match goal with
    | |- context [append_catch C ?st ?err] =>
        destruct (catch_counts C st err) as [_ ->]
    end. simpl. split; [lia|congruence]. }
  destruct over; simpl.
  { match goal with
    | |- context [append_catch C ?st ?err] =>
        destruct (catch_counts C st err) as [_ ->]
    end. simpl. split; [lia|congruence]. }
  destruct (Mailboxes_findOne path (mailboxes w)) as [mb|]; simpl.
  2:{ match goal with
      | |- context [append_catch C ?st ?err] =>
          destruct (catch_counts C st err) as [_ ->]
      end. simpl. split; [lia|congruence]. }
  destruct (after_gate_counts C flags date s su mb
              (snd (encryption_gate C flags s raw w))
              (set_session s (frame0 session))
              (fst (encryption_gate C flags s raw w))) as (_ & -> & _).
  split; [apply gate_alerts_le|].
  intros H. destruct (gate_alert_inversion _ _ _ _ H)
    as (e & a & G & E & B & R & F).
  apply find_some in F. destruct F as [Hin Hf].
  unfold alert_filter in Hf. apply andb_prop in Hf. destruct Hf as [Ha Ht].
  exists s, e, a. repeat (split; [first [reflexivity | assumption]|]).
  destruct (Alias.pgp_error_sent_at a); [|exact I].
  now apply Z.leb_le in Ht.
Qed.

(** X13. A successful encryption re-arms the alert after one hour: the
    owner's alias document loses an alert timestamp that is at least one
    hour old and keeps a younger one.  Nothing after the gate touches the
    alias documents, so this is what the run leaves. *)
Theorem successful_encryption_clears_stale_alert
    path flags date raw session w s su mb raw' a :
  refreshSession C w session "APPEND" = inr s ->
  Aliases_isOverQuota C w (user s) 0 = inr (su, false) ->
  Mailboxes_findOne path (mailboxes w) = Some mb ->
  gate_condition flags s = true ->
  encryptMessage C (public_key s) raw = inr raw' ->
  find (alias_of (user s)) (aliases w) = Some a ->
  exists a',
    find (alias_of (user s))
         (aliases (fst (onAppend C path flags date raw session w))) = Some a' /\
    Alias._id a' = Alias._id a /\
    Alias.pgp_error_sent_at a' =
      match Alias.pgp_error_sent_at a with
      | Some t => if t <=? clock w - ONE_HOUR then None else Some t
      | None => None
      end.
Proof.
  intros Hs Hq Hm G E F.
  rewrite (onAppend_after_gate C direct _ _ _ _ _ _ _ _ _ Hs Hq Hm).
  destruct (after_gate_counts C flags date s su mb
              (snd (encryption_gate C flags s raw w))
              (set_session s (frame0 session))
              (fst (encryption_gate C flags s raw w))) as (_ & _ & ->).
  unfold encryption_gate. rewrite G, E. simpl.
  unfold Aliases_findOneAndUpdate.
  pose proof (find_some _ _ F) as [_ Ha].
  destruct (find (stale_alert_filter (user s) (clock w)) (aliases w))
    as [d|] eqn:Fs; simpl.
  - rewrite (find_update_first_sub (alias_of (user s))
               (stale_alert_filter (user s) (clock w))
               (set_pgp_error_sent_at None) (aliases w) a); [| |reflexivity|exact F].
    2:{ intros x Hx. unfold stale_alert_filter in Hx.
        now apply andb_prop in Hx. }
    eexists. split; [reflexivity|].
    unfold stale_alert_filter. rewrite Ha. simpl.
    destruct (Alias.pgp_error_sent_at a) as [t|] eqn:T; simpl.
    + destruct (t <=? clock w - ONE_HOUR); simpl; auto.
    + auto.
  - exists a. split; [exact F|]. split; [reflexivity|].
    destruct (Alias.pgp_error_sent_at a) as [t|] eqn:T; [|reflexivity].
    destruct (t <=? clock w - ONE_HOUR) eqn:L; [|reflexivity].
    exfalso. pose proof (find_none _ _ Fs a (proj1 (find_some _ _ F))) as N.
    unfold stale_alert_filter in N. now rewrite Ha, T, L in N.
Qed.

(** X14. An alert that could not be sent is not counted: when the mailer
    rejects the alert, the timestamp set by the throttling update is taken
    back, so the owner's alias document ends without one and the next
    failure tries again. *)
Theorem unsent_alert_is_not_counted
    path flags date raw session w s su mb e a e' :
  refreshSession C w session "APPEND" = inr s ->
  Aliases_isOverQuota C w (user s) 0 = inr (su, false) ->
  Mailboxes_findOne path (mailboxes w) = Some mb ->
  gate_condition flags s = true ->
  encryptMessage C (public_key s) raw = inl e ->
  isCodeBug C e = false -> isRetryableError C e = false ->
  find (alias_of (user s)) (aliases w) = Some a ->
  alert_filter C (user s) (clock w) a = true ->
  (forall spec, email C spec = Some e') ->
  let w' := fst (onAppend C path flags date raw session w) in
  alerts (trace w') = S (alerts (trace w)) /\
  exists a',
    find (alias_of (user s)) (aliases w') = Some a' /\
    Alias._id a' = Alias._id a /\
    Alias.pgp_error_sent_at a' = None /\
    alert_filter C (user s) (clock w) a' = true.
Proof.
  intros Hs Hq Hm G E B R F Hf Hmail. simpl.
  rewrite (onAppend_after_gate C direct _ _ _ _ _ _ _ _ _ Hs Hq Hm).
  destruct (after_gate_counts C flags date s su mb
              (snd (encryption_gate C flags s raw w))
              (set_session s (frame0 session))
              (fst (encryption_gate C flags s raw w))) as (_ & -> & ->).
  unfold encryption_gate. rewrite G, E. simpl.
  unfold pgp_alert. rewrite B, R. simpl.
  unfold Aliases_findOneAndUpdate.
  pose proof (find_some _ _ F) as [Hin Ha].
  assert (Sub1 : forall x, alert_filter C (user s) (clock w) x = true ->
                           alias_of (user s) x = true).
  { intros x Hx. unfold alert_filter in Hx. now apply andb_prop in Hx. }
  assert (Sub2 : forall x, sent_at_filter (user s) (clock w) x = true ->
                           alias_of (user s) x = true).
  { intros x Hx. unfold sent_at_filter in Hx. now apply andb_prop in Hx. }
  destruct (find (alert_filter C (user s) (clock w)) (aliases w)) as [d|] eqn:Fd.
  2:{ exfalso. pose proof (find_none _ _ Fd a Hin). congruence. }
  simpl. rewrite Hmail. simpl.
  pose proof (find_update_first_sub (alias_of (user s))
                (alert_filter C (user s) (clock w))
                (set_pgp_error_sent_at (Some (clock w))) (aliases w) a
                Sub1 (fun x => eq_refl) F) as F1.
  rewrite Hf in F1.
  split; [rewrite !alerts_emit; simpl; lia|].
  match goal with
  | |- context [find ?f ?l] =>
      lazymatch f with
      | sent_at_filter _ _ => destruct (find f l) eqn:Fr
      end
  end; simpl.
  - rewrite (find_update_first_sub (alias_of (user s))
               (sent_at_filter (user s) (clock w))
               (set_pgp_error_sent_at None) _ _ Sub2 (fun x => eq_refl) F1).
    eexists. split; [reflexivity|].
    unfold sent_at_filter, alert_filter. simpl. rewrite alias_of_set, Ha.
    simpl. rewrite Z.eqb_refl. simpl. rewrite !alias_of_set, Ha. auto.
  - exfalso.
    assert (Hin1 : In (set_pgp_error_sent_at (Some (clock w)) a)
                      (update_first (alert_filter C (user s) (clock w))
                         (set_pgp_error_sent_at (Some (clock w))) (aliases w)))
      by (apply (find_some _ _ F1)).
    pose proof (find_none _ _ Fr _ Hin1) as N.
    unfold sent_at_filter in N. simpl in N.
    rewrite alias_of_set, Ha, Z.eqb_refl in N. discriminate.
Qed.

Local Transparent append_catch.

End AlertBookkeeping.

(** ** The proxying path *)

Section Proxy.

Variable C : Collaborators.
Variable request :
  World -> AppendRequest -> World * (Err + bool * Response.t).
Hypothesis proxied : wsp C = Some request.

Lemma within_limit_passes raw :
  raw_length raw <= SIXTY_FOUR_MB_IN_BYTES ->
  truthy_raw raw && (raw_length raw >? SIXTY_FOUR_MB_IN_BYTES) = false.
Proof.
  intros H. rewrite Z.gtb_ltb.
  replace (SIXTY_FOUR_MB_IN_BYTES <? raw_length raw) with false
    by (symmetry; apply Z.ltb_ge; exact H).
  apply andb_false_r.
Qed.

(** X15. A front-end instance forwards every message of at most 64 MiB -
    the limit itself included - and does nothing else: the request carries
    the session's id, user and remote address with the path, flags, date and
    message as given; the answer is passed to the callback unchanged; the
    notifier and the push notification are triggered once each after the
    answer; and a failure of the push notification is logged without
    changing the callback.  None of the storing steps runs locally. *)
Theorem frontend_forwards_within_limit
    path flags date raw session w w1 b response :
  raw_length raw <= SIXTY_FOUR_MB_IN_BYTES ->
  request w {| action := "append";
               req_session := (session_id session, user session,
                               remoteAddress session);
               req_path := path; req_flags := flags; req_date := date;
               req_raw := raw |} = (w1, inr (b, response)) ->
  exists w',
    onAppend C path flags date raw session w = (w', FnOk b response) /\
    same_store w1 w' /\
    aliases w' = aliases w1 /\
    trace w' =
      trace w1 ++
      [NotifierFire (alias_id (user session));
       SendApn (alias_id (user session)) path] ++
      match sendApn C (alias_id (user session)) path with
      | Some e => [LogFatal e]
      | None => []
      end.
Proof.
  intros Hlen Hreq. unfold onAppend, wsp_try. rewrite proxied.
  rewrite (within_limit_passes raw Hlen), Hreq. simpl.
  eexists. split; [reflexivity|].
  destruct (sendApn C (alias_id (user session)) path); simpl;
    rewrite <- ?app_assoc; simpl; repeat split; reflexivity.
Qed.

(** X16. When the other end rejects the request, a front-end calls back
    with the protocol code alone if the error carries a non-empty
    [imapResponse], and with the error itself - not passed through
    [refineAndLogError] - otherwise; the notifier and the push notification
    are not triggered. *)
Theorem frontend_maps_rejections
    path flags date raw session w w1 err :
  raw_length raw <= SIXTY_FOUR_MB_IN_BYTES ->
  request w {| action := "append";
               req_session := (session_id session, user session,
                               remoteAddress session);
               req_path := path; req_flags := flags; req_date := date;
               req_raw := raw |} = (w1, inl err) ->
  onAppend C path flags date raw session w =
  (w1, match imapResponse err with
       | Some EmptyString => FnError err
       | Some code => FnCode code
       | None => FnError err
       end).
Proof.
  intros Hlen Hreq. unfold onAppend, wsp_try. rewrite proxied.
  rewrite (within_limit_passes raw Hlen), Hreq. simpl.
  unfold wsp_catch. destruct (imapResponse err) as [[|c code]|]; reflexivity.
Qed.

End Proxy.

(** ** What successive appends leave behind *)

Section AppendOnly.

Variable C : Collaborators.
Hypothesis direct : wsp C = None.

Lemma bump_ids id l :
  List.map Mailbox._id (bump id l) = List.map Mailbox._id l /\
  List.map Mailbox.path (bump id l) = List.map Mailbox.path l.
Proof.
  unfold bump. induction l as [|x l [IH1 IH2]]; simpl; [now split|].
  destruct (has_id id x); simpl; split; congruence.
Qed.

Lemma perform_only_appends c w :
  let w' := fst (perform C c w) in
  exists ms js,
    messages w' = messages w ++ ms /\
    journal w' = journal w ++ js /\
    (List.length js <= List.length ms)%nat /\
    List.map Mailbox._id (mailboxes w') = List.map Mailbox._id (mailboxes w) /\
    List.map Mailbox.path (mailboxes w') = List.map Mailbox.path (mailboxes w).
Proof.
  simpl.
  pose proof (perform_writes C direct c w) as HW.
  assert (HJ : journal (fst (perform C c w)) = journal w \/
               exists m j,
                 messages (fst (perform C c w)) = messages w ++ [m] /\
                 journal (fst (perform C c w)) = journal w ++ [j]).
  { unfold perform. rewrite (onAppend_direct C direct).
    destruct (try_journal C (call_path c) (call_flags c) (call_date c)
                (call_raw c) (call_session c) (set_clock (at_time c) w))
      as [[H _] | (s & _ & [[H _] | (r & m & _ & Hm & _ & _ & _ & Hj & _)] & _)].
    - now left.
    - now left.
    - right. eexists _, _. split; [exact Hm | exact Hj]. }
  destruct HW as [H0 H1 H2 | id e0 H0 H1 H2 _
                  | s found al p tree md fp now th Hf H0 H1 _].
  - exists [], []. rewrite H0, H1, H2, !app_nil_r. repeat split. simpl. lia.
  - exists [], []. rewrite H0, H1, H2, !app_nil_r.
    destruct (bump_ids id (mailboxes w)). repeat split; simpl; auto.
  - destruct (bump_ids (Mailbox._id found) (mailboxes w)).
    destruct HJ as [Hj | (m & j & _ & Hj)].
    + exists [message_data C s (call_flags c) found al p tree md fp now th],
        [].
      rewrite H0, H1, Hj, app_nil_r. repeat split; simpl; auto.
    + exists [message_data C s (call_flags c) found al p tree md fp now th],
        [j].
      rewrite H0, H1, Hj. repeat split; simpl; auto.
Qed.

(** X17. Whatever the calls and their outcomes, successive appends only
    add to the store: the messages and the journal of the world before are
    prefixes of those after, the journal gains at most as many entries as
    messages were stored, and no mailbox is created, removed or renamed. *)
Theorem appends_only_add calls : forall w,
  let w' := fst (run C calls w) in
  exists ms js,
    messages w' = messages w ++ ms /\
    journal w' = journal w ++ js /\
    (List.length js <= List.length ms)%nat /\
    List.map Mailbox._id (mailboxes w') = List.map Mailbox._id (mailboxes w) /\
    List.map Mailbox.path (mailboxes w') = List.map Mailbox.path (mailboxes w).
Proof.
  induction calls as [|c rest IH]; intros w; simpl.
  - exists [], []. rewrite !app_nil_r. repeat split. simpl. lia.
  - destruct (perform_only_appends c w) as (ms1 & js1 & M1 & J1 & L1 & I1 & P1).
    destruct (IH (fst (perform C c w)))
      as (ms2 & js2 & M2 & J2 & L2 & I2 & P2).
    simpl in *. exists (ms1 ++ ms2), (js1 ++ js2).
    rewrite M2, J2, I2, P2, M1, J1, I1, P1, <- !app_assoc, !length_app.
    repeat split. lia.
Qed.

Lemma find_append {A : Type} (f : A -> bool) (l l' : list A) :
  find f (l ++ l') =
  match find f l with Some x => Some x | None => find f l' end.
Proof.
  induction l as [|x l IH]; simpl; [reflexivity|].
  now destruct (f x).
Qed.

(** X18. What an append stored is found by the duplicate check of a later
    one: a second append with [checkForExisting] whose message has the same
    fingerprint and goes to the same mailbox stores nothing and answers with
    the UID, id and size of the first. *)
Theorem second_delivery_returns_the_first
    path flags date raw session w m
    v path2 flags2 date2 raw2 session2 s2 su2 mb2 p2 :
  messages (fst (onAppend C path flags date raw session w))
    = messages w ++ [m] ->
  Messages_findOne (Message.fingerprint m) (Message.mailbox m) (messages w)
    = None ->
  messages v = messages (fst (onAppend C path flags date raw session w)) ->
  refreshSession C v session2 "APPEND" = inr s2 ->
  Aliases_isOverQuota C v (user s2) 0 = inr (su2, false) ->
  Mailboxes_findOne path2 (mailboxes v) = Some mb2 ->
  prepareMessage C flags2 date2 (snd (encryption_gate C flags2 s2 raw2 v))
    = inr p2 ->
  checkForExisting s2 = true ->
  getFingerprint C s2 (Prepared.headers p2)
                 (MimeTree.body (Prepared.mimeTree p2))
    = Message.fingerprint m ->
  Mailbox._id mb2 = Message.mailbox m ->
  exists v' r,
    onAppend C path2 flags2 date2 raw2 session2 v = (v', FnOk true r) /\
    same_store v v' /\
    Response.uid r = Message.uid m /\
    Response.id r = Message._id m /\
    Response.size r = Message.size m /\
    Response.mailbox r = Message.mailbox m.
Proof.
  intros Hst Hnone Hv Hs Hq Hm Hp Hc Hfp Hmb.
  rewrite (onAppend_after_gate C direct _ _ _ _ _ _ _ _ _ Hs Hq Hm).
  pose proof (gate_store C flags2 s2 raw2 v) as Gs.
  destruct Gs as (G1 & Gg & G2 & G3 & G4).
  unfold append_after_gate. run_m. rewrite Hp. simpl. rewrite Hc. simpl.
  rewrite Hfp, Hmb, Gg, Hv, Hst.
  unfold Messages_findOne in *. rewrite find_append, Hnone. simpl.
  rewrite !String.eqb_refl. simpl.
  eexists _, _. split; [reflexivity|]. simpl.
  split; [repeat split; assumption|]. repeat split.
Qed.

End AppendOnly.

(** ** The text kept for indexing *)

Section IndexText.

Variable C : Collaborators.
Hypothesis direct : wsp C = None.

Lemma slice0_length n : forall s, (String.length (slice0 n s) <= n)%nat.
Proof.
  unfold slice0. induction n as [|n IH]; intros s; destruct s; simpl;
    try lia.
  specialize (IH s). lia.
Qed.

Lemma index_text_length md :
  (forall x, (String.length (trim C x) <= String.length x)%nat) ->
  (String.length (index_text C md) <= 1024)%nat.
Proof.
  intros Htrim. unfold index_text.
  destruct (Maildata.text md) as [|c t]; [simpl; lia|].
  match goal with
  | |- (String.length (trim C ?x) <= _)%nat =>
      apply Nat.le_trans with (String.length x); [apply Htrim|]
  end.
  match goal with
  | |- context [if ?b then _ else _] => destruct b eqn:L
  end.
  - apply slice0_length.
  - apply Nat.ltb_ge in L. exact L.
Qed.

(** X19. The text stored for indexing is never longer than 1024 code
    units, whatever the message, provided [trim] does not lengthen a
    string. *)
Theorem stored_index_text_is_bounded path flags date raw session w :
  (forall x, (String.length (trim C x) <= String.length x)%nat) ->
  messages (fst (onAppend C path flags date raw session w)) <> messages w ->
  exists m,
    messages (fst (onAppend C path flags date raw session w))
      = messages w ++ [m] /\
    (String.length (Message.text m) <= 1024)%nat.
Proof.
  intros Htrim H.
  destruct (stored_inversion C direct _ _ _ _ _ _ H)
    as (s & su & found & p & max & alloc & th & ths & hb & R).
  simpl in R. decompose [and] R. eexists. split; [eassumption|].
  simpl. apply index_text_length, Htrim.
Qed.

End IndexText.

(** ** Nothing is stored unchecked *)

Section Checked.

Variable C : Collaborators.
Hypothesis direct : wsp C = None.

(** X20. A run stores at most one message, and only after every check
    passed: the session was refreshed, the owner was not over quota, the
    path named a mailbox, the message parsed, no copy was known when the
    session asked for the check, the final quota check passed and the
    document was accepted. *)
Theorem nothing_is_stored_unchecked path flags date raw session w :
  messages (fst (onAppend C path flags date raw session w)) <> messages w ->
  exists s su mb p max m,
    refreshSession C w session "APPEND" = inr s /\
    Aliases_isOverQuota C w (user s) 0 = inr (su, false) /\
    Mailboxes_findOne path (mailboxes w) = Some mb /\
    prepareMessage C flags date (snd (encryption_gate C flags s raw w))
      = inr p /\
    (checkForExisting s = true ->
     Messages_findOne
       (getFingerprint C s (Prepared.headers p)
                       (MimeTree.body (Prepared.mimeTree p)))
       (Mailbox._id mb) (messages w) = None) /\
    Domains_getMaxQuota C (domain_id (user s)) = inr max /\
    su + Prepared.size p <= max /\
    Messages_validate C m = None /\
    messages (fst (onAppend C path flags date raw session w))
      = messages w ++ [m] /\
    Message.mailbox m = Mailbox._id mb /\
    Message.size m = Prepared.size p.
Proof.
  intros H.
  destruct (stored_inversion C direct _ _ _ _ _ _ H)
    as (s & su & found & p & max & alloc & th & ths & hb & R).
  simpl in R. decompose [and] R. clear R.
  eexists s, su, found, p, max, _.
  repeat (split; [eassumption|]).
  split.
  - intros Hc.
    match goal with
    | Hd : (if checkForExisting s then _ else _) = None |- _ =>
        now rewrite Hc in Hd
    end.
  - repeat (split; [eassumption|]). split; reflexivity.
Qed.

End Checked.

(** * Properties of the backup cleanup job *)

Section JobScan.

Variable E : Job.Env.

Lemma unlinked_app l l' :
  Job.unlinked (l ++ l') = Job.unlinked l ++ Job.unlinked l'.
Proof.
  induction l as [|e l IH]; simpl; [reflexivity|].
  destruct e; simpl; congruence.
Qed.

Lemma sized_app l l' : Job.sized (l ++ l') = Job.sized l ++ Job.sized l'.
Proof.
  induction l as [|e l IH]; simpl; [reflexivity|].
  destruct e; simpl; congruence.
Qed.

Lemma only_unlinks_sized l : Job.only_unlinks l -> Job.sized l = [].
Proof.
  induction l as [|e l IH]; intros H; simpl; [reflexivity|].
  destruct (H e (or_introl eq_refl)) as [p ->]. apply IH.
  intros x Hx. apply H. now right.
Qed.

Lemma only_unlinks_no_done l :
  Job.only_unlinks l -> filter Job.is_done l = [].
Proof.
  induction l as [|e l IH]; intros H; simpl; [reflexivity|].
  destruct (H e (or_introl eq_refl)) as [p ->]. simpl. apply IH.
  intros x Hx. apply H. now right.
Qed.

Lemma only_unlinks_no_mail l m :
  Job.only_unlinks l -> ~ In (Job.Email m) l.
Proof. intros H Hin. destruct (H _ Hin) as [p Hp]. discriminate. Qed.

Lemma set_add_In x y s : In y (Job.set_add x s) <-> In y s \/ y = x.
Proof.
  unfold Job.set_add. destruct (existsb (String.eqb x) s) eqn:Ex.
  - split; [auto|]. intros [H| ->]; [exact H|].
    apply existsb_exists in Ex. destruct Ex as (z & Hz & Ez).
    apply String.eqb_eq in Ez. now subst z.
  - rewrite in_app_iff. simpl. intuition congruence.
Qed.

Lemma set_add_NoDup x s : NoDup s -> NoDup (Job.set_add x s).
Proof.
  intros H. unfold Job.set_add.
  destruct (existsb (String.eqb x) s) eqn:Ex; [exact H|].
  apply NoDup_app; [exact H | repeat constructor; simpl; tauto |].
  intros y Hy [Heq|[]]. subst y.
  assert (existsb (String.eqb x) s = true)
    by (apply existsb_exists; exists x; split;
        [exact Hy | apply String.eqb_refl]).
  congruence.
Qed.

Lemma add_id_scanned dirent file st :
  let b := Job.path_basename E (Job.name file)
             (Job.path_extname E (Job.name file)) in
  let p := Job.path_join E [Job.mountDir E; Job.name dirent; Job.name file] in
  Job.listed E dirent file ->
  Job.scanned E st ->
  (Job.endsWith b "-backup" = false \/
   exists s, Job.stat E p = inr s /\ Job.stat_isFile s = false) ->
  Job.scanned E (Job.add_id (Job.replace "-tmp" "" b) st).
Proof.
  intros b p (dirents & files & L1 & L2 & L3 & L4 & L5 & L6 & L7)
         (Hu & Hc & Ho & Hn) Hwhy.
  repeat split; simpl; try assumption.
  - apply Forall_forall. intros id Hid. apply set_add_In in Hid.
    destruct Hid as [Hid| ->]; [revert id Hid; now apply Forall_forall|].
    exists dirents, dirent, files, file. fold b.
    repeat (split; [assumption|]). split; [reflexivity|exact Hwhy].
  - now apply set_add_NoDup.
Qed.

Lemma unlink_scanned dirent file st affix s :
  let b := Job.path_basename E (Job.name file)
             (Job.path_extname E (Job.name file)) in
  let p := Job.path_join E [Job.mountDir E; Job.name dirent; Job.name file] in
  Job.listed E dirent file ->
  Job.scanned E st ->
  In affix Job.AFFIXES -> Job.endsWith b affix = true ->
  Job.stat E p = inr s -> Job.stat_isFile s = true ->
  Job.stale E s = true ->
  Job.scanned E (Job.record (Job.Unlink p) st) /\
  Job.scanned E (Job.push p (Job.record (Job.Unlink p) st)).
Proof.
  intros b p (dirents & files & L1 & L2 & L3 & L4 & L5 & L6 & L7)
         (Hu & Hc & Ho & Hn) Ha He Hs Hf Hst.
  assert (R : Job.removable E p).
  { exists dirents, dirent, files, file, affix, s.
    repeat (split; [first [assumption | reflexivity]|]).
    unfold Job.stale in Hst. apply andb_prop in Hst.
    destruct Hst as [Hz Hle]. split.
    - intros Hq. apply QArith_base.Qeq_bool_iff in Hq.
      rewrite Hq in Hz. discriminate.
    - now apply QArith_base.Qle_bool_iff. }
  assert (S1 : Job.scanned E (Job.record (Job.Unlink p) st)).
  { repeat split; simpl; try assumption.
    - rewrite unlinked_app. apply Forall_app. split; [assumption|].
      simpl. now constructor.
    - intros e He'. apply in_app_iff in He'.
      destruct He' as [He'|[<-|[]]]; [now apply Ho | now exists p]. }
  split; exact S1.
Qed.

(** One file of a listed directory. *)
Lemma file_step_scanned dirent file st st' r :
  Job.listed E dirent file ->
  Job.scanned E st ->
  Job.affixes_loop E (Job.name dirent) (Job.name file)
    (Job.path_basename E (Job.name file)
       (Job.path_extname E (Job.name file)))
    Job.AFFIXES st = (st', r) ->
  Job.scanned E st'.
Proof.
  intros L S0.
  pose proof (add_id_scanned dirent file) as Add.
  pose proof (unlink_scanned dirent file) as Del.
  simpl in Add, Del.
  set (b := Job.path_basename E (Job.name file)
              (Job.path_extname E (Job.name file))) in *.
  set (p := Job.path_join E [Job.mountDir E; Job.name dirent; Job.name file])
    in *.
  unfold Job.AFFIXES. simpl. fold p.
  assert (A1 : In "-backup" Job.AFFIXES) by (simpl; auto).
  assert (A2 : In "-backup-wal" Job.AFFIXES) by (simpl; auto).
  assert (A3 : In "-backup-shm" Job.AFFIXES) by (simpl; auto).
  clearbody b p.
  destruct (Job.endsWith b "-backup") eqn:E1; simpl.
  - destruct (Job.stat E p) as [e|s] eqn:Hs; [intros [= <- <-]; exact S0|].
    destruct (Job.stat_isFile s) eqn:Hf; simpl.
    + destruct (Job.stale E s) eqn:Hst.
      * destruct (Del st "-backup" s L S0 A1 E1 eq_refl Hf Hst)
          as [D1 D2].
        destruct (Job.unlink E p); intros [= <- <-]; assumption.
      * intros [= <- <-]; exact S0.
    + assert (W : true = false \/
                  exists s0, @inr Err _ s = inr s0 /\
                             Job.stat_isFile s0 = false)
        by (right; now exists s).
      pose proof (Add st L S0 W) as S1.
      destruct (Job.endsWith b "-backup-wal") eqn:E2; simpl;
        destruct (Job.endsWith b "-backup-shm") eqn:E3; simpl;
        rewrite ?Hf; simpl; intros [= <- <-];
        first [exact S0 | exact S1 | apply Add; assumption].
  - assert (W : false = false \/
                exists s0, Job.stat E p = inr s0 /\
                           Job.stat_isFile s0 = false) by now left.
    pose proof (Add st L S0 W) as S1.
    destruct (Job.endsWith b "-backup-wal") eqn:E2; simpl.
    + destruct (Job.stat E p) as [e|s] eqn:Hs; [intros [= <- <-]; exact S1|].
      destruct (Job.stat_isFile s) eqn:Hf; simpl.
      * destruct (Job.stale E s) eqn:Hst.
        -- destruct (Del _ "-backup-wal" s L S1 A2 E2 eq_refl Hf Hst)
             as [D1 D2].
           destruct (Job.unlink E p); intros [= <- <-]; assumption.
        -- intros [= <- <-]; exact S1.
      * destruct (Job.endsWith b "-backup-shm") eqn:E3; simpl;
          rewrite ?Hf; simpl; intros [= <- <-];
          first [exact S1 | apply Add; auto].
    + pose proof (Add _ L S1 W) as S2.
      destruct (Job.endsWith b "-backup-shm") eqn:E3; simpl.
      * destruct (Job.stat E p) as [e|s] eqn:Hs; [intros [= <- <-]; exact S2|].
        destruct (Job.stat_isFile s) eqn:Hf; simpl.
        -- destruct (Job.stale E s) eqn:Hst.
           ++ destruct (Del _ "-backup-shm" s L S2 A3 E3 eq_refl Hf Hst)
                as [D1 D2].
              destruct (Job.unlink E p); intros [= <- <-]; assumption.
           ++ intros [= <- <-]; exact S2.
        -- intros [= <- <-]; exact S2.
      * intros [= <- <-]. apply Add; auto.
Qed.


Lemma files_loop_scanned dirent files0 : forall files st st' r,
  (forall file, In file files -> Job.isFile file = true ->
     Job.path_extname E (Job.name file) = ".sqlite" ->
     Job.listed E dirent file) ->
  incl files files0 ->
  Job.scanned E st ->
  Job.files_loop E (Job.name dirent) files st = (st', r) ->
  Job.scanned E st'.
Proof.
  induction files as [|file rest IH]; intros st st' r HL Hincl S0; simpl.
  - intros [= <- <-]. exact S0.
  - destruct (Job.file_step E (Job.name dirent) file st) as [st1 r1] eqn:Hstep.
    assert (S1 : Job.scanned E st1).
    { unfold Job.file_step in Hstep.
      destruct (Job.isFile file) eqn:Hf; simpl in Hstep;
        [|injection Hstep as <- <-; exact S0].
      destruct (String.eqb (Job.path_extname E (Job.name file)) ".sqlite")
        eqn:Hx; simpl in Hstep; [|injection Hstep as <- <-; exact S0].
      apply String.eqb_eq in Hx.
      eapply file_step_scanned; [|exact S0|exact Hstep].
      apply HL; [now left | exact Hf | exact Hx]. }
    destruct r1 as [e|]; [intros [= <- <-]; exact S1|].
    apply IH; [|intros x Hx; apply Hincl; now right|exact S1].
    intros f Hf. apply HL. now right.
Qed.

Lemma dirents_loop_scanned dirents0 : forall dirents st st' r,
  Job.readdir E (Job.mountDir E) = inr dirents0 ->
  incl dirents dirents0 ->
  Job.scanned E st ->
  Job.dirents_loop E dirents st = (st', r) ->
  Job.scanned E st'.
Proof.
  induction dirents as [|d rest IH]; intros st st' r Hd Hincl S0; simpl.
  - intros [= <- <-]. exact S0.
  - destruct (Job.dirent_step E d st) as [st1 r1] eqn:Hstep.
    assert (S1 : Job.scanned E st1).
    { unfold Job.dirent_step in Hstep.
      destruct (Job.isDirectory d) eqn:Hdir; simpl in Hstep;
        [|injection Hstep as <- <-; exact S0].
      destruct (Job.readdir E (Job.path_join E [Job.mountDir E; Job.name d]))
        as [e|files] eqn:Hfiles; [injection Hstep as <- <-; exact S0|].
      eapply (files_loop_scanned d files);
        [|apply incl_refl|exact S0|exact Hstep].
      intros file Hin Hf Hx. exists dirents0, files.
      repeat (split; [first [assumption | apply Hincl; now left]|]).
      exact Hx. }
    destruct r1 as [e|]; [intros [= <- <-]; exact S1|].
    apply IH; [exact Hd|intros x Hx; apply Hincl; now right|exact S1].
Qed.

Lemma scan0_scanned : Job.scanned E Job.scan0.
Proof.
  repeat split; simpl; try constructor. intros e [].
Qed.

(** What holds when the scan ends, however it ends. *)
Lemma scan_scanned : Job.scanned E (fst (Job.scan E)).
Proof.
  unfold Job.scan.
  destruct (Job.readdir E (Job.mountDir E)) as [e|dirents] eqn:Hd;
    [apply scan0_scanned|].
  destruct (Job.dirents_loop E dirents Job.scan0) as [st r] eqn:Hl.
  eapply dirents_loop_scanned;
    [exact Hd | apply incl_refl | apply scan0_scanned | exact Hl].
Qed.

(** ** The paths reported are the paths removed *)

Lemma affixes_loop_clean dir file b : forall affixes st st',
  Job.unlinked (Job.log st) = Job.filePaths st ->
  Job.affixes_loop E dir file b affixes st = (st', None) ->
  Job.unlinked (Job.log st') = Job.filePaths st'.
Proof.
  induction affixes as [|a rest IH]; intros st st' Hc; simpl.
  - intros [= <-]. exact Hc.
  - destruct (Job.endsWith b a); simpl.
    + destruct (Job.stat E _) as [e|s]; [discriminate|].
      destruct (Job.stat_isFile s); simpl; [|now apply IH].
      destruct (Job.stale E s); [|intros [= <-]; exact Hc].
      destruct (Job.unlink E _); [discriminate|].
      intros [= <-]. simpl. rewrite unlinked_app, Hc. reflexivity.
    + apply IH. exact Hc.
Qed.

Lemma files_loop_clean dir : forall files st st',
  Job.unlinked (Job.log st) = Job.filePaths st ->
  Job.files_loop E dir files st = (st', None) ->
  Job.unlinked (Job.log st') = Job.filePaths st'.
Proof.
  induction files as [|file rest IH]; intros st st' Hc; simpl.
  - intros [= <-]. exact Hc.
  - destruct (Job.file_step E dir file st) as [st1 [e|]] eqn:Hstep;
      [discriminate|].
    apply IH. unfold Job.file_step in Hstep.
    destruct (negb (Job.isFile file)); [injection Hstep as <-; exact Hc|].
    destruct (negb (String.eqb _ _)); [injection Hstep as <-; exact Hc|].
    eapply affixes_loop_clean; eassumption.
Qed.

Lemma dirents_loop_clean : forall dirents st st',
  Job.unlinked (Job.log st) = Job.filePaths st ->
  Job.dirents_loop E dirents st = (st', None) ->
  Job.unlinked (Job.log st') = Job.filePaths st'.
Proof.
  induction dirents as [|d rest IH]; intros st st' Hc; simpl.
  - intros [= <-]. exact Hc.
  - destruct (Job.dirent_step E d st) as [st1 [e|]] eqn:Hstep;
      [discriminate|].
    apply IH. unfold Job.dirent_step in Hstep.
    destruct (negb (Job.isDirectory d)); [injection Hstep as <-; exact Hc|].
    destruct (Job.readdir E _) as [e|files]; [discriminate|].
    eapply files_loop_clean; eassumption.
Qed.

Lemma scan_clean :
  snd (Job.scan E) = None ->
  Job.unlinked (Job.log (fst (Job.scan E))) = Job.filePaths (fst (Job.scan E)).
Proof.
  unfold Job.scan.
  destruct (Job.readdir E (Job.mountDir E)) as [e|dirents]; [discriminate|].
  destruct (Job.dirents_loop E dirents Job.scan0) as [st r] eqn:Hl. simpl.
  intros ->. eapply dirents_loop_clean; [|exact Hl]. reflexivity.
Qed.

(** ** The log of the job, part by part *)

Lemma removed_reports_app l l' :
  Job.removed_reports (l ++ l') =
  Job.removed_reports l ++ Job.removed_reports l'.
Proof.
  induction l as [|e l IH]; simpl; [reflexivity|].
  destruct e as [| [] | | | |]; simpl; congruence.
Qed.

Lemma failures_app l l' :
  Job.failures (l ++ l') = Job.failures l ++ Job.failures l'.
Proof.
  induction l as [|e l IH]; simpl; [reflexivity|].
  destruct e as [| [] | | | |]; simpl; congruence.
Qed.

Lemma only_unlinks_no_reports l :
  Job.only_unlinks l ->
  Job.removed_reports l = [] /\ Job.failures l = [].
Proof.
  induction l as [|e l IH]; intros H; simpl; [now split|].
  destruct (H e (or_introl eq_refl)) as [p ->]. apply IH.
  intros x Hx. apply H. now right.
Qed.

Lemma size_requests_facts ids :
  Job.unlinked (Job.size_requests ids) = [] /\
  Job.sized (Job.size_requests ids) = ids /\
  Job.removed_reports (Job.size_requests ids) = [] /\
  Job.failures (Job.size_requests ids) = [] /\
  filter Job.is_done (Job.size_requests ids) = [].
Proof.
  induction ids as [|x ids (H1 & H2 & H3 & H4 & H5)]; simpl;
    repeat split; congruence.
Qed.

Lemma report_facts m :
  Job.unlinked (Job.report E m) = [] /\
  Job.sized (Job.report E m) = [] /\
  Job.failures (Job.report E m) =
    match m with Job.Failed e => [e] | _ => [] end /\
  Job.removed_reports (Job.report E m) =
    match m with Job.Removed ps => [ps] | _ => [] end /\
  filter Job.is_done (Job.report E m) = [].
Proof.
  unfold Job.report. destruct m; simpl; repeat split; reflexivity.
Qed.

End JobScan.

Section JobLog.

Variable E : Job.Env.

Lemma done_is_done : Job.is_done (Job.done E) = true.
Proof. unfold Job.done. now destruct (Job.parentPort E). Qed.

(** What the job logs after the [try] block. *)
Lemma job_unfold :
  Job.setupMongoose E = None ->
  Job.isCancelled E = false ->
  exists tail,
    fst (Job.job E) = fst (Job.try_block E) ++ tail /\
    Job.unlinked tail = [] /\
    Job.sized tail = [] /\
    Job.removed_reports tail = [] /\
    Job.failures tail =
      match snd (Job.try_block E) with Some e => [e] | None => [] end /\
    filter Job.is_done tail =
      match snd (Job.job E) with Job.Finished => [Job.done E] | _ => [] end.
Proof.
  intros Hs Hc. unfold Job.job. rewrite Hs, Hc.
  destruct (Job.try_block E) as [l [e|]]; simpl.
  - destruct (Job.emailHelper E (Job.Failed e)); simpl.
    + eexists. split; [reflexivity|]. repeat split.
    + eexists. rewrite <- app_assoc. split; [reflexivity|]. simpl.
      rewrite done_is_done.
      unfold Job.done. destruct (Job.parentPort E); repeat split.
  - eexists. split; [reflexivity|]. simpl. rewrite done_is_done.
    unfold Job.done. destruct (Job.parentPort E); repeat split.
Qed.

(** What the job logs between the scan and the end of the [try] block. *)
Lemma after_scan_unfold st :
  exists tail,
    fst (Job.after_scan E st) = Job.log st ++ tail /\
    Job.unlinked tail = [] /\
    Job.removed_reports tail =
      match Job.filePaths st with [] => [] | _ :: _ => [Job.filePaths st] end /\
    Job.failures tail = [] /\
    filter Job.is_done tail = [] /\
    Job.sized tail =
      match Job.ids st, Job.Aliases_distinct E (Job.ids st) with
      | _ :: _, inr badIds => Job.delete_all badIds (Job.ids st)
      | _, _ => []
      end.
Proof.
  unfold Job.after_scan.
  set (r1 := match Job.filePaths st with
             | [] => []
             | _ :: _ => Job.report E (Job.Removed (Job.filePaths st))
             end).
  assert (R1 : Job.unlinked r1 = [] /\ Job.sized r1 = [] /\
               Job.failures r1 = [] /\
               Job.removed_reports r1 =
                 match Job.filePaths st with
                 | [] => []
                 | _ :: _ => [Job.filePaths st]
                 end /\
               filter Job.is_done r1 = []).
  { unfold r1. destruct (Job.filePaths st); [repeat split|].
    apply (report_facts E (Job.Removed (s :: l))). }
  destruct R1 as (U1 & S1 & F1 & P1 & D1).
  destruct (Job.ids st) as [|i ids] eqn:Hi.
  { exists r1. repeat split; assumption. }
  destruct (Job.Aliases_distinct E (i :: ids)) as [e|badIds].
  { exists r1. repeat split; assumption. }
  set (r2 := match badIds with
             | [] => []
             | _ :: _ => Job.report E (Job.BadIds badIds)
             end).
  assert (R2 : Job.unlinked r2 = [] /\ Job.sized r2 = [] /\
               Job.failures r2 = [] /\ Job.removed_reports r2 = [] /\
               filter Job.is_done r2 = []).
  { unfold r2. destruct badIds; [repeat split|].
    apply (report_facts E (Job.BadIds (s :: badIds))). }
  destruct R2 as (U2 & S2 & F2 & P2 & D2).
  destruct (size_requests_facts (Job.delete_all badIds (i :: ids)))
    as (U3 & S3 & P3 & F3 & D3).
  exists (r1 ++ r2 ++ Job.size_requests (Job.delete_all badIds (i :: ids))).
  simpl. rewrite <- !app_assoc. split; [reflexivity|].
  rewrite !unlinked_app, !removed_reports_app, !failures_app, !filter_app,
    !sized_app, U1, U2, U3, S1, S2, S3, F1, F2, F3, P1, P2, P3, D1, D2, D3,
    ?app_nil_r.
  repeat split; reflexivity.
Qed.

Lemma try_block_unfold :
  Job.try_block E =
  match snd (Job.scan E) with
  | Some e => (Job.log (fst (Job.scan E)), Some e)
  | None => Job.after_scan E (fst (Job.scan E))
  end.
Proof.
  unfold Job.try_block. now destruct (Job.scan E) as [st [e|]].
Qed.

Lemma job_unlinked :
  Job.unlinked (fst (Job.job E)) =
  match Job.setupMongoose E with
  | Some _ => []
  | None =>
      if Job.isCancelled E then []
      else Job.unlinked (Job.log (fst (Job.scan E)))
  end.
Proof.
  destruct (Job.setupMongoose E) eqn:Hs;
    [unfold Job.job; now rewrite Hs|].
  destruct (Job.isCancelled E) eqn:Hc;
    [unfold Job.job; now rewrite Hs, Hc|].
  destruct (job_unfold Hs Hc) as (tail & -> & U & _).
  rewrite unlinked_app, U, app_nil_r, try_block_unfold.
  destruct (snd (Job.scan E)); [reflexivity|].
  destruct (after_scan_unfold (fst (Job.scan E))) as (t2 & -> & U2 & _).
  now rewrite unlinked_app, U2, app_nil_r.
Qed.

(** X21. The job removes nothing but stale backups: every path it hands to
    [unlink] names a file of a directory of the mount point whose extension
    is [.sqlite] and whose base name ends with [-backup], [-backup-wal] or
    [-backup-shm], for which [stat] reported a file last modified at least
    four hours before the job ran. *)
Theorem job_removes_only_stale_backups filePath :
  In filePath (Job.unlinked (fst (Job.job E))) -> Job.removable E filePath.
Proof.
  rewrite job_unlinked.
  destruct (Job.setupMongoose E); [intros []|].
  destruct (Job.isCancelled E); [intros []|].
  destruct (scan_scanned E) as (H & _).
  rewrite Forall_forall in H. apply H.
Qed.

(** X22. When the scan meets no error, what is reported is what was
    removed: the job sends one report listing exactly the paths it handed to
    [unlink], in order, and none when it removed nothing. *)
Theorem report_lists_what_was_removed :
  Job.setupMongoose E = None ->
  Job.isCancelled E = false ->
  snd (Job.scan E) = None ->
  Job.removed_reports (fst (Job.job E)) =
  match Job.unlinked (fst (Job.job E)) with
  | [] => []
  | _ :: _ => [Job.unlinked (fst (Job.job E))]
  end.
Proof.
  intros Hs Hc Hscan. rewrite job_unlinked, Hs, Hc.
  destruct (job_unfold Hs Hc) as (tail & -> & _ & _ & R & _).
  rewrite removed_reports_app, R, app_nil_r, try_block_unfold, Hscan.
  destruct (after_scan_unfold (fst (Job.scan E))) as (t2 & -> & _ & R2 & _).
  destruct (scan_scanned E) as (_ & _ & Ho & _).
  destruct (only_unlinks_no_reports _ Ho) as [R0 _].
  rewrite removed_reports_app, R0, R2, (scan_clean E Hscan). reflexivity.
Qed.

(** X23. When a file system call of the scan rejects, the job reports that
    error and nothing else: no report of removed backups is sent - also
    when backups were removed before the error - and no size request; the
    job still ends with its final message when the error report was
    accepted by the mail helper. *)
Theorem scan_failure_is_reported_alone e :
  Job.setupMongoose E = None ->
  Job.isCancelled E = false ->
  snd (Job.scan E) = Some e ->
  Job.failures (fst (Job.job E)) = [e] /\
  Job.removed_reports (fst (Job.job E)) = [] /\
  Job.sized (fst (Job.job E)) = [] /\
  In (Job.LogError e) (fst (Job.job E)) /\
  (Job.emailHelper E (Job.Failed e) = None ->
   snd (Job.job E) = Job.Finished /\
   exists l, fst (Job.job E) = l ++ [Job.done E]).
Proof.
  intros Hs Hc Hscan.
  destruct (scan_scanned E) as (_ & _ & Ho & _).
  destruct (only_unlinks_no_reports _ Ho) as [R0 F0].
  pose proof (only_unlinks_sized _ Ho) as S0.
  unfold Job.job. rewrite Hs, Hc, try_block_unfold, Hscan.
  unfold Job.done.
  destruct (Job.emailHelper E (Job.Failed e)); destruct (Job.parentPort E);
    simpl;
    rewrite ?failures_app, ?removed_reports_app, ?sized_app, ?R0, ?F0, ?S0;
    simpl; repeat split; try reflexivity;
    rewrite ?in_app_iff; simpl; auto; try congruence.
  all: eexists; reflexivity.
Qed.

(** The function reaches its final statement at most once, and last. *)
Lemma job_done_once :
  filter Job.is_done (fst (Job.job E)) =
    match snd (Job.job E) with
    | Job.Finished => [Job.done E]
    | _ => []
    end.
Proof.
  destruct (Job.setupMongoose E) eqn:Hs;
    [unfold Job.job; now rewrite Hs|].
  destruct (Job.isCancelled E) eqn:Hc;
    [unfold Job.job; now rewrite Hs, Hc|].
  destruct (job_unfold Hs Hc) as (tail & -> & _ & _ & _ & _ & D).
  rewrite filter_app, D, try_block_unfold.
  destruct (scan_scanned E) as (_ & _ & Ho & _).
  destruct (snd (Job.scan E)); simpl.
  - now rewrite (only_unlinks_no_done _ Ho).
  - destruct (after_scan_unfold (fst (Job.scan E)))
      as (t2 & -> & _ & _ & _ & D2 & _).
    now rewrite filter_app, D2, (only_unlinks_no_done _ Ho).
Qed.

Lemma job_finished_last :
  snd (Job.job E) = Job.Finished ->
  exists l, fst (Job.job E) = l ++ [Job.done E].
Proof.
  unfold Job.job.
  destruct (Job.setupMongoose E); [discriminate|].
  destruct (Job.isCancelled E); [discriminate|].
  destruct (Job.try_block E) as [l [e|]]; simpl.
  - destruct (Job.emailHelper E (Job.Failed e)); simpl; [discriminate|].
    intros _. eexists. reflexivity.
  - intros _. eexists. reflexivity.
Qed.

(** The handlers that run late add no final message to what is shown. *)
Lemma observed_done pending prev rest t :
  Job.observed E pending prev rest t ->
  filter Job.is_done t = filter Job.is_done rest.
Proof.
  induction 1 as [| p1 err p2 prev rest t _ _ IH | p prev e rest t _ IH];
    simpl; [reflexivity | exact IH | now rewrite IH].
Qed.

(** Once the function has ended, only handlers of pending rejections run,
    and none after [process.exit]. *)
Lemma observed_after pending prev t :
  Job.observed E pending prev [] t ->
  Forall (fun e => exists err, e = Job.LogError err /\ In err pending) t /\
  (t <> [] -> Job.can_run prev [] = true).
Proof.
  intros H. remember [] as rest eqn:Hr. revert Hr.
  induction H as [| p1 err p2 prev rest t Hc _ IH | p prev e rest t _ IH];
    intros Hr; [split; [constructor | congruence] | | discriminate].
  subst rest. destruct (IH eq_refl) as [IH1 _]. split; [|auto].
  constructor.
  - exists err. split; [reflexivity|]. rewrite in_app_iff. simpl. auto.
  - eapply Forall_impl; [|exact IH1]. simpl.
    intros e (err' & -> & Hin). exists err'. split; [reflexivity|].
    rewrite in_app_iff in *. simpl. tauto.
Qed.

(** What is shown splits at the last event of the function: its other
    events come before, and after it only the handlers of rejections
    run. *)
Lemma observed_split d pending prev rest t :
  Job.observed E pending prev rest t ->
  forall l, rest = l ++ [d] ->
  exists before after,
    t = before ++ d :: after /\
    (forall e, In e l -> In e before) /\
    Forall (fun e => exists err, e = Job.LogError err /\
              (In err pending \/
               exists e', In e' rest /\ In err (Job.rejection E e'))) after /\
    (after <> [] -> Job.can_run (Some d) [] = true).
Proof.
  induction 1 as [| p1 err p2 prev rest t Hc _ IH | p prev e rest t H IH];
    intros l Hl.
  - now destruct l.
  - destruct (IH l Hl) as (before & after & -> & Hin & Hall & Hrun).
    exists (Job.LogError err :: before), after. split; [reflexivity|].
    split; [intros x He; right; auto|]. split; [|exact Hrun].
    eapply Forall_impl; [|exact Hall]. simpl.
    intros x (err' & -> & [Hp|Hp]); exists err'; (split; [reflexivity|]);
      [left | right; exact Hp].
    rewrite in_app_iff in *. simpl. tauto.
  - destruct l as [|e0 l0]; simpl in Hl; injection Hl as <- ->.
    + destruct (observed_after _ _ _ H) as [Hall Hrun].
      exists [], t. split; [reflexivity|]. split; [intros x []|].
      split; [|exact Hrun].
      eapply Forall_impl; [|exact Hall]. simpl.
      intros x (err' & -> & Hp). exists err'. split; [reflexivity|].
      rewrite in_app_iff in Hp. destruct Hp as [Hp|Hp]; [auto|].
      right. eexists. split; [left; reflexivity | exact Hp].
    + destruct (IH l0 eq_refl) as (before & after & -> & Hin & Hall & Hrun).
      exists (e :: before), after. split; [reflexivity|].
      split; [intros x [<-|He]; [left; reflexivity | right; auto]|].
      split; [|exact Hrun].
      eapply Forall_impl; [|exact Hall]. simpl.
      intros x (err' & -> & [Hp|(e' & He' & Hp)]); exists err';
        (split; [reflexivity|]).
      * rewrite in_app_iff in Hp. destruct Hp as [Hp|Hp]; [auto|].
        right. exists e. simpl. auto.
      * right. exists e'. simpl. auto.
Qed.

(** Where the function does not await between two events, nothing is
    shown between them. *)
Lemma observed_adjacent e d pending prev rest t :
  Job.observed E pending prev rest t ->
  Job.yields (Some e) d = false ->
  forall l tail, rest = l ++ e :: d :: tail ->
  exists before after, t = before ++ e :: d :: after.
Proof.
  intros H Hy.
  induction H as [| p1 err p2 prev rest t Hc _ IH | p prev e0 rest t H IH];
    intros l tail Hl.
  - now destruct l.
  - destruct (IH l tail Hl) as (before & after & ->).
    now exists (Job.LogError err :: before), after.
  - destruct l as [|e1 l0]; simpl in Hl; injection Hl as <- ->.
    + inversion H as [| p1 err p2 prev' rest' t' Hc H' | p' prev' e' rest' t' H'];
        subst.
      * unfold Job.can_run in Hc. congruence.
      * now exists [], t'.
    + destruct (IH l0 tail eq_refl) as (before & after & ->).
      now exists (e0 :: before), after.
Qed.

Lemma rejection_inv e err :
  In err (Job.rejection E e) ->
  exists mail,
    e = Job.Email mail /\ Job.emailHelper E mail = Some err /\
    forall e', mail <> Job.Failed e'.
Proof.
  destruct e as [| [ps|ids|e'] | | | |]; simpl; try tauto.
  - destruct (Job.emailHelper E (Job.Removed ps)) eqn:Hm; simpl;
      [|tauto].
    intros [<-|[]]. exists (Job.Removed ps). repeat split; auto.
    discriminate.
  - destruct (Job.emailHelper E (Job.BadIds ids)) eqn:Hm; simpl;
      [|tauto].
    intros [<-|[]]. exists (Job.BadIds ids). repeat split; auto.
    discriminate.
Qed.

(** X24. In whatever the process shows of a run, the final message -
    [postMessage('done')], or [process.exit(0)] without a parent port -
    occurs once if the function reached its last statement and not at all
    otherwise.  Every event of the function comes before it; all that can
    follow it is the [logger.error] of a report that was not awaited and
    whose mail was rejected, and nothing follows [process.exit].  When the
    report of the removed backups is the last thing before the final
    message, nothing comes between the two.  A cancelled job returns
    before: it shows nothing. *)
Theorem final_message_only_at_the_end t :
  Job.shows E t ->
  filter Job.is_done t =
    match snd (Job.job E) with
    | Job.Finished => [Job.done E]
    | _ => []
    end /\
  (snd (Job.job E) = Job.Finished ->
   exists l before after,
     fst (Job.job E) = l ++ [Job.done E] /\
     t = before ++ Job.done E :: after /\
     (forall e, In e l -> In e before) /\
     Forall (fun e => exists err mail,
               e = Job.LogError err /\
               In (Job.Email mail) l /\
               (forall e', mail <> Job.Failed e') /\
               Job.emailHelper E mail = Some err) after /\
     (Job.parentPort E = false -> after = [])) /\
  (forall l ps,
     fst (Job.job E) = l ++ [Job.Email (Job.Removed ps); Job.done E] ->
     exists before after,
       t = before ++ Job.Email (Job.Removed ps) :: Job.done E :: after) /\
  (Job.setupMongoose E = None -> Job.isCancelled E = true ->
   t = [] /\ snd (Job.job E) = Job.Returned).
Proof.
  unfold Job.shows. intros H. split; [|split; [|split]].
  - rewrite (observed_done _ _ _ _ H). apply job_done_once.
  - intros Hf. destruct (job_finished_last Hf) as [l Hl].
    destruct (observed_split (Job.done E) _ _ _ _ H l Hl)
      as (before & after & -> & Hin & Hall & Hrun).
    exists l, before, after. split; [exact Hl|]. split; [reflexivity|].
    split; [exact Hin|]. split.
    + eapply Forall_impl; [|exact Hall]. simpl.
      intros e (err & -> & [[]|(e' & He' & Hp)]).
      destruct (rejection_inv _ _ Hp) as (mail & -> & Hm & Hn).
      exists err, mail. split; [reflexivity|]. split; [|split; assumption].
      rewrite Hl, in_app_iff in He'. destruct He' as [He'|[He'|[]]];
        [exact He'|].
      unfold Job.done in He'. destruct (Job.parentPort E); discriminate.
    + intros Hp. destruct after as [|a after']; [reflexivity|].
      assert (Hr : Job.can_run (Some (Job.done E)) [] = true)
        by (apply Hrun; discriminate).
      unfold Job.done in Hr. rewrite Hp in Hr. discriminate.
  - intros l ps Hl.
    apply (observed_adjacent (Job.Email (Job.Removed ps)) (Job.done E)
             _ _ _ _ H) with (l := l) (tail := []); [|exact Hl].
    unfold Job.done. now destruct (Job.parentPort E).
  - intros Hs Hc. revert H. unfold Job.job. rewrite Hs, Hc. simpl.
    intros H. split; [|reflexivity].
    inversion H as [| p1 err p2 prev rest t' _ _ Hp |]; [reflexivity|].
    now destruct p1.
Qed.

Lemma delete_all_In id : forall badIds ids,
  In id (Job.delete_all badIds ids) <-> In id ids /\ ~ In id badIds.
Proof.
  unfold Job.delete_all.
  induction badIds as [|b rest IH]; intros ids; simpl; [tauto|].
  rewrite IH. unfold Job.set_delete. rewrite filter_In.
  rewrite negb_true_iff, String.eqb_neq. intuition congruence.
Qed.

Lemma delete_all_NoDup : forall badIds ids,
  NoDup ids -> NoDup (Job.delete_all badIds ids).
Proof.
  unfold Job.delete_all.
  induction badIds as [|b rest IH]; intros ids H; simpl; [exact H|].
  apply IH. now apply NoDup_filter.
Qed.

Lemma job_sized :
  Job.setupMongoose E = None ->
  Job.isCancelled E = false ->
  Job.sized (fst (Job.job E)) =
  match snd (Job.scan E), Job.ids (fst (Job.scan E)),
        Job.Aliases_distinct E (Job.ids (fst (Job.scan E))) with
  | None, _ :: _, inr badIds =>
      Job.delete_all badIds (Job.ids (fst (Job.scan E)))
  | _, _, _ => []
  end.
Proof.
  intros Hs Hc.
  destruct (job_unfold Hs Hc) as (tail & -> & _ & S & _).
  rewrite sized_app, S, app_nil_r, try_block_unfold.
  destruct (scan_scanned E) as (_ & _ & Ho & _).
  pose proof (only_unlinks_sized _ Ho) as S0.
  destruct (snd (Job.scan E)); simpl; [exact S0|].
  destruct (after_scan_unfold (fst (Job.scan E)))
    as (t2 & -> & _ & _ & _ & _ & S2).
  now rewrite sized_app, S0, S2.
Qed.

Lemma job_timeouts :
  Forall (fun e => forall id t, e = Job.SizeRequest id t ->
                                t = Job.FIVE_SECONDS)
         (fst (Job.job E)).
Proof.
  assert (Hscan : Forall (fun e => forall id t, e = Job.SizeRequest id t ->
                                                t = Job.FIVE_SECONDS)
                         (Job.log (fst (Job.scan E)))).
  { destruct (scan_scanned E) as (_ & _ & Ho & _).
    apply Forall_forall. intros e He id t ->.
    destruct (Ho _ He) as [p Hp]. discriminate. }
  assert (Hrep : forall m,
            Forall (fun e => forall id t, e = Job.SizeRequest id t ->
                                          t = Job.FIVE_SECONDS)
                   (Job.report E m)).
  { intros m. unfold Job.report. repeat constructor; discriminate. }
  assert (Hreq : forall ids,
            Forall (fun e => forall id t, e = Job.SizeRequest id t ->
                                          t = Job.FIVE_SECONDS)
                   (Job.size_requests ids)).
  { intros ids. unfold Job.size_requests. apply Forall_forall.
    intros e He id t ->. apply in_map_iff in He.
    destruct He as (x & [= _ <-] & _). reflexivity. }
  assert (Hdone : forall id t, Job.done E = Job.SizeRequest id t ->
                               t = Job.FIVE_SECONDS).
  { unfold Job.done. destruct (Job.parentPort E); discriminate. }
  unfold Job.job.
  destruct (Job.setupMongoose E); [simpl; constructor|].
  destruct (Job.isCancelled E); [simpl; constructor|].
  rewrite try_block_unfold.
  destruct (snd (Job.scan E)) as [e|]; simpl.
  - destruct (Job.emailHelper E (Job.Failed e)); simpl;
      repeat (apply Forall_app; split); try assumption;
      repeat constructor; try discriminate; assumption.
  - unfold Job.after_scan.
    destruct (Job.filePaths (fst (Job.scan E)));
      destruct (Job.ids (fst (Job.scan E)));
      try destruct (Job.Aliases_distinct E _) as [e|[|b bs]]; simpl;
      try destruct (Job.emailHelper E (Job.Failed e)); simpl;
      repeat (apply Forall_app; split); try assumption;
      try apply Hrep; try apply Hreq;
      repeat constructor; try discriminate;
      try (intros ? ? [= _ <-]; reflexivity);
      first [apply Hreq | assumption].
Qed.

(** X25. A size request is sent only for an id the scan collected from the
    name of a [.sqlite] file, never for an id [Aliases.distinct] returned
    as banned or removed, never twice for the same id, and always with a
    timeout of five seconds. *)
Theorem size_requests_are_for_collected_ids :
  Job.setupMongoose E = None ->
  Job.isCancelled E = false ->
  NoDup (Job.sized (fst (Job.job E))) /\
  (forall id timeout, In (Job.SizeRequest id timeout) (fst (Job.job E)) ->
     timeout = Job.FIVE_SECONDS) /\
  forall id, In id (Job.sized (fst (Job.job E))) ->
    Job.collected E id /\
    exists badIds,
      Job.Aliases_distinct E (Job.ids (fst (Job.scan E))) = inr badIds /\
      ~ In id badIds.
Proof.
  intros Hs Hc.
  destruct (scan_scanned E) as (_ & Hcol & Ho & Hn).
  split; [|split].
  - rewrite (job_sized Hs Hc).
    destruct (snd (Job.scan E)); [constructor|].
    destruct (Job.ids (fst (Job.scan E))) eqn:Hi; [constructor|].
    destruct (Job.Aliases_distinct E (s :: l)); [constructor|].
    now apply delete_all_NoDup.
  - intros id timeout Hin.
    pose proof job_timeouts as H. rewrite Forall_forall in H.
    exact (H _ Hin id timeout eq_refl).
  - intros id. rewrite (job_sized Hs Hc).
    destruct (snd (Job.scan E)); [intros []|].
    destruct (Job.ids (fst (Job.scan E))) eqn:Hi; [intros []|].
    destruct (Job.Aliases_distinct E (s :: l)) as [e|badIds]; [intros []|].
    intros Hin. apply delete_all_In in Hin. destruct Hin as [Hin Hbad].
    split; [|now exists badIds].
    rewrite Forall_forall in Hcol. apply Hcol. exact Hin.
Qed.

End JobLog.

(** ** What a scan without errors does not miss *)

Section JobComplete.

Variable E : Job.Env.

Lemma grows_refl st : Job.grows st st.
Proof. split; apply incl_refl. Qed.

Lemma grows_trans a b c : Job.grows a b -> Job.grows b c -> Job.grows a c.
Proof. intros [H1 H2] [H3 H4]. split; eapply incl_tran; eassumption. Qed.

Lemma grows_add_id id st : Job.grows st (Job.add_id id st).
Proof.
  split; simpl; [apply incl_refl|]. intros x Hx. apply set_add_In. now left.
Qed.

Lemma grows_unlink p st :
  Job.grows st (Job.record (Job.Unlink p) st) /\
  Job.grows st (Job.push p (Job.record (Job.Unlink p) st)).
Proof.
  split; (split; simpl; [|apply incl_refl]);
    rewrite unlinked_app; apply incl_appl, incl_refl.
Qed.

Lemma affixes_loop_grows dir file b : forall affixes st st' r,
  Job.affixes_loop E dir file b affixes st = (st', r) -> Job.grows st st'.
Proof.
  induction affixes as [|a rest IH]; intros st st' r; simpl.
  - intros [= <- <-]. apply grows_refl.
  - destruct (Job.endsWith b a); simpl.
    + destruct (Job.stat E _) as [e|s];
        [intros [= <- <-]; apply grows_refl|].
      destruct (Job.stat_isFile s); simpl; [|apply IH].
      destruct (Job.stale E s); [|intros [= <- <-]; apply grows_refl].
      destruct (Job.unlink E _); intros [= <- <-]; apply grows_unlink.
    + intros H. apply IH in H.
      eapply grows_trans; [apply grows_add_id|exact H].
Qed.

Lemma file_step_grows dir file st st' r :
  Job.file_step E dir file st = (st', r) -> Job.grows st st'.
Proof.
  unfold Job.file_step.
  destruct (negb (Job.isFile file)); [intros [= <- <-]; apply grows_refl|].
  destruct (negb (String.eqb _ _)); [intros [= <- <-]; apply grows_refl|].
  apply affixes_loop_grows.
Qed.

Lemma files_loop_grows dir : forall files st st' r,
  Job.files_loop E dir files st = (st', r) -> Job.grows st st'.
Proof.
  induction files as [|file rest IH]; intros st st' r; simpl.
  - intros [= <- <-]. apply grows_refl.
  - destruct (Job.file_step E dir file st) as [st1 [e|]] eqn:Hstep.
    + intros [= <- <-]. eapply file_step_grows, Hstep.
    + intros H. eapply grows_trans;
        [eapply file_step_grows, Hstep | eapply IH, H].
Qed.

Lemma dirent_step_grows d st st' r :
  Job.dirent_step E d st = (st', r) -> Job.grows st st'.
Proof.
  unfold Job.dirent_step.
  destruct (negb (Job.isDirectory d)); [intros [= <- <-]; apply grows_refl|].
  destruct (Job.readdir E _); [intros [= <- <-]; apply grows_refl|].
  apply files_loop_grows.
Qed.

Lemma dirents_loop_grows : forall dirents st st' r,
  Job.dirents_loop E dirents st = (st', r) -> Job.grows st st'.
Proof.
  induction dirents as [|d rest IH]; intros st st' r; simpl.
  - intros [= <- <-]. apply grows_refl.
  - destruct (Job.dirent_step E d st) as [st1 [e|]] eqn:Hstep.
    + intros [= <- <-]. eapply dirent_step_grows, Hstep.
    + intros H. eapply grows_trans;
        [eapply dirent_step_grows, Hstep | eapply IH, H].
Qed.

(** A loop that ends without an error went through each of its entries. *)
Lemma files_loop_reaches dir file : forall files st st',
  In file files ->
  Job.files_loop E dir files st = (st', None) ->
  exists s1 s2,
    Job.file_step E dir file s1 = (s2, None) /\ Job.grows s2 st'.
Proof.
  induction files as [|f rest IH]; intros st st' []; simpl.
  - subst f.
    destruct (Job.file_step E dir file st) as [st1 [e|]] eqn:Hstep;
      [discriminate|].
    intros H. exists st, st1. split; [exact Hstep|].
    eapply files_loop_grows, H.
  - destruct (Job.file_step E dir f st) as [st1 [e|]]; [discriminate|].
    now apply IH.
Qed.

Lemma dirents_loop_reaches d : forall dirents st st',
  In d dirents ->
  Job.dirents_loop E dirents st = (st', None) ->
  exists s1 s2,
    Job.dirent_step E d s1 = (s2, None) /\ Job.grows s2 st'.
Proof.
  induction dirents as [|x rest IH]; intros st st' []; simpl.
  - subst x.
    destruct (Job.dirent_step E d st) as [st1 [e|]] eqn:Hstep;
      [discriminate|].
    intros H. exists st, st1. split; [exact Hstep|].
    eapply dirents_loop_grows, H.
  - destruct (Job.dirent_step E x st) as [st1 [e|]]; [discriminate|].
    now apply IH.
Qed.

(** A scan that ends without an error went through every listed file. *)
Lemma scan_reaches dirent file :
  Job.listed E dirent file ->
  snd (Job.scan E) = None ->
  exists s1 s2,
    Job.affixes_loop E (Job.name dirent) (Job.name file)
      (Job.path_basename E (Job.name file)
         (Job.path_extname E (Job.name file)))
      Job.AFFIXES s1 = (s2, None) /\
    Job.grows s2 (fst (Job.scan E)).
Proof.
  intros (dirents & files & L1 & L2 & L3 & L4 & L5 & L6 & L7).
  unfold Job.scan. rewrite L1.
  destruct (Job.dirents_loop E dirents Job.scan0) as [st r] eqn:Hl. simpl.
  intros ->.
  destruct (dirents_loop_reaches dirent _ _ _ L2 Hl) as (a1 & a2 & Hd & G1).
  unfold Job.dirent_step in Hd. rewrite L3, L4 in Hd. cbn [negb] in Hd.
  destruct (files_loop_reaches _ file _ _ _ L5 Hd) as (b1 & b2 & Hf & G2).
  assert (X : String.eqb (Job.path_extname E (Job.name file)) ".sqlite"
               = true) by (rewrite L7; reflexivity).
  unfold Job.file_step in Hf. rewrite L6, X in Hf. cbn [negb] in Hf.
  exists b1, b2. split; [exact Hf|].
  eapply grows_trans; eassumption.
Qed.

(** The affix loop hands a stale backup to [unlink], whichever affix its
    base name ends with. *)
Lemma affixes_loop_unlinks dir file b s : forall affixes affix st st',
  let p := Job.path_join E [Job.mountDir E; dir; file] in
  In affix affixes -> Job.endsWith b affix = true ->
  Job.stat E p = inr s -> Job.stat_isFile s = true ->
  Job.stale E s = true ->
  Job.affixes_loop E dir file b affixes st = (st', None) ->
  In p (Job.unlinked (Job.log st')).
Proof.
  intros affixes affix st st' p Hin He Hs Hf Hst. revert st.
  induction affixes as [|a rest IH]; intros st; [destruct Hin|]. simpl.
  fold p. rewrite Hs, Hf, Hst. simpl.
  destruct (Job.endsWith b a) eqn:Ea; simpl.
  - destruct (Job.unlink E p); [discriminate|].
    intros [= <-]. simpl. rewrite unlinked_app, in_app_iff. simpl. auto.
  - destruct Hin as [->|Hin]; [congruence|]. now apply IH.
Qed.

(** The affix loop adds the id of a base name that does not end with
    [-backup]. *)
Lemma affixes_loop_collects dir file b st st' r :
  Job.endsWith b "-backup" = false ->
  Job.affixes_loop E dir file b Job.AFFIXES st = (st', r) ->
  In (Job.replace "-tmp" "" b) (Job.ids st').
Proof.
  intros He. unfold Job.AFFIXES. simpl. rewrite He. simpl.
  intros H.
  match type of H with
  | match ?c with _ => _ end = _ =>
      change (Job.affixes_loop E dir file b ["-backup-wal"; "-backup-shm"]
                (Job.add_id (Job.replace "-tmp" "" b) st) = (st', r)) in H
  end.
  apply affixes_loop_grows in H. destruct H as [_ H]. apply H.
  simpl. apply set_add_In. now right.
Qed.

Lemma sized_In id l :
  In id (Job.sized l) <-> exists t, In (Job.SizeRequest id t) l.
Proof.
  induction l as [|e l IH]; simpl.
  - split; [intros []|intros [t []]].
  - destruct e; simpl; rewrite IH;
      try (split; [intros [t H]; exists t; now right
                  |intros [t [H|H]]; [discriminate|now exists t]]).
    split.
    + intros [<-|[t H]]; [eexists; left; reflexivity|exists t; now right].
    + intros [t [[= -> _]|H]]; [now left|right; now exists t].
Qed.

(** X26. A scan that meets no error misses no stale backup: every file of a
    directory of the mount point with the extension [.sqlite] whose base
    name ends with one of the three affixes, and for which [stat] reports
    a file last modified at least four hours ago, is handed to [unlink]. *)
Theorem every_stale_backup_is_removed dirent file affix s :
  let p :=
    Job.path_join E [Job.mountDir E; Job.name dirent; Job.name file] in
  Job.setupMongoose E = None ->
  Job.isCancelled E = false ->
  snd (Job.scan E) = None ->
  Job.listed E dirent file ->
  In affix Job.AFFIXES ->
  Job.endsWith (Job.path_basename E (Job.name file)
                  (Job.path_extname E (Job.name file))) affix = true ->
  Job.stat E p = inr s ->
  Job.stat_isFile s = true ->
  Job.stale E s = true ->
  In p (Job.unlinked (fst (Job.job E))).
Proof.
  intros p Hs Hc Hscan L Ha He Hst Hf Hold.
  rewrite job_unlinked, Hs, Hc.
  destruct (scan_reaches dirent file L Hscan) as (s1 & s2 & Hloop & [G _]).
  apply G.
  exact (affixes_loop_unlinks _ _ _ s _ affix _ _ Ha He Hst Hf Hold Hloop).
Qed.

Lemma scan_collects dirent file :
  Job.listed E dirent file ->
  snd (Job.scan E) = None ->
  Job.endsWith (Job.path_basename E (Job.name file)
                  (Job.path_extname E (Job.name file))) "-backup" = false ->
  In (Job.replace "-tmp" ""
        (Job.path_basename E (Job.name file)
           (Job.path_extname E (Job.name file))))
     (Job.ids (fst (Job.scan E))).
Proof.
  intros L Hscan He.
  destruct (scan_reaches dirent file L Hscan) as (s1 & s2 & Hloop & [_ G]).
  apply G. eapply affixes_loop_collects; eassumption.
Qed.

Lemma collected_is_sized id badIds :
  Job.setupMongoose E = None ->
  Job.isCancelled E = false ->
  snd (Job.scan E) = None ->
  In id (Job.ids (fst (Job.scan E))) ->
  Job.Aliases_distinct E (Job.ids (fst (Job.scan E))) = inr badIds ->
  ~ In id badIds ->
  In (Job.SizeRequest id Job.FIVE_SECONDS) (fst (Job.job E)).
Proof.
  intros Hs Hc Hscan Hin Hd Hbad.
  assert (H : In id (Job.sized (fst (Job.job E)))).
  { rewrite (job_sized E Hs Hc), Hscan, Hd.
    destruct (Job.ids (fst (Job.scan E))) eqn:Hi; [destruct Hin|].
    apply delete_all_In. now split. }
  apply sized_In in H. destruct H as [t H].
  pose proof (job_timeouts E) as T. rewrite Forall_forall in T.
  now rewrite <- (T _ H id t eq_refl).
Qed.

(** X27. A scan that meets no error asks for the size of every database it
    saw: for every [.sqlite] file of a directory of the mount point whose
    base name does not end with [-backup], a size request is sent for the
    base name without its first [-tmp], unless [Aliases.distinct] returned
    that id as banned or removed. *)
Theorem every_database_is_sized dirent file badIds :
  let basename :=
    Job.path_basename E (Job.name file)
                      (Job.path_extname E (Job.name file)) in
  Job.setupMongoose E = None ->
  Job.isCancelled E = false ->
  snd (Job.scan E) = None ->
  Job.listed E dirent file ->
  Job.endsWith basename "-backup" = false ->
  Job.Aliases_distinct E (Job.ids (fst (Job.scan E))) = inr badIds ->
  ~ In (Job.replace "-tmp" "" basename) badIds ->
  In (Job.SizeRequest (Job.replace "-tmp" "" basename) Job.FIVE_SECONDS)
     (fst (Job.job E)).
Proof.
  intros b Hs Hc Hscan L He Hd Hbad.
  apply (collected_is_sized _ badIds); try assumption.
  now apply (scan_collects dirent file).
Qed.

(** A string that ends with [suffix] ends with the last character of
    [suffix]. *)
Lemma endsWith_last s suffix c :
  Job.endsWith s suffix = true ->
  String.get (String.length suffix - 1) suffix = Some c ->
  String.get (String.length s - 1) s = Some c.
Proof.
  unfold Job.endsWith. intros H Hc.
  apply andb_prop in H. destruct H as [Hle Heq].
  apply Nat.leb_le in Hle. apply String.eqb_eq in Heq.
  assert (Hm : (0 < String.length suffix)%nat).
  { destruct suffix; [discriminate|simpl; lia]. }
  rewrite <- Heq in Hc at 2.
  rewrite String.substring_correct1 in Hc by lia.
  replace (String.length suffix - 1
           + (String.length s - String.length suffix))%nat
    with (String.length s - 1)%nat in Hc by lia.
  exact Hc.
Qed.

Lemma wal_is_no_backup b :
  Job.endsWith b "-backup-wal" = true \/ Job.endsWith b "-backup-shm" = true ->
  Job.endsWith b "-backup" = false.
Proof.
  intros H. destruct (Job.endsWith b "-backup") eqn:E1; [|reflexivity].
  pose proof (endsWith_last b "-backup" _ E1 eq_refl) as P.
  destruct H as [H|H].
  - pose proof (endsWith_last b "-backup-wal" _ H eq_refl) as Q.
    rewrite P in Q. discriminate.
  - pose proof (endsWith_last b "-backup-shm" _ H eq_refl) as Q.
    rewrite P in Q. discriminate.
Qed.

(** X28. The affixes are tried in order, and a base name that ends with
    [-backup-wal] or [-backup-shm] fails the first test: the backup of a
    write-ahead log or of a shared-memory file is taken for a database, so
    that, besides being removed when stale, its base name is collected as
    an id and a size request is sent for it. *)
Theorem backup_of_wal_is_taken_for_a_database dirent file badIds :
  let basename :=
    Job.path_basename E (Job.name file)
                      (Job.path_extname E (Job.name file)) in
  Job.setupMongoose E = None ->
  Job.isCancelled E = false ->
  snd (Job.scan E) = None ->
  Job.listed E dirent file ->
  Job.endsWith basename "-backup-wal" = true \/
  Job.endsWith basename "-backup-shm" = true ->
  Job.Aliases_distinct E (Job.ids (fst (Job.scan E))) = inr badIds ->
  ~ In (Job.replace "-tmp" "" basename) badIds ->
  Job.collected E (Job.replace "-tmp" "" basename) /\
  In (Job.SizeRequest (Job.replace "-tmp" "" basename) Job.FIVE_SECONDS)
     (fst (Job.job E)).
Proof.
  intros b Hs Hc Hscan L He Hd Hbad.
  pose proof (wal_is_no_backup b He) as Hno.
  pose proof (scan_collects dirent file L Hscan Hno) as Hin.
  split.
  - destruct (scan_scanned E) as (_ & Hcol & _).
    rewrite Forall_forall in Hcol. now apply Hcol.
  - now apply (collected_is_sized _ badIds).
Qed.

End JobComplete.

(** * The properties on concrete runs *)

Lemma stored_booleans_follow_flags_witness :
  exists m,
    messages (fst (onAppend Sample.collaborators "INBOX" ["\Seen"; "\Flagged"]
                            5 Sample.note Sample.session Sample.world))
      = [m] /\
    Message.unseen m = false /\ Message.flagged m = true /\
    Message.undeleted m = true /\ Message.draft m = false /\
    Message.searchable m = true.
Proof.
  destruct (stored_booleans_follow_flags Sample.collaborators eq_refl
              "INBOX" ["\Seen"; "\Flagged"] 5 Sample.note Sample.session
              Sample.world ltac:(vm_compute; discriminate))
    as (m & Hm & H1 & H2 & H3 & H4 & H5 & _).
  exists m. rewrite H5. repeat split; assumption.
Defined.

Lemma stored_flags_follow_special_use_witness :
  exists m,
    messages (fst (onAppend Sample.collaborators "Drafts" ["\Seen"] 5
                            Sample.photo Sample.session Sample.world))
      = [m] /\
    Message.flags m = ["\Seen"; "\Draft"] /\
    Message.junk m = false /\
    Message.draft m = false.
Proof.
  eexists. split; [vm_compute; reflexivity|].
  destruct (stored_flags_follow_special_use Sample.collaborators eq_refl
              "Drafts" ["\Seen"] 5 Sample.photo Sample.session Sample.world
              _ Sample.drafts eq_refl eq_refl) as (H1 & H2 & H3).
  split; [exact H1|]. split; [exact H2|].
  exact (proj2 (H3 eq_refl eq_refl)).
Defined.

Lemma stored_expiry_follows_retention_witness :
  exists m,
    messages (fst (onAppend Sample.collaborators "INBOX" [] 5 Sample.note
                            Sample.session Sample.world)) = [m] /\
    Message.mailbox m = "m1" /\
    Message.exp m = false /\
    Message.rdate m = 1000.
Proof.
  destruct (stored_expiry_follows_retention Sample.collaborators eq_refl
              "INBOX" [] 5 Sample.note Sample.session Sample.world
              Sample.inbox ltac:(vm_compute; discriminate) eq_refl)
    as (m & H1 & H2 & H3 & H4).
  exists m. repeat split; assumption.
Defined.

Lemma response_describes_stored_message_witness :
  exists m,
    messages (fst (onAppend Sample.collaborators "INBOX" [] 5 Sample.note
                            Sample.session Sample.world)) = [m] /\
    Message.uid m = 7 /\ Message._id m = "x1" /\
    Message.mailbox m = "m1" /\ Message.size m = 3.
Proof.
  destruct (response_describes_stored_message Sample.collaborators eq_refl
              "INBOX" [] 5 Sample.note Sample.session Sample.world
              (fst (onAppend Sample.collaborators "INBOX" [] 5 Sample.note
                             Sample.session Sample.world))
              true
              {| Response.uidValidity := 1; Response.uid := 7;
                 Response.id := "x1"; Response.mailbox := "m1";
                 Response.mailboxPath := "INBOX"; Response.size := 3;
                 Response.status := "new" |}
              ltac:(vm_compute; reflexivity)
              ltac:(vm_compute; discriminate))
    as (m & H1 & _ & H2 & H3 & H4 & H5 & _).
  exists m. repeat split; [exact H1| | | |]; symmetry; assumption.
Defined.


Lemma parse_failure_stops_after_gate_witness :
  onAppend Variants.no_parser "INBOX" [] 5 Sample.note Sample.session
           Sample.world =
  (Sample.world, FnError Variants.down) /\
  same_store Sample.world Sample.world.
Proof.
  exact (parse_failure_stops_after_gate Variants.no_parser eq_refl
           "INBOX" [] 5 Sample.note Sample.session Sample.world
           Sample.session 0 Sample.inbox Variants.down
           eq_refl eq_refl eq_refl eq_refl).
Defined.

Lemma without_dedup_a_duplicate_is_stored_witness :
  exists w' r m,
    onAppend Sample.collaborators "INBOX" [] 5 Sample.note Sample.session
             Sample.delivered = (w', FnOk true r) /\
    messages w' = messages Sample.delivered ++ [m] /\
    List.length (messages w') = 2%nat /\
    Response.uid r = 8.
Proof.
  destruct (without_dedup_a_duplicate_is_stored Sample.collaborators eq_refl
              "INBOX" [] 5 Sample.note Sample.session Sample.delivered
              Sample.session 0 _ _ Sample.quota true _ _ _ _
              eq_refl eq_refl eq_refl eq_refl eq_refl eq_refl eq_refl
              ltac:(vm_compute; discriminate) eq_refl eq_refl eq_refl
              eq_refl (fun _ _ => eq_refl) (fun _ _ => eq_refl))
    as (w' & r & H1 & H2 & _ & _ & _ & H3).
  eexists w', r, _. split; [exact H1|]. split; [exact H2|].
  split; [rewrite H2; reflexivity|]. rewrite H3. reflexivity.
Defined.

Lemma rejected_message_consumes_identifiers_witness :
  exists w' post,
    onAppend Sample.collaborators "INBOX" ["\Invalid"] 5 Sample.photo
             Sample.session Sample.world =
      (w', FnError (mkErr "ValidationError" "flags" None)) /\
    messages w' = [] /\
    mailbox_by_id "m1" w' = Some post /\
    Mailbox.uidNext post = 8.
Proof.
  destruct (rejected_message_consumes_identifiers Sample.collaborators
              eq_refl "INBOX" ["\Invalid"] 5 Sample.photo Sample.session
              Sample.world Sample.session 0 Sample.inbox _ Sample.quota true
              Sample.inbox _ _ (mkErr "ValidationError" "flags" None)
              eq_refl eq_refl eq_refl eq_refl eq_refl eq_refl
              ltac:(vm_compute; discriminate) eq_refl eq_refl eq_refl
              eq_refl)
    as (w' & post & H1 & H2 & _ & H3 & H4 & _).
  exists w', post. repeat split; assumption.
Defined.

Lemma journal_entry_only_with_success_witness :
  exists r m,
    snd (onAppend Sample.collaborators "INBOX" [] 5 Sample.note
                  Sample.session Sample.world) = FnOk true r /\
    messages (fst (onAppend Sample.collaborators "INBOX" [] 5 Sample.note
                            Sample.session Sample.world)) = [m] /\
    journal (fst (onAppend Sample.collaborators "INBOX" [] 5 Sample.note
                           Sample.session Sample.world)) =
      [{| Journal.ignore := true; Journal.command := "EXISTS";
          Journal.uid := Response.uid r; Journal.mailbox := "m1";
          Journal.message := Response.id r |}].
Proof.
  destruct (journal_entry_only_with_success Sample.collaborators eq_refl
              "INBOX" [] 5 Sample.note Sample.session Sample.world)
    as [[H _] | (s & r & m & Hs & Hc & Hm & _ & _ & _ & Hj & _)].
  - exfalso. revert H. vm_compute. discriminate.
  - exists r, m. split; [exact Hc|]. split; [exact Hm|].
    rewrite Hj. injection Hs as <-.
    assert (Hr : Response.mailbox r = "m1").
    { revert Hc. vm_compute. intros [= <-]. reflexivity. }
    rewrite Hr. reflexivity.
Defined.

Lemma failure_after_create_keeps_message_witness :
  exists w' m,
    onAppend Variants.no_broadcast "INBOX" [] 5 Sample.photo Sample.session
             Sample.world = (w', FnError Variants.down) /\
    messages w' = [m] /\
    Message.uid m = 7 /\
    journal w' = [] /\
    MimeTree.attachmentMap (Message.mimeTree m) = Some [("att1", "b1")] /\
    In (DeleteMany ["b1"] 42) (trace w').
Proof.
  destruct (failure_after_create_keeps_message Variants.no_broadcast eq_refl
              "INBOX" [] 5 Sample.photo Sample.session Sample.world
              Sample.session 0 Sample.inbox _ Sample.quota true
              Sample.inbox _ _ Variants.down
              eq_refl eq_refl eq_refl eq_refl eq_refl eq_refl
              ltac:(vm_compute; discriminate) eq_refl eq_refl eq_refl
              eq_refl (or_introl (conj eq_refl eq_refl)))
    as (w' & H1 & H2 & H3 & H4 & _ & H5).
  destruct (H5 [("att1", "b1")] eq_refl eq_refl ltac:(discriminate))
    as [H6 H7].
  eexists w', _. split; [exact H1|]. split; [exact H2|].
  split; [exact H3|]. split; [exact H4|]. split; [reflexivity|exact H7].
Defined.

Lemma storage_accounting_failure_is_only_logged_witness :
  exists w' r,
    onAppend Variants.no_accounting "INBOX" [] 5 Sample.note Sample.session
             Sample.world = (w', FnOk true r) /\
    List.length (messages w') = 1%nat /\
    In (UpdateStorageUsed "a1") (trace w') /\
    In (LogFatal Variants.down) (trace w').
Proof.
  destruct (storage_accounting_failure_is_only_logged Variants.no_accounting
              eq_refl "INBOX" [] 5 Sample.note Sample.session Sample.world
              Sample.session 0 Sample.inbox _ Sample.quota true
              Sample.inbox _ _ Variants.down
              eq_refl eq_refl eq_refl eq_refl eq_refl eq_refl
              ltac:(vm_compute; discriminate) eq_refl eq_refl eq_refl
              eq_refl (fun _ _ => eq_refl) (fun _ _ => eq_refl)
              (fun _ => eq_refl))
    as (w' & r & H1 & H2 & _ & H3 & H4).
  exists w', r. split; [exact H1|]. split; [rewrite H2; reflexivity|].
  split; assumption.
Defined.

Lemma alert_implies_lasting_failure_witness :
  exists e,
    encryptMessage Sample.collaborators "broken" Sample.note = inl e /\
    isCodeBug Sample.collaborators e = false /\
    isRetryableError Sample.collaborators e = false.
Proof.
  destruct (alert_implies_lasting_failure Sample.collaborators eq_refl
              "INBOX" [] 5 Sample.note
              (Sample.session_of (Sample.owner_with_key "broken") false)
              Sample.world) as [_ H].
  destruct (H ltac:(vm_compute; discriminate))
    as (s & e & a & Hs & _ & He & Hb & Hr & _).
  injection Hs as <-. exists e. repeat split; assumption.
Defined.

Lemma successful_encryption_clears_stale_alert_witness :
  exists a',
    find (alias_of (Sample.owner_with_key "good"))
         (aliases (fst (onAppend Sample.collaborators "INBOX" [] 5
                          Sample.note
                          (Sample.session_of (Sample.owner_with_key "good")
                                             false)
                          Variants.alerted))) = Some a' /\
    Alias.pgp_error_sent_at a' = None.
Proof.
  destruct (successful_encryption_clears_stale_alert Sample.collaborators
              eq_refl "INBOX" [] 5 Sample.note
              (Sample.session_of (Sample.owner_with_key "good") false)
              Variants.alerted
              (Sample.session_of (Sample.owner_with_key "good") false)
              0 Sample.inbox Sample.note
              {| Alias._id := "a1"; Alias.domain := "d1";
                 Alias.pgp_error_sent_at := Some 0 |}
              eq_refl eq_refl eq_refl eq_refl eq_refl eq_refl)
    as (a' & H1 & _ & H2).
  exists a'. split; [exact H1 | exact H2].
Defined.

Lemma unsent_alert_is_not_counted_witness :
  alerts (trace (fst (onAppend Variants.no_mailer "INBOX" [] 5 Sample.note
                        (Sample.session_of (Sample.owner_with_key "broken")
                                           false)
                        Sample.world))) = 1%nat /\
  exists a',
    find (alias_of (Sample.owner_with_key "broken"))
         (aliases (fst (onAppend Variants.no_mailer "INBOX" [] 5 Sample.note
                          (Sample.session_of (Sample.owner_with_key "broken")
                                             false)
                          Sample.world))) = Some a' /\
    Alias.pgp_error_sent_at a' = None.
Proof.
  destruct (unsent_alert_is_not_counted Variants.no_mailer eq_refl
              "INBOX" [] 5 Sample.note
              (Sample.session_of (Sample.owner_with_key "broken") false)
              Sample.world
              (Sample.session_of (Sample.owner_with_key "broken") false)
              0 Sample.inbox (mkErr "Error" "invalid key" None)
              Sample.alias Variants.down
              eq_refl eq_refl eq_refl eq_refl eq_refl eq_refl eq_refl
              eq_refl eq_refl (fun _ => eq_refl))
    as (H1 & a' & H2 & _ & H3 & _).
  split; [exact H1|]. exists a'. split; assumption.
Defined.

Lemma frontend_forwards_within_limit_witness :
  exists w',
    onAppend Sample.frontend "INBOX" [] 5 Sample.note Sample.session
             Sample.world = (w', FnOk true Sample.answer) /\
    same_store Sample.world w' /\
    trace w' = [NotifierFire "a1"; SendApn "a1" "INBOX"].
Proof.
  destruct (frontend_forwards_within_limit Sample.frontend _ eq_refl
              "INBOX" [] 5 Sample.note Sample.session Sample.world
              Sample.world true Sample.answer
              ltac:(vm_compute; discriminate) eq_refl)
    as (w' & H1 & H2 & _ & H3).
  exists w'. split; [exact H1|]. split; [exact H2 | exact H3].
Defined.

Lemma frontend_maps_rejections_witness :
  onAppend Variants.no_upstream "INBOX" [] 5 Sample.note Sample.session
           Sample.world = (Sample.world, FnCode "TRYCREATE").
Proof.
  exact (frontend_maps_rejections Variants.no_upstream _ eq_refl
           "INBOX" [] 5 Sample.note Sample.session Sample.world
           Sample.world Variants.refused
           ltac:(vm_compute; discriminate) eq_refl).
Defined.

Lemma appends_only_add_witness :
  exists ms js,
    messages (fst (run Sample.collaborators Sample.calls Sample.world))
      = messages Sample.world ++ ms /\
    journal (fst (run Sample.collaborators Sample.calls Sample.world))
      = journal Sample.world ++ js /\
    (List.length js <= List.length ms)%nat /\
    List.map Mailbox._id
      (mailboxes (fst (run Sample.collaborators Sample.calls Sample.world)))
      = ["m1"; "m2"].
Proof.
  destruct (appends_only_add Sample.collaborators eq_refl Sample.calls
              Sample.world) as (ms & js & H1 & H2 & H3 & H4 & _).
  exists ms, js. repeat split; assumption.
Defined.

Lemma second_delivery_returns_the_first_witness :
  exists v' r,
    onAppend Sample.collaborators "INBOX" [] 5 Sample.note
             (Sample.session_of Sample.owner true) Sample.delivered
      = (v', FnOk true r) /\
    same_store Sample.delivered v' /\
    Response.uid r = 7 /\ Response.id r = "x1" /\ Response.size r = 3.
Proof.
  destruct (second_delivery_returns_the_first Sample.collaborators eq_refl
              "INBOX" [] 5 Sample.note (Sample.session_of Sample.owner true)
              Sample.world _
              Sample.delivered "INBOX" [] 5 Sample.note
              (Sample.session_of Sample.owner true)
              (Sample.session_of Sample.owner true) 0 _ _
              ltac:(vm_compute; reflexivity) eq_refl eq_refl eq_refl eq_refl
              eq_refl eq_refl eq_refl eq_refl eq_refl)
    as (v' & r & H1 & H2 & H3 & H4 & H5 & _).
  exists v', r. repeat split; try assumption; apply H2.
Defined.

Lemma stored_index_text_is_bounded_witness :
  exists m,
    messages (fst (onAppend Sample.collaborators "INBOX" [] 5 Sample.note
                            Sample.session Sample.world)) = [m] /\
    (String.length (Message.text m) <= 1024)%nat.
Proof.
  exact (stored_index_text_is_bounded Sample.collaborators eq_refl
           "INBOX" [] 5 Sample.note Sample.session Sample.world
           (fun x => le_n _) ltac:(vm_compute; discriminate)).
Defined.

Lemma nothing_is_stored_unchecked_witness :
  exists p max m,
    prepareMessage Sample.collaborators [] 5 Sample.note = inr p /\
    Domains_getMaxQuota Sample.collaborators "d1" = inr max /\
    0 + Prepared.size p <= max /\
    messages (fst (onAppend Sample.collaborators "INBOX" [] 5 Sample.note
                            Sample.session Sample.world)) = [m] /\
    Message.size m = Prepared.size p.
Proof.
  destruct (nothing_is_stored_unchecked Sample.collaborators eq_refl
              "INBOX" [] 5 Sample.note Sample.session Sample.world
              ltac:(vm_compute; discriminate))
    as (s & su & mb & p & max & m & Hs & Hq & _ & Hp & _ & Hmax & Hle &
        _ & Hm & _ & Hsz).
  injection Hs as <-. injection Hq as <-.
  exists p, max, m. repeat split; assumption.
Defined.

Lemma report_lists_what_was_removed_witness :
  Job.removed_reports (fst (Job.job Job.Sample.env)) =
  [["/mnt/storage_1/a1-backup.sqlite";
    "/mnt/storage_1/a1-backup-wal.sqlite"]].
Proof.
  exact (eq_trans
           (report_lists_what_was_removed Job.Sample.env eq_refl eq_refl
              eq_refl)
           eq_refl).
Defined.

Lemma scan_failure_is_reported_alone_witness :
  Job.unlinked (fst (Job.job Job.Sample.readonly)) =
    ["/mnt/storage_1/a1-backup.sqlite"] /\
  Job.failures (fst (Job.job Job.Sample.readonly)) =
    [mkErr "Error" "EROFS" None] /\
  Job.removed_reports (fst (Job.job Job.Sample.readonly)) = [] /\
  Job.sized (fst (Job.job Job.Sample.readonly)) = [] /\
  snd (Job.job Job.Sample.readonly) = Job.Finished.
Proof.
  destruct (scan_failure_is_reported_alone Job.Sample.readonly
              (mkErr "Error" "EROFS" None) eq_refl eq_refl eq_refl)
    as (H1 & H2 & H3 & _ & H4).
  split; [reflexivity|]. repeat (split; [assumption|]).
  exact (proj1 (H4 eq_refl)).
Defined.

Lemma final_message_only_at_the_end_witness :
  fst (Job.job Job.Sample.rejecting) =
    [Job.Unlink "/mnt/storage_1/a1-backup.sqlite";
     Job.Email (Job.Removed ["/mnt/storage_1/a1-backup.sqlite"]);
     Job.PostDone] /\
  Job.shows Job.Sample.rejecting
    [Job.Unlink "/mnt/storage_1/a1-backup.sqlite";
     Job.Email (Job.Removed ["/mnt/storage_1/a1-backup.sqlite"]);
     Job.PostDone;
     Job.LogError (mkErr "Error" "SMTP" None)] /\
  exists before after,
    [Job.Unlink "/mnt/storage_1/a1-backup.sqlite";
     Job.Email (Job.Removed ["/mnt/storage_1/a1-backup.sqlite"]);
     Job.PostDone;
     Job.LogError (mkErr "Error" "SMTP" None)] =
    before ++
    Job.Email (Job.Removed ["/mnt/storage_1/a1-backup.sqlite"])
      :: Job.done Job.Sample.rejecting :: after.
Proof.
  assert (Hl : fst (Job.job Job.Sample.rejecting) =
               [Job.Unlink "/mnt/storage_1/a1-backup.sqlite";
                Job.Email (Job.Removed ["/mnt/storage_1/a1-backup.sqlite"]);
                Job.PostDone]) by (vm_compute; reflexivity).
  assert (Hs : Job.shows Job.Sample.rejecting
                 [Job.Unlink "/mnt/storage_1/a1-backup.sqlite";
                  Job.Email (Job.Removed ["/mnt/storage_1/a1-backup.sqlite"]);
                  Job.PostDone;
                  Job.LogError (mkErr "Error" "SMTP" None)]).
  { unfold Job.shows. rewrite Hl. do 3 apply Job.observed_step.
    apply (Job.observed_late Job.Sample.rejecting []
             (mkErr "Error" "SMTP" None) []); [reflexivity|].
    apply Job.observed_end. }
  split; [exact Hl|]. split; [exact Hs|].
  destruct (final_message_only_at_the_end Job.Sample.rejecting _ Hs)
    as (_ & _ & H & _).
  exact (H [Job.Unlink "/mnt/storage_1/a1-backup.sqlite"]
           ["/mnt/storage_1/a1-backup.sqlite"] Hl).
Defined.

Lemma size_requests_are_for_collected_ids_witness :
  NoDup (Job.sized (fst (Job.job Job.Sample.env))) /\
  Job.collected Job.Sample.env "a1" /\
  ~ In "a2" (Job.sized (fst (Job.job Job.Sample.env))).
Proof.
  destruct (size_requests_are_for_collected_ids Job.Sample.env eq_refl
              eq_refl) as (H1 & _ & H3).
  split; [exact H1|]. split.
  - exact (proj1 (H3 "a1" (or_introl eq_refl))).
  - intros Hin. destruct (H3 "a2" Hin) as (_ & badIds & Hb & Hn).
    injection Hb as <-. apply Hn. now left.
Defined.

Lemma every_stale_backup_is_removed_witness :
  In "/mnt/storage_1/a1-backup.sqlite"
     (Job.unlinked (fst (Job.job Job.Sample.env))).
Proof.
  refine (every_stale_backup_is_removed Job.Sample.env
            (Job.Sample.folder "storage_1")
            (Job.Sample.file "a1-backup.sqlite") "-backup" _
            eq_refl eq_refl eq_refl _ (or_introl eq_refl) eq_refl eq_refl
            eq_refl eq_refl).
  do 2 eexists. repeat split; try reflexivity; simpl; auto.
Defined.

Lemma every_database_is_sized_witness :
  In (Job.SizeRequest "a1" 5000) (fst (Job.job Job.Sample.env)).
Proof.
  refine (every_database_is_sized Job.Sample.env
            (Job.Sample.folder "storage_1") (Job.Sample.file "a1.sqlite")
            ["a2"] eq_refl eq_refl eq_refl _ eq_refl eq_refl _).
  - do 2 eexists. repeat split; try reflexivity; simpl; auto.
  - simpl. intros [H|[]]. discriminate.
Defined.

Lemma backup_of_wal_is_taken_for_a_database_witness :
  Job.collected Job.Sample.env "a1-backup-wal" /\
  In (Job.SizeRequest "a1-backup-wal" 5000) (fst (Job.job Job.Sample.env)).
Proof.
  refine (backup_of_wal_is_taken_for_a_database Job.Sample.env
            (Job.Sample.folder "storage_1")
            (Job.Sample.file "a1-backup-wal.sqlite")
            ["a2"] eq_refl eq_refl eq_refl _ (or_introl eq_refl) eq_refl _).
  - do 2 eexists. repeat split; try reflexivity; simpl; auto 10.
  - simpl. intros [H|[]]. discriminate.
Defined.

Lemma job_removes_only_stale_backups_witness :
  Job.removable Job.Sample.env "/mnt/storage_1/a1-backup.sqlite".
Proof.
  exact (job_removes_only_stale_backups Job.Sample.env _
           (or_introl eq_refl)).
Defined.
